(** * A 32-bit CPU emulator: memory, validation, assembler and interpreter

    Shallow embedding of the emulator's C sources:
    - [ram.c]        the word-addressed memory ([ram_store], [ram_load], [ram_free]);
    - [cpu.c]        the processor state ([cpu_init]);
    - [validation.c] the bounds predicates, in their assembly-time and run-time forms;
    - [parser.c]     line cleanup, operand parsers and the label table;
    - [assembler.c]  the two-pass assembler ([assemble]);
    - [cpu_exec.c]   the fetch-decode-execute loop ([cpu_run]) and its handlers.

    Conventions.  A [uint32_t] is a [Z] in [0, 2^32) and every C operation
    that can leave that range has its wrap-around written out with [wrap32].
    An array is a list read with [!!] and written with [<[_:=_]>].  Functions
    that receive a [CPU *] or [RAM *] and may write through it are
    computations of a state monad over the pair of both.  Pointers handed to
    the functions are taken to be valid (the NULL guards are not modelled),
    the diagnostic sink ([log_write]) has no effect on the modelled state, and
    the read-write lock of the memory is not modelled: the engine is
    single-threaded. *)

From Stdlib Require Import ZArith Lia Bool String Ascii.
From stdpp Require Import base list.

Local Open Scope Z_scope.

(** ** Machine words *)

Module Word.

Definition UINT32_MODULUS : Z := 2 ^ 32.

(** Conversion to [uint32_t]: reduction modulo [2^32]. *)
Definition wrap32 (z : Z) : Z := z mod UINT32_MODULUS.

(** Conversion of a [uint32_t] bit pattern to [int32_t] (two's complement). *)
Definition to_int32 (z : Z) : Z :=
  let w := wrap32 z in
  if w <? 2 ^ 31 then w else w - UINT32_MODULUS.

Definition is_uint32 (z : Z) : Prop := 0 <= z < UINT32_MODULUS.

End Word.
Export Word.

(** ** Memory ([ram.h], [ram.c]) *)

Definition RAM_SIZE : Z := 65536.

(** [typedef struct { uint32_t cells[RAM_SIZE]; pthread_rwlock_t lock; } RAM;] *)
Record RAM : Type := mkRAM { cells : list Z }.

(** The array has exactly [RAM_SIZE] cells, each a [uint32_t]. *)
Definition ram_wf (ram : RAM) : Prop :=
  length (cells ram) = Z.to_nat RAM_SIZE /\ Forall is_uint32 (cells ram).

(** [ram->cells[i]] as an rvalue.  The default is never returned for an index
    below [RAM_SIZE] in well-formed memory, and every read of the interpreter
    is preceded by a bounds check. *)
Definition cell (ram : RAM) (i : Z) : Z := default 0 (cells ram !! Z.to_nat i).

(** [ram->cells[i] = v] *)
Definition set_cell (ram : RAM) (i v : Z) : RAM :=
  mkRAM (<[Z.to_nat i := v]> (cells ram)).

(** [is_address_valid]: [address < (uint32_t) RAM_SIZE]. *)
Definition is_address_valid (ram : RAM) (address : Z) : bool := address <? RAM_SIZE.

(** [ram_init]: [memset(ram->cells, 0, sizeof(ram->cells))]. *)
Definition ram_init : RAM := mkRAM (replicate (Z.to_nat RAM_SIZE) 0).

(** [ram_store]: the returned pair is the C return value and the memory
    after the call. *)
Definition ram_store (ram : RAM) (address value : Z) : bool * RAM :=
  if negb (is_address_valid ram address) then (false, ram)
  else (true, set_cell ram address value).

(** [ram_load]: [output] is the content of [*output] before the call; the
    result is the C return value, the content of [*output] after the call and
    the memory after the call. *)
Definition ram_load (ram : RAM) (address output : Z) : bool * Z * RAM :=
  if negb (is_address_valid ram address) then (false, output, ram)
  else (true, cell ram address, ram).

(** [ram_free]: zeroes the inclusive range [[start, end]]. *)
Definition ram_free (ram : RAM) (start end_ : Z) : bool * RAM :=
  if negb (is_address_valid ram start) || negb (is_address_valid ram end_) || (end_ <? start)
  then (false, ram)
  else
    let count := Z.to_nat (end_ - start + 1) in
    let s := Z.to_nat start in
    (true, mkRAM (take s (cells ram) ++ replicate count 0 ++ drop (s + count) (cells ram))).

(** ** Processor state ([cpu.h], [cpu.c]) *)

Definition MAX_REGISTERS : Z := 8.
Definition MAX_ADDRESS_REGISTERS : Z := 8.

Record CPU : Type := mkCPU {
  pc : Z;
  address_registers : list Z;
  registers : list Z;
  zero_flag : bool;
  negative_flag : bool;
  running : bool
}.

Definition cpu_wf (cpu : CPU) : Prop :=
  is_uint32 (pc cpu) /\
  length (address_registers cpu) = Z.to_nat MAX_ADDRESS_REGISTERS /\
  Forall is_uint32 (address_registers cpu) /\
  length (registers cpu) = Z.to_nat MAX_REGISTERS /\
  Forall is_uint32 (registers cpu).

(** [cpu_init] *)
Definition cpu_init : CPU :=
  {| pc := 0;
     address_registers := replicate (Z.to_nat MAX_ADDRESS_REGISTERS) 0;
     registers := replicate (Z.to_nat MAX_REGISTERS) 0;
     zero_flag := false;
     negative_flag := false;
     running := false |}.

(** [cpu_free] re-runs [cpu_init]. *)
Definition cpu_free (cpu : CPU) : CPU := cpu_init.

(** [cpu->registers[i]] and [cpu->address_registers[i]] as rvalues. *)
Definition reg (cpu : CPU) (i : Z) : Z := default 0 (registers cpu !! Z.to_nat i).
Definition areg (cpu : CPU) (i : Z) : Z := default 0 (address_registers cpu !! Z.to_nat i).

Definition with_pc (v : Z) (cpu : CPU) : CPU :=
  {| pc := v; address_registers := address_registers cpu; registers := registers cpu;
     zero_flag := zero_flag cpu; negative_flag := negative_flag cpu; running := running cpu |}.

Definition with_running (b : bool) (cpu : CPU) : CPU :=
  {| pc := pc cpu; address_registers := address_registers cpu; registers := registers cpu;
     zero_flag := zero_flag cpu; negative_flag := negative_flag cpu; running := b |}.

Definition with_zero_flag (b : bool) (cpu : CPU) : CPU :=
  {| pc := pc cpu; address_registers := address_registers cpu; registers := registers cpu;
     zero_flag := b; negative_flag := negative_flag cpu; running := running cpu |}.

Definition with_negative_flag (b : bool) (cpu : CPU) : CPU :=
  {| pc := pc cpu; address_registers := address_registers cpu; registers := registers cpu;
     zero_flag := zero_flag cpu; negative_flag := b; running := running cpu |}.

Definition with_register (i v : Z) (cpu : CPU) : CPU :=
  {| pc := pc cpu; address_registers := address_registers cpu;
     registers := <[Z.to_nat i := v]> (registers cpu);
     zero_flag := zero_flag cpu; negative_flag := negative_flag cpu; running := running cpu |}.

Definition with_address_register (i v : Z) (cpu : CPU) : CPU :=
  {| pc := pc cpu; address_registers := <[Z.to_nat i := v]> (address_registers cpu);
     registers := registers cpu;
     zero_flag := zero_flag cpu; negative_flag := negative_flag cpu; running := running cpu |}.

(** ** Validation ([validation.c]) *)

(** [is_addr_literal_valid] *)
Definition is_addr_literal_valid (addr : Z) : bool :=
  if RAM_SIZE <=? addr then false else true.

(** [is_reg_index_valid_asm]; the argument is an [int]. *)
Definition is_reg_index_valid_asm (reg_index : Z) : bool :=
  if (reg_index <? 0) || (MAX_REGISTERS <=? reg_index) then false else true.

(** [is_addr_index_valid_asm]; the argument is an [int]. *)
Definition is_addr_index_valid_asm (addr_index : Z) : bool :=
  if (addr_index <? 0) || (MAX_ADDRESS_REGISTERS <=? addr_index) then false else true.

(** [is_memory_access_valid]; [start + size - 1] is computed in [uint32_t]. *)
Definition is_memory_access_valid (start size : Z) : bool :=
  if RAM_SIZE <=? start then false
  else if size =? 0 then true
  else
    let last := wrap32 (start + size - 1) in
    if last <? start then false
    else if RAM_SIZE <=? last then false
    else true.

(** Run-time forms: the same bounds, and [cpu->running = false] on failure.
    They are defined below, once the state monad is in place. *)

(** ** Instruction set ([isa.h], [assembler.h]) *)

Definition ISA_LOADI : Z := 0x01.
Definition ISA_LOADA : Z := 0x02.
Definition ISA_LOADM : Z := 0x03.
Definition ISA_STOREM : Z := 0x04.
Definition ISA_ADD : Z := 0x05.
Definition ISA_SUB : Z := 0x06.
Definition ISA_MLP : Z := 0x07.
Definition ISA_DIV : Z := 0x08.
Definition ISA_AND : Z := 0x09.
Definition ISA_OR : Z := 0x0A.
Definition ISA_XOR : Z := 0x0B.
Definition ISA_JMP : Z := 0x0C.
Definition ISA_JZ : Z := 0x0D.
Definition ISA_JNZ : Z := 0x0E.
Definition ISA_CMP : Z := 0x0F.
Definition ISA_HALT : Z := 0xFF.

Definition MAX_LABELS : Z := 256.

(** [AddrMode] *)
Definition ADDR_REGISTER : Z := 0.
Definition ADDR_LITERAL : Z := 1.

(** [OperandType] *)
Definition OPERAND_REGISTER : Z := 0.
Definition OPERAND_NUMERIC : Z := 1.

(** [AssemblyRange] *)
Record AssemblyRange : Type := mkRange {
  start_address : Z;
  end_address : Z;
  error : bool
}.

(** ** The state threaded through assembler and interpreter *)

Record machine : Type := mkMachine { cpu_of : CPU; ram_of : RAM }.

Definition machine_wf (m : machine) : Prop := cpu_wf (cpu_of m) /\ ram_wf (ram_of m).

(** A C function over [(RAM *ram, CPU *cpu)] that returns an [A]. *)
Definition Exec (A : Type) : Type := machine -> A * machine.

Definition ret {A : Type} (a : A) : Exec A := fun m => (a, m).

Definition bind {A B : Type} (c : Exec A) (k : A -> Exec B) : Exec B :=
  fun m => let (a, m') := c m in k a m'.

Notation "'let*' x := c 'in' k" := (bind c (fun x => k))
  (at level 10, x name, c at level 100, k at level 200).

(** [if (!c) return false; k] *)
Definition require (c : Exec bool) (k : Exec bool) : Exec bool :=
  let* ok := c in if ok then k else ret false.

Notation "'check' c 'in' k" := (require c k)
  (at level 10, c at level 100, k at level 200).

Definition get_cpu : Exec CPU := fun m => (cpu_of m, m).
Definition get_ram : Exec RAM := fun m => (ram_of m, m).

Definition modify_cpu (f : CPU -> CPU) : Exec unit :=
  fun m => (tt, mkMachine (f (cpu_of m)) (ram_of m)).

Definition modify_ram (f : RAM -> RAM) : Exec unit :=
  fun m => (tt, mkMachine (cpu_of m) (f (ram_of m))).

(** [is_reg_index_valid_runtime] *)
Definition is_reg_index_valid_runtime (reg_index : Z) : Exec bool :=
  if MAX_REGISTERS <=? reg_index
  then let* _ := modify_cpu (with_running false) in ret false
  else ret true.

(** [is_addr_index_valid_runtime] *)
Definition is_addr_index_valid_runtime (addr_index : Z) : Exec bool :=
  if MAX_ADDRESS_REGISTERS <=? addr_index
  then let* _ := modify_cpu (with_running false) in ret false
  else ret true.

(** [is_addr_literal_valid_runtime] *)
Definition is_addr_literal_valid_runtime (addr : Z) : Exec bool :=
  if RAM_SIZE <=? addr
  then let* _ := modify_cpu (with_running false) in ret false
  else ret true.

(** [is_memory_access_valid_runtime] *)
Definition is_memory_access_valid_runtime (start size : Z) : Exec bool :=
  if negb (is_memory_access_valid start size)
  then let* _ := modify_cpu (with_running false) in ret false
  else ret true.

(** ** Interpreter ([cpu_exec.c]) *)

(** [increase_pc]: [cpu->pc += skip] in [uint32_t]. *)
Definition increase_pc (skip : Z) : Exec unit :=
  modify_cpu (fun cpu => with_pc (wrap32 (pc cpu + skip)) cpu).

(** [get_value_in_ram]: the word at [cpu->pc + skip], or 0 when that index
    (computed in [uint32_t]) is not below [RAM_SIZE]. *)
Definition get_value_in_ram (skip : Z) : Exec Z :=
  let* cpu := get_cpu in
  let* ram := get_ram in
  let idx := wrap32 (pc cpu + skip) in
  if RAM_SIZE <=? idx then ret 0
  else ret (cell ram idx).

(** [handle_loadi_execution] *)
Definition handle_loadi_execution : Exec bool :=
  let* register_index := get_value_in_ram 1 in
  let* value := get_value_in_ram 2 in
  check is_reg_index_valid_runtime register_index in
  let* _ := modify_cpu (with_register register_index value) in
  let* _ := modify_cpu (with_zero_flag (value =? 0)) in
  let* _ := increase_pc 3 in
  ret true.

(** [handle_loada_execution] *)
Definition handle_loada_execution : Exec bool :=
  let* address_index := get_value_in_ram 1 in
  let* address_literal := get_value_in_ram 2 in
  check is_addr_index_valid_runtime address_index in
  check is_addr_literal_valid_runtime address_literal in
  let* _ := modify_cpu (with_address_register address_index address_literal) in
  let* _ := increase_pc 3 in
  ret true.

(** The address resolution shared by [handle_loadm_execution] and
    [handle_storem_execution]: [None] stands for their [return false]. *)
Definition resolve_target_address (mode operand : Z) : Exec (option Z) :=
  if mode =? ADDR_LITERAL then
    let* ok := is_addr_literal_valid_runtime operand in
    if ok then ret (Some operand) else ret None
  else
    let* ok := is_addr_index_valid_runtime operand in
    if ok then (let* cpu := get_cpu in ret (Some (areg cpu operand))) else ret None.

(** [handle_loadm_execution] *)
Definition handle_loadm_execution : Exec bool :=
  let* register_index := get_value_in_ram 1 in
  let* mode := get_value_in_ram 2 in
  let* operand := get_value_in_ram 3 in
  check is_reg_index_valid_runtime register_index in
  let* target := resolve_target_address mode operand in
  match target with
  | None => ret false
  | Some target_address =>
      check is_memory_access_valid_runtime target_address 1 in
      let* ram := get_ram in
      let val := cell ram target_address in
      let* _ := modify_cpu (with_register register_index val) in
      let* _ := modify_cpu (with_zero_flag (val =? 0)) in
      let* _ := increase_pc 4 in
      ret true
  end.

(** [handle_storem_execution] *)
Definition handle_storem_execution : Exec bool :=
  let* address := get_value_in_ram 1 in
  let* mode := get_value_in_ram 2 in
  let* register_index := get_value_in_ram 3 in
  check is_reg_index_valid_runtime register_index in
  let* target := resolve_target_address mode address in
  match target with
  | None => ret false
  | Some target_address =>
      check is_memory_access_valid_runtime target_address 1 in
      let* cpu := get_cpu in
      let* _ := modify_ram (fun ram => set_cell ram target_address (reg cpu register_index)) in
      let* _ := increase_pc 4 in
      ret true
  end.

(** The prologue repeated verbatim in the seven arithmetic and bitwise
    handlers: fetch the three operand words, validate the destination, resolve
    the source by its mode tag.  [None] stands for their [return false]; the
    invalid-mode branch only logs before it returns. *)
Definition resolve_arith_operands : Exec (option (Z * Z)) :=
  let* dst_index := get_value_in_ram 1 in
  let* mode := get_value_in_ram 2 in
  let* operand := get_value_in_ram 3 in
  let* ok := is_reg_index_valid_runtime dst_index in
  if negb ok then ret None
  else if mode =? OPERAND_REGISTER then
    let* ok2 := is_reg_index_valid_runtime operand in
    if negb ok2 then ret None
    else (let* cpu := get_cpu in ret (Some (dst_index, reg cpu operand)))
  else if mode =? OPERAND_NUMERIC then ret (Some (dst_index, operand))
  else ret None.

(** The epilogue shared by the handlers other than [DIV]: combine, write
    back, set the zero flag, advance by 4. *)
Definition arith_execution (op : Z -> Z -> Z) : Exec bool :=
  let* r := resolve_arith_operands in
  match r with
  | None => ret false
  | Some (dst_index, src_value) =>
      let* cpu := get_cpu in
      let res := op (reg cpu dst_index) src_value in
      let* _ := modify_cpu (with_register dst_index res) in
      let* _ := modify_cpu (with_zero_flag (res =? 0)) in
      let* _ := increase_pc 4 in
      ret true
  end.

(** [handle_add_execution]: [res = a + src_value] in [uint32_t]. *)
Definition handle_add_execution : Exec bool :=
  arith_execution (fun a src_value => wrap32 (a + src_value)).

(** [handle_sub_execution]: [res = a - src_value] in [uint32_t]. *)
Definition handle_sub_execution : Exec bool :=
  arith_execution (fun a src_value => wrap32 (a - src_value)).

(** [handle_mlp_execution]: the low 32 bits of the 64-bit product. *)
Definition handle_mlp_execution : Exec bool :=
  arith_execution (fun a src_value => wrap32 (Z.land (a * src_value) 0xFFFFFFFF)).

(** [handle_div_execution] *)
Definition handle_div_execution : Exec bool :=
  let* r := resolve_arith_operands in
  match r with
  | None => ret false
  | Some (dst_index, divisor) =>
      if divisor =? 0 then
        let* _ := modify_cpu (with_running false) in
        ret false
      else
        let* cpu := get_cpu in
        let dividend := reg cpu dst_index in
        let quotient := dividend / divisor in
        let* _ := modify_cpu (with_register dst_index quotient) in
        let* _ := modify_cpu (with_zero_flag (quotient =? 0)) in
        let* _ := increase_pc 4 in
        ret true
  end.

(** [handle_and_execution] *)
Definition handle_and_execution : Exec bool := arith_execution Z.land.

(** [handle_or_execution] *)
Definition handle_or_execution : Exec bool := arith_execution Z.lor.

(** [handle_xor_execution] *)
Definition handle_xor_execution : Exec bool := arith_execution Z.lxor.

(** [handle_jmp_execution] *)
Definition handle_jmp_execution : Exec bool :=
  let* target := get_value_in_ram 1 in
  check is_addr_literal_valid_runtime target in
  let* _ := modify_cpu (with_pc target) in
  ret true.

(** [handle_jz_execution] *)
Definition handle_jz_execution : Exec bool :=
  let* target := get_value_in_ram 1 in
  check is_addr_literal_valid_runtime target in
  let* cpu := get_cpu in
  let* _ := (if zero_flag cpu then modify_cpu (with_pc target) else increase_pc 2) in
  ret true.

(** [handle_jnz_execution] *)
Definition handle_jnz_execution : Exec bool :=
  let* target := get_value_in_ram 1 in
  check is_addr_literal_valid_runtime target in
  let* cpu := get_cpu in
  let* _ := (if negb (zero_flag cpu) then modify_cpu (with_pc target) else increase_pc 2) in
  ret true.

(** [int32_t diff = a - b] on [a = (int32_t) x] and [b = (int32_t) y]: the
    subtraction of the sign-converted operands.  Where the exact difference
    leaves the [int32_t] range C gives the subtraction no meaning; the model
    takes the two's-complement wrap-around that the target computes. *)
Definition int32_sub (a b : Z) : Z := to_int32 (to_int32 a - to_int32 b).

(** [handle_cmp_execution] *)
Definition handle_cmp_execution : Exec bool :=
  let* a_index := get_value_in_ram 1 in
  let* b_index := get_value_in_ram 2 in
  check is_reg_index_valid_runtime a_index in
  check is_reg_index_valid_runtime b_index in
  let* cpu := get_cpu in
  let diff := int32_sub (reg cpu a_index) (reg cpu b_index) in
  let* _ := modify_cpu (with_zero_flag (diff =? 0)) in
  let* _ := modify_cpu (with_negative_flag (diff <? 0)) in
  let* _ := increase_pc 3 in
  ret true.

(** The [switch (instruction)] of [cpu_run].  The result [false] is the
    [return false] of [cpu_run]; [true] is the [break] back to the loop test. *)
Definition execute_instruction (instruction : Z) : Exec bool :=
  if instruction =? ISA_LOADI then handle_loadi_execution
  else if instruction =? ISA_LOADA then handle_loada_execution
  else if instruction =? ISA_LOADM then handle_loadm_execution
  else if instruction =? ISA_STOREM then handle_storem_execution
  else if instruction =? ISA_ADD then handle_add_execution
  else if instruction =? ISA_SUB then handle_sub_execution
  else if instruction =? ISA_MLP then handle_mlp_execution
  else if instruction =? ISA_DIV then handle_div_execution
  else if instruction =? ISA_AND then handle_and_execution
  else if instruction =? ISA_OR then handle_or_execution
  else if instruction =? ISA_XOR then handle_xor_execution
  else if instruction =? ISA_JMP then handle_jmp_execution
  else if instruction =? ISA_JZ then handle_jz_execution
  else if instruction =? ISA_JNZ then handle_jnz_execution
  else if instruction =? ISA_CMP then handle_cmp_execution
  else if instruction =? ISA_HALT then
    let* _ := modify_cpu (with_running false) in ret true
  else
    let* _ := modify_cpu (with_running false) in ret false.

(** One iteration of the [while] body: fetch the opcode, dispatch. *)
Definition cpu_step : Exec bool :=
  let* instruction := get_value_in_ram 0 in
  execute_instruction instruction.

(** The loop test [cpu->running && cpu->pc != assembly_range.end_address]. *)
Definition loop_test (end_addr : Z) (m : machine) : bool :=
  running (cpu_of m) && negb (pc (cpu_of m) =? end_addr).

(** The [while] loop of [cpu_run], bounded by [fuel] iterations: [None] when
    the loop is still going after [fuel] iterations. *)
Fixpoint cpu_run_loop (fuel : nat) (end_addr : Z) (m : machine) : option (bool * machine) :=
  if loop_test end_addr m then
    match fuel with
    | O => None
    | S fuel' =>
        let (ok, m') := cpu_step m in
        if ok then cpu_run_loop fuel' end_addr m' else Some (false, m')
    end
  else Some (true, m).

(** [cpu_run] *)
Definition cpu_run (fuel : nat) (assembly_range : AssemblyRange) (m : machine)
  : option (bool * machine) :=
  let m0 := mkMachine (with_running true (with_pc (start_address assembly_range) (cpu_of m)))
                      (ram_of m) in
  cpu_run_loop fuel (end_address assembly_range) m0.

(** ** The C library functions the parser relies on

    [strtol], [strtok], [strcmp] and [strchr] are not code of this
    repository; they are modelled after ISO C for the LP64 target the project
    is built for ([long] is 64 bits, [int] 32 bits, plain [char] signed).
    A C string is a [string] without NUL characters. *)

Module Libc.

Definition char_code (c : ascii) : Z := Z.of_N (N_of_ascii c).

(** The value of a plain (signed) [char] in integer arithmetic. *)
Definition char_val (c : ascii) : Z :=
  let n := char_code c in if n <? 128 then n else n - 256.

Definition TAB : ascii := ascii_of_nat 9.
Definition LF : ascii := ascii_of_nat 10.
Definition CR : ascii := ascii_of_nat 13.

Definition isspace (c : ascii) : bool :=
  let n := char_code c in (n =? 32) || ((9 <=? n) && (n <=? 13)).

(** [s[0]], which is the terminating NUL (here [None]) for the empty string. *)
Definition head_char (s : string) : option ascii :=
  match s with
  | EmptyString => None
  | String c _ => Some c
  end.

Definition starts_with_char (c : ascii) (s : string) : bool :=
  match head_char s with
  | Some c' => Ascii.eqb c c'
  | None => false
  end.

(** [s + 1] for a non-empty string. *)
Definition tail (s : string) : string :=
  match s with
  | EmptyString => EmptyString
  | String _ r => r
  end.

(** [strncmp(s, p, strlen(p)) == 0] *)
Definition has_prefix (p s : string) : bool := String.prefix p s.

(** [strcmp(a, b) == 0] *)
Definition strcmp_eq (a b : string) : bool := String.eqb a b.

(** [strchr(s, c)]: the suffix that starts at the first [c], if any. *)
Fixpoint strchr (s : string) (c : ascii) : option string :=
  match s with
  | EmptyString => None
  | String c' r => if Ascii.eqb c c' then Some s else strchr r c
  end.

Definition LONG_MAX : Z := 2 ^ 63 - 1.
Definition LONG_MIN : Z := - 2 ^ 63.

Definition digit_of (c : ascii) : option Z :=
  let n := char_code c in
  if (48 <=? n) && (n <=? 57) then Some (n - 48)
  else if (97 <=? n) && (n <=? 122) then Some (n - 97 + 10)
  else if (65 <=? n) && (n <=? 90) then Some (n - 65 + 10)
  else None.

Definition is_digit_in (base : Z) (c : ascii) : bool :=
  match digit_of c with
  | Some d => d <? base
  | None => false
  end.

Fixpoint skip_spaces (s : string) : string :=
  match s with
  | EmptyString => s
  | String c r => if isspace c then skip_spaces r else s
  end.

(** The longest run of digits of [base] at the start of [s]: its value, the
    rest of the string, and whether the run is non-empty. *)
Fixpoint read_digits (base : Z) (s : string) (acc : Z) (any : bool) : Z * string * bool :=
  match s with
  | EmptyString => (acc, s, any)
  | String c r =>
      match digit_of c with
      | Some d => if d <? base then read_digits base r (acc * base + d) true else (acc, s, any)
      | None => (acc, s, any)
      end
  end.

(** What [strtol(nptr, &endptr, base)] reports. *)
Record strtol_result : Type := mkStrtol {
  st_value : Z;        (* the returned [long] *)
  st_end : string;     (* the string [endptr] points to *)
  st_converted : bool; (* [endptr != nptr] *)
  st_erange : bool     (* [errno == ERANGE] after the call *)
}.

(** A prefix [0x]/[0X] (or [0b]/[0B], accepted since C23) counts only when a
    digit of the base follows it. *)
Definition strip_radix_prefix (lower upper : ascii) (base : Z) (s : string) : option string :=
  match s with
  | String z (String x r) =>
      if Ascii.eqb z "0" && (Ascii.eqb x lower || Ascii.eqb x upper)
         && match head_char r with Some d => is_digit_in base d | None => false end
      then Some r else None
  | _ => None
  end.

Definition strtol (nptr : string) (base : Z) : strtol_result :=
  let s1 := skip_spaces nptr in
  let '(negative, s2) :=
    match s1 with
    | String c r =>
        if Ascii.eqb c "-" then (true, r)
        else if Ascii.eqb c "+" then (false, r)
        else (false, s1)
    | EmptyString => (false, s1)
    end in
  let '(b, s3) :=
    if (base =? 0) || (base =? 16) then
      match strip_radix_prefix "x" "X" 16 s2 with
      | Some r => (16, r)
      | None =>
          if base =? 16 then (16, s2)
          else match strip_radix_prefix "b" "B" 2 s2 with
               | Some r => (2, r)
               | None => if starts_with_char "0" s2 then (8, s2) else (10, s2)
               end
      end
    else if base =? 2 then
      match strip_radix_prefix "b" "B" 2 s2 with
      | Some r => (2, r)
      | None => (2, s2)
      end
    else (base, s2) in
  let '(magnitude, rest, any) := read_digits b s3 0 false in
  if negb any then mkStrtol 0 nptr false false
  else
    let v := if negative then - magnitude else magnitude in
    if LONG_MAX <? v then mkStrtol LONG_MAX rest true true
    else if v <? LONG_MIN then mkStrtol LONG_MIN rest true true
    else mkStrtol v rest true false.

(** The tokens that successive [strtok(s, delims)], [strtok(NULL, delims)],
    ... calls return: the maximal runs of non-delimiter characters. *)
Fixpoint strtok_all (is_delim : ascii -> bool) (s : string) : list string :=
  match s with
  | EmptyString => []
  | String c r =>
      let ts := strtok_all is_delim r in
      if is_delim c then ts
      else
        match r with
        | EmptyString => [String c EmptyString]
        | String c' _ =>
            if is_delim c' then String c EmptyString :: ts
            else match ts with
                 | t :: ts' => String c t :: ts'
                 | [] => [String c EmptyString]
                 end
        end
  end.

(** [fgets(buf, room + 1, file)] on the unread file content [s]: the line
    read (at most [room] characters, ending after a newline if one is met)
    and the content left unread. *)
Fixpoint fgets (room : nat) (s : string) : string * string :=
  match room, s with
  | O, _ => (EmptyString, s)
  | _, EmptyString => (EmptyString, s)
  | S room', String c r =>
      if Ascii.eqb c LF then (String c EmptyString, r)
      else let (l, rest) := fgets room' r in (String c l, rest)
  end.

End Libc.
Import Libc.

(** ** Parser ([parser.c]) *)

Definition FAILURE : Z := -1.

Definition is_blank (c : ascii) : bool := Ascii.eqb c " " || Ascii.eqb c TAB.

Definition is_line_space (c : ascii) : bool :=
  Ascii.eqb c " " || Ascii.eqb c TAB || Ascii.eqb c LF || Ascii.eqb c CR.

(** [remove_leading_whitespaces] *)
Fixpoint remove_leading_whitespaces (line : string) : string :=
  match line with
  | EmptyString => line
  | String c r => if is_blank c then remove_leading_whitespaces r else line
  end.

(** [remove_trailing_whitespaces] *)
Fixpoint remove_trailing_whitespaces (line : string) : string :=
  match line with
  | EmptyString => EmptyString
  | String c r =>
      let r' := remove_trailing_whitespaces r in
      match r' with
      | EmptyString => if is_line_space c then EmptyString else String c EmptyString
      | _ => String c r'
      end
  end.

(** [strip_comments] *)
Fixpoint strip_comments (line : string) : string :=
  match line with
  | EmptyString => EmptyString
  | String c r => if Ascii.eqb c ";" then EmptyString else String c (strip_comments r)
  end.

(** [is_empty_line] *)
Fixpoint is_empty_line (line : string) : bool :=
  match line with
  | EmptyString => true
  | String c r => if is_line_space c then is_empty_line r else false
  end.

(** [opcode_table] of [isa.h] *)
Definition opcode_table : list (string * Z) :=
  [ ("LOADI"%string, ISA_LOADI); ("LOADA"%string, ISA_LOADA); ("LOADM"%string, ISA_LOADM);
    ("STOREM"%string, ISA_STOREM); ("ADD"%string, ISA_ADD); ("SUB"%string, ISA_SUB);
    ("MLP"%string, ISA_MLP); ("DIV"%string, ISA_DIV); ("AND"%string, ISA_AND);
    ("OR"%string, ISA_OR); ("XOR"%string, ISA_XOR); ("JMP"%string, ISA_JMP);
    ("JZ"%string, ISA_JZ); ("JNZ"%string, ISA_JNZ); ("CMP"%string, ISA_CMP);
    ("HALT"%string, ISA_HALT) ].

(** [get_opcode], over the first [opcode_table_size] entries of [table]. *)
Fixpoint get_opcode_in (table : list (string * Z)) (mnemonic : string) : Z :=
  match table with
  | [] => FAILURE
  | (mn, opcode) :: rest =>
      if strcmp_eq mnemonic mn then opcode else get_opcode_in rest mnemonic
  end.

Definition get_opcode (mnemonic : string) (opcode_table_size : nat) : Z :=
  get_opcode_in (take opcode_table_size opcode_table) mnemonic.

(** [parse_register]; a NULL token is [None]. *)
Definition parse_register (reg : option string) : Z :=
  match reg with
  | None => FAILURE
  | Some reg =>
      if negb (starts_with_char "R" reg) then FAILURE
      else
        let r := strtol (tail reg) 10 in
        match st_end r with
        | String _ _ => FAILURE
        | EmptyString =>
            let index := st_value r in
            if (index <? 0) || (MAX_REGISTERS <=? index) then FAILURE else index
        end
  end.

(** [parse_directive]: the [long] is converted to [int]. *)
Definition parse_directive (line : string) : Z :=
  if has_prefix ".org" line then
    let p := remove_leading_whitespaces (String.substring 4 (String.length line) line) in
    to_int32 (st_value (strtol p 0))
  else FAILURE.

(** [s[i]] as a [char] value, the terminating NUL included. *)
Definition char_at (s : string) (i : nat) : Z :=
  match String.get i s with
  | Some c => char_val c
  | None => 0
  end.

Definition char_is (s : string) (i : nat) (c : ascii) : bool :=
  match String.get i s with
  | Some c' => Ascii.eqb c c'
  | None => false
  end.

(** [parse_address_parenthesis]: [literal_addr] is the content of
    [*literal_addr] before the call, the second component of the result its
    content after the call. *)
Definition parse_address_parenthesis (addr : option string) (literal_addr : bool) : Z * bool :=
  match addr with
  | None => (FAILURE, literal_addr)
  | Some addr =>
      let hit_literal := char_is addr 0 "(" && char_is addr 1 "0" && char_is addr 2 "x" in
      let hit_register := char_is addr 0 "(" && char_is addr 1 "A" in
      let literal1 := if hit_literal then true else literal_addr in
      let literal2 := if hit_register then false else literal1 in
      if negb (hit_literal || hit_register) then (FAILURE, literal2)
      else if literal2 then
        let r := strtol (tail addr) 0 in
        if negb (starts_with_char ")" (st_end r)) then (FAILURE, literal2)
        else
          let addr_val := st_value r in
          if (addr_val <? 0) || (0xFFFF <? addr_val) then (FAILURE, literal2)
          else (addr_val, literal2)
      else
        let index := char_at addr 2 - char_val "0" in
        if MAX_ADDRESS_REGISTERS <=? index then (FAILURE, literal2)
        else (index, literal2)
  end.

(** [parse_address] *)
Definition parse_address (addr : option string) (literal_addr : bool) : Z :=
  match addr with
  | None => FAILURE
  | Some addr =>
      if literal_addr then
        if negb (char_is addr 0 "0") || negb (char_is addr 1 "x") then FAILURE
        else
          let addr_val := st_value (strtol addr 0) in
          if (addr_val <? 0) || (0xFFFF <? addr_val) then FAILURE
          else addr_val
      else
        if negb (char_is addr 0 "A") then FAILURE
        else
          let index := char_at addr 1 - char_val "0" in
          if MAX_ADDRESS_REGISTERS <=? index then FAILURE
          else index
  end.

(** [Label] of [isa.h]: [name] holds at most 63 characters. *)
Record Label : Type := mkLabel { name : string; address : Z }.

(** [is_label] *)
Definition is_label (line : string) : bool :=
  match String.length line with
  | O => false
  | S n => char_is line n ":"
  end.

(** [add_label]: [None] is the [FAILURE] return; otherwise the table with
    the new entry at index [*label_count]. *)
Definition add_label (label_name : string) (addr : Z) (labels : list Label)
  : option (list Label) :=
  if MAX_LABELS <=? Z.of_nat (length labels) then None
  else Some (labels ++ [mkLabel (String.substring 0 63 label_name) addr]).

(** [find_label_addr]: the address is returned as an [int]. *)
Fixpoint find_label_addr (label_name : string) (labels : list Label) : Z :=
  match labels with
  | [] => FAILURE
  | l :: rest =>
      if strcmp_eq (name l) label_name then to_int32 (address l)
      else find_label_addr label_name rest
  end.

(** ** Assembler ([assembler.c]) *)

(** Pass 2 writes through [emit], which does not check the program counter
    against [RAM_SIZE]: a write past the array is undefined behaviour in C,
    and a computation that reaches one has no result here ([None]).  The
    source has no such test: where a statement below assumes that an
    assembler computation has a result, it assumes that every word it emits
    lies inside the memory. *)
Definition Asm (A : Type) : Type := machine -> option (A * machine).

Definition aret {A : Type} (a : A) : Asm A := fun m => Some (a, m).

Definition abind {A B : Type} (c : Asm A) (k : A -> Asm B) : Asm B :=
  fun m =>
    match c m with
    | Some (a, m') => k a m'
    | None => None
    end.

Notation "'let+' x := c 'in' k" := (abind c (fun x => k))
  (at level 10, x name, c at level 100, k at level 200).

(** [initialize_assembly] *)
Definition initialize_assembly : AssemblyRange := mkRange 0 0 false.

(** [assemble_error] *)
Definition assemble_error : AssemblyRange := mkRange 0 0 true.

(** [emit]: [ram->cells[cpu->pc++] = value]. *)
Definition emit (value : Z) : Asm unit :=
  fun m =>
    let p := pc (cpu_of m) in
    if (0 <=? p) && (p <? RAM_SIZE)
    then Some (tt, mkMachine (with_pc (wrap32 (p + 1)) (cpu_of m)) (set_cell (ram_of m) p value))
    else None.

(** Consecutive [emit] calls, one per value. *)
Fixpoint emit_all (values : list Z) : Asm unit :=
  match values with
  | [] => aret tt
  | v :: rest => let+ _ := emit v in emit_all rest
  end.

(** [require_two_operands] *)
Definition require_two_operands (op1 op2 : option string) : bool :=
  match op1, op2 with
  | Some _, Some _ => true
  | _, _ => false
  end.

(** [require_one_operand] *)
Definition require_one_operand (op1 : option string) : bool :=
  match op1 with
  | Some _ => true
  | None => false
  end.

(** [require_all_not_failure] over its variadic [int] arguments. *)
Definition require_all_not_failure (values : list Z) : bool :=
  forallb (fun value => negb (value =? FAILURE)) values.

(** Skip one optional leading [#]. *)
Definition skip_hash (p : string) : string :=
  if starts_with_char "#" p then tail p else p.

(** [handle_arithmetic_instruction] *)
Definition handle_arithmetic_instruction (opcode : Z) (op1 op2 : option string) : Asm bool :=
  if negb (require_two_operands op1 op2) then aret false
  else
    let dst := parse_register op1 in
    if negb (require_all_not_failure [dst]) then aret false
    else if negb (is_reg_index_valid_asm dst) then aret false
    else
      let src_reg := parse_register op2 in
      if negb (src_reg =? FAILURE) then
        let+ _ := emit_all [opcode; wrap32 dst; OPERAND_REGISTER; wrap32 src_reg] in
        aret true
      else
        match op2 with
        | None => aret false
        | Some op2 =>
            let p := skip_hash op2 in
            let r := strtol p 0 in
            if negb (st_converted r) || negb (String.eqb (st_end r) EmptyString) then aret false
            else if st_erange r then aret false
            else
              let+ _ := emit_all [opcode; wrap32 dst; OPERAND_NUMERIC; wrap32 (st_value r)] in
              aret true
        end.

(** [handle_loadi_instruction] *)
Definition handle_loadi_instruction (op1 op2 : option string) : Asm bool :=
  match op1, op2 with
  | Some _, Some op2 =>
      let register_index := parse_register op1 in
      if negb (require_all_not_failure [register_index]) then aret false
      else
        let imm := wrap32 (st_value (strtol (skip_hash op2) 0)) in
        let+ _ := emit_all [ISA_LOADI; wrap32 register_index; imm] in
        aret true
  | _, _ => aret false
  end.

(** [handle_loada_instruction] *)
Definition handle_loada_instruction (op1 op2 : option string) : Asm bool :=
  if negb (require_two_operands op1 op2) then aret false
  else
    let addr_reg := parse_address op1 false in
    let addr_lit := parse_address op2 true in
    if negb (require_all_not_failure [addr_reg; addr_lit]) then aret false
    else if negb (is_addr_index_valid_asm addr_reg) then aret false
    else if negb (is_addr_literal_valid (wrap32 addr_lit)) then aret false
    else
      let+ _ := emit_all [ISA_LOADA; wrap32 addr_reg; wrap32 addr_lit] in
      aret true.

(** The operand checks shared by [handle_loadm_instruction] and
    [handle_storem_instruction], after both operands are parsed. *)
Definition memory_operands_ok (register_index addr : Z) (is_literal : bool) : bool :=
  if negb (require_all_not_failure [register_index; addr]) then false
  else if negb (is_reg_index_valid_asm register_index) then false
  else if is_literal then is_addr_literal_valid (wrap32 addr)
  else is_addr_index_valid_asm addr.

(** [handle_loadm_instruction] *)
Definition handle_loadm_instruction (op1 op2 : option string) : Asm bool :=
  if negb (require_two_operands op1 op2) then aret false
  else
    let register_index := parse_register op1 in
    let '(addr, is_literal) := parse_address_parenthesis op2 false in
    if negb (memory_operands_ok register_index addr is_literal) then aret false
    else
      let+ _ := emit_all [ISA_LOADM; wrap32 register_index;
                          if is_literal then ADDR_LITERAL else ADDR_REGISTER;
                          wrap32 addr] in
      aret true.

(** [handle_storem_instruction] *)
Definition handle_storem_instruction (op1 op2 : option string) : Asm bool :=
  if negb (require_two_operands op1 op2) then aret false
  else
    let register_index := parse_register op2 in
    let '(addr, is_literal) := parse_address_parenthesis op1 false in
    if negb (memory_operands_ok register_index addr is_literal) then aret false
    else
      let+ _ := emit_all [ISA_STOREM; wrap32 addr;
                          if is_literal then ADDR_LITERAL else ADDR_REGISTER;
                          wrap32 register_index] in
      aret true.

(** [handle_cmp_instruction] *)
Definition handle_cmp_instruction (op1 op2 : option string) : Asm bool :=
  if negb (require_two_operands op1 op2) then aret false
  else
    let dst_index := parse_register op1 in
    let src_index := parse_register op2 in
    if negb (require_all_not_failure [dst_index; src_index]) then aret false
    else if negb (is_reg_index_valid_asm dst_index) then aret false
    else if negb (is_reg_index_valid_asm src_index) then aret false
    else
      let+ _ := emit_all [ISA_CMP; wrap32 dst_index; wrap32 src_index] in
      aret true.

(** [handle_jmp_instructions] *)
Definition handle_jmp_instructions (opcode : Z) (op1 : option string) (labels : list Label)
  : Asm bool :=
  match op1 with
  | None => aret false
  | Some op1s =>
      let addr :=
        if char_is op1s 0 "0" && (char_is op1s 1 "x" || char_is op1s 1 "X")
        then parse_address op1 true
        else find_label_addr op1s labels in
      if addr =? FAILURE then aret false
      else
        let+ _ := emit_all [wrap32 opcode; wrap32 addr] in
        aret true
  end.

(** The per-line cleanup at the top of both passes.  It is applied in place,
    so pass 2 cleans lines that pass 1 has already cleaned. *)
Definition clean_line (line : string) : string :=
  strip_comments (remove_trailing_whitespaces (remove_leading_whitespaces line)).

Definition is_token_delim (c : ascii) : bool :=
  Ascii.eqb c " " || Ascii.eqb c "," || Ascii.eqb c TAB.

(** [parse_directive] with the manual fallback that both passes apply when
    it fails on a text starting with a dot. *)
Definition directive_value (text : string) : Z :=
  let directive_val := parse_directive text in
  if (directive_val =? FAILURE) && starts_with_char "." text then
    match strtok_all is_blank text with
    | tok :: rest =>
        if strcmp_eq tok ".org" then
          match rest with
          | arg :: _ => to_int32 (st_value (strtol arg 0))
          | [] => directive_val
          end
        else directive_val
    | [] => directive_val
    end
  else directive_val.

(** The sizing [switch] of pass 1: the words added to [pc_cursor]. *)
Definition pass1_size (opcode : Z) : Z :=
  if opcode =? ISA_LOADI then 3
  else if opcode =? ISA_LOADA then 3
  else if opcode =? ISA_LOADM then 4
  else if opcode =? ISA_STOREM then 4
  else if (opcode =? ISA_ADD) || (opcode =? ISA_SUB) || (opcode =? ISA_MLP)
          || (opcode =? ISA_DIV) || (opcode =? ISA_AND) || (opcode =? ISA_OR)
          || (opcode =? ISA_XOR) then 4
  else if (opcode =? ISA_JMP) || (opcode =? ISA_JZ) || (opcode =? ISA_JNZ) then 2
  else if opcode =? ISA_HALT then 1
  else 1.

(** The locals of [assemble] that pass 1 updates. *)
Record pass1_state : Type := mkPass1 {
  pc_cursor : Z;
  start_set : bool;
  range_start : Z;
  labels_of : list Label
}.

(** Pass 1 on a mnemonic: resolve it and advance the cursor; [None] is the
    [return assemble_error(NULL)]. *)
Definition pass1_mnemonic (mn : string) (st : pass1_state) : option pass1_state :=
  let opcode := get_opcode mn (length opcode_table) in
  if opcode =? FAILURE then None
  else Some (mkPass1 (wrap32 (pc_cursor st + pass1_size opcode))
                     (start_set st) (range_start st) (labels_of st)).

(** The first token without its final character, cut to the 255
    characters that [label_name] can hold. *)
Definition label_of_token (first_tok : string) : string :=
  String.substring 0 (Nat.min (String.length first_tok - 1) 255) first_tok.

(** One iteration of the first [for] loop, on an already cleaned line. *)
Definition pass1_line (line : string) (st : pass1_state) : option pass1_state :=
  if is_empty_line line then Some st
  else
    let directive_val := directive_value line in
    if negb (directive_val =? FAILURE) then
      let cursor := wrap32 directive_val in
      Some (mkPass1 cursor true (if start_set st then range_start st else cursor) (labels_of st))
    else
      match strtok_all is_token_delim line with
      | [] => Some st
      | first_tok :: rest =>
          if is_label first_tok then
            match add_label (label_of_token first_tok) (pc_cursor st) (labels_of st) with
            | None => None
            | Some labels' =>
                let st' := mkPass1 (pc_cursor st) (start_set st) (range_start st) labels' in
                match rest with
                | [] => Some st'
                | mn :: _ => pass1_mnemonic mn st'
                end
            end
          else pass1_mnemonic first_tok st
      end.

Fixpoint pass1 (lines : list string) (st : pass1_state) : option pass1_state :=
  match lines with
  | [] => Some st
  | line :: rest =>
      match pass1_line (clean_line line) st with
      | None => None
      | Some st' => pass1 rest st'
      end
  end.

(** The emission [switch] of pass 2. *)
Definition pass2_emit (opcode : Z) (op1 op2 : option string) (labels : list Label) : Asm bool :=
  if opcode =? ISA_LOADI then handle_loadi_instruction op1 op2
  else if opcode =? ISA_LOADA then handle_loada_instruction op1 op2
  else if opcode =? ISA_LOADM then handle_loadm_instruction op1 op2
  else if opcode =? ISA_STOREM then handle_storem_instruction op1 op2
  else if (opcode =? ISA_ADD) || (opcode =? ISA_SUB) || (opcode =? ISA_MLP)
          || (opcode =? ISA_DIV) || (opcode =? ISA_AND) || (opcode =? ISA_OR)
          || (opcode =? ISA_XOR) then handle_arithmetic_instruction opcode op1 op2
  else if opcode =? ISA_CMP then handle_cmp_instruction op1 op2
  else if (opcode =? ISA_JMP) || (opcode =? ISA_JZ) || (opcode =? ISA_JNZ)
  then handle_jmp_instructions opcode op1 labels
  else if opcode =? ISA_HALT then (let+ _ := emit ISA_HALT in aret true)
  else aret false.

(** One iteration of the second [for] loop, on a line cleaned by both
    passes; [false] is the [return assemble_error(NULL)]. *)
Definition pass2_line (line : string) (labels : list Label) : Asm bool :=
  if is_empty_line line then aret true
  else
    let text :=
      match strchr line ":" with
      | Some colon => remove_leading_whitespaces (tail colon)
      | None => line
      end in
    if is_empty_line text then
      (* reached only after a colon: the line itself is not empty *)
      aret true
    else
      let directive_val := directive_value text in
      if negb (directive_val =? FAILURE) then
        fun m => Some (true, mkMachine (with_pc (wrap32 directive_val) (cpu_of m)) (ram_of m))
      else
        let toks := strtok_all is_token_delim text in
        match toks with
        | [] => aret true
        | mnemonic :: operands =>
            let opcode := get_opcode mnemonic (length opcode_table) in
            if opcode =? FAILURE then aret false
            else pass2_emit opcode (operands !! 0%nat) (operands !! 1%nat) labels
        end.

Fixpoint pass2 (lines : list string) (labels : list Label) : Asm bool :=
  match lines with
  | [] => aret true
  | line :: rest =>
      let+ ok := pass2_line (clean_line (clean_line line)) labels in
      if ok then pass2 rest labels else aret false
  end.

(** [while (fgets(buf, sizeof(buf), file))] with [char buf[1024]]. *)
Fixpoint read_lines (fuel : nat) (content : string) : list string :=
  match fuel with
  | O => []
  | S fuel' =>
      match content with
      | EmptyString => []
      | _ => let (line, rest) := fgets 1023 content in line :: read_lines fuel' rest
      end
  end.

(** [assemble], on the content of the file at [file_path] (the file is taken
    to open).  The result is the returned range and the state left behind. *)
Definition assemble (source : string) : Asm AssemblyRange :=
  fun m =>
    let lines := read_lines (String.length source) source in
    match lines with
    | [] => Some (assemble_error, m)
    | _ =>
        match pass1 lines (mkPass1 0 false (start_address initialize_assembly) []) with
        | None => Some (assemble_error, m)
        | Some st =>
            let start := if start_set st then range_start st else 0 in
            let m1 := mkMachine (with_pc start (cpu_of m)) (ram_of m) in
            match pass2 lines (labels_of st) m1 with
            | None => None
            | Some (false, m2) => Some (assemble_error, m2)
            | Some (true, m2) => Some (mkRange start (pc (cpu_of m2)) false, m2)
            end
        end
    end.

(** The driver of [main.c] after initialisation: assemble, then run unless
    assembly failed. *)
Definition assemble_and_run (fuel : nat) (source : string) (m : machine)
  : option (option bool * machine) :=
  match assemble source m with
  | None => None
  | Some (range, m1) =>
      if error range then Some (None, m1)
      else
        match cpu_run fuel range m1 with
        | None => None
        | Some (ok, m2) => Some (Some ok, m2)
        end
  end.

(** ** Notions used to state the properties *)

(** The word that [get_value_in_ram] fetches at offset [skip]. *)
Definition word_at (m : machine) (skip : Z) : Z := fst (get_value_in_ram skip m).

(** The state after [cpu->running = false]. *)
Definition stopped (m : machine) : machine :=
  mkMachine (with_running false (cpu_of m)) (ram_of m).

(** [reaches end_addr m m']: the loop of [cpu_run], started in [m], is at its
    test in [m'] after some number of iterations that all went through. *)
Inductive reaches (end_addr : Z) : machine -> machine -> Prop :=
| reaches_here : forall m, reaches end_addr m m
| reaches_next : forall m1 m2 m3,
    loop_test end_addr m1 = true ->
    cpu_step m1 = (true, m2) ->
    reaches end_addr m2 m3 ->
    reaches end_addr m1 m3.

(** The state in which [cpu_run] enters its loop. *)
Definition run_entry (assembly_range : AssemblyRange) (m : machine) : machine :=
  mkMachine (with_running true (with_pc (start_address assembly_range) (cpu_of m))) (ram_of m).

(** The opcodes of the seven arithmetic and bitwise instructions. *)
Definition is_arith_opcode (opcode : Z) : bool :=
  (opcode =? ISA_ADD) || (opcode =? ISA_SUB) || (opcode =? ISA_MLP) || (opcode =? ISA_DIV)
  || (opcode =? ISA_AND) || (opcode =? ISA_OR) || (opcode =? ISA_XOR).

(** The operand words of the instruction at the program counter that its
    handler decodes as general-register indices, by the layouts of [isa.h]:
    word 1 of load-immediate and load-from-memory, word 3 of store-to-memory,
    word 1 of an arithmetic or bitwise instruction and also its word 3 when
    the mode tag in word 2 is [OPERAND_REGISTER], words 1 and 2 of compare. *)
Definition register_operands (m : machine) : list Z :=
  let opcode := word_at m 0 in
  if (opcode =? ISA_LOADI) || (opcode =? ISA_LOADM) then [word_at m 1]
  else if opcode =? ISA_STOREM then [word_at m 3]
  else if is_arith_opcode opcode then
    if word_at m 2 =? OPERAND_REGISTER then [word_at m 1; word_at m 3] else [word_at m 1]
  else if opcode =? ISA_CMP then [word_at m 1; word_at m 2]
  else [].

(** ** Sample programs and states *)

(** What the driver hands to the assembler: [cpu_init] and [ram_init]. *)
Definition fresh_machine : machine := mkMachine cpu_init ram_init.

(** A source file with one line per list element. *)
Definition source_of (lines : list string) : string :=
  String.concat (String LF EmptyString) lines ++ String LF EmptyString.

(** The final processor state of an assemble-and-run, with the verdict of
    [cpu_run] ([None] when assembly failed). *)
Definition observe (r : option (option bool * machine)) : option (option bool * CPU) :=
  match r with
  | Some (verdict, m) => Some (verdict, cpu_of m)
  | None => None
  end.

(** Memory with the words [ws] at addresses [a], [a + 1], ... *)
Fixpoint store_words (ram : RAM) (a : Z) (ws : list Z) : RAM :=
  match ws with
  | [] => ram
  | w :: rest => store_words (set_cell ram a w) (a + 1) rest
  end.

Definition scenario_A : string :=
  source_of ["LOADI R0,5"; "LOADI R1,3"; "ADD R0,R1"; "HALT"]%string.

Definition scenario_B : string :=
  source_of ["LOADI R0,10"; "LOADI R1,0"; "DIV R0,R1"; "HALT"]%string.

Definition scenario_C : string :=
  source_of ["LOADI R0,0"; "LOADI R1,5"; "loop: ADD R0,#1"; "CMP R0,R1"; "JNZ loop";
             "HALT"]%string.

(** A program that overwrites the mode tag of its own [ADD] (at address 9)
    with 2 before it reaches it. *)
Definition program_bad_mode : string :=
  source_of ["LOADI R0, 2"; "STOREM (0x0009), R0"; "ADD R1, R2"; "HALT"]%string.

(** A program that runs into the end of its range, without a [HALT]. *)
Definition program_no_halt : string :=
  source_of ["LOADI R0, 5"]%string.

(** A forward jump over a compare. *)
Definition program_jump_over_cmp : string :=
  source_of ["LOADI R0, 1"; "CMP R0, R0"; "JMP end"; "LOADI R0, 7"; "end: HALT"]%string.

(** A compare of [INT32_MIN] with 1. *)
Definition program_compare_overflow : string :=
  source_of ["LOADI R0, 0x80000000"; "LOADI R1, 1"; "CMP R0, R1"; "HALT"]%string.

(** A single instruction at address 0 of fresh memory, about to be run. *)
Definition one_instruction (ws : list Z) : machine :=
  mkMachine (with_running true cpu_init) (store_words ram_init 0 ws).

(** The range of one four-word instruction at address 0. *)
Definition sample_range : AssemblyRange := mkRange 0 4 false.

(** [DIV R0, R1] with both registers 0. *)
Definition sample_divide : machine := one_instruction [ISA_DIV; 0; OPERAND_REGISTER; 1].

(** [ADD R1, R9]: the source operand names a register that does not exist. *)
Definition sample_bad_register : machine := one_instruction [ISA_ADD; 1; OPERAND_REGISTER; 9].

(** The fixed word counts per opcode in the words of the specification:
    load-immediate 3, load-address 3, load-from-memory 4, store-to-memory 4,
    each binary arithmetic or bitwise operation 4, each jump 2, compare 3,
    halt 1. *)
Definition spec_word_count (opcode : Z) : Z :=
  if opcode =? ISA_LOADI then 3
  else if opcode =? ISA_LOADA then 3
  else if opcode =? ISA_LOADM then 4
  else if opcode =? ISA_STOREM then 4
  else if is_arith_opcode opcode then 4
  else if (opcode =? ISA_JMP) || (opcode =? ISA_JZ) || (opcode =? ISA_JNZ) then 2
  else if opcode =? ISA_CMP then 3
  else if opcode =? ISA_HALT then 1
  else 0.

(** The sixteen opcodes of [opcode_table]. *)
Definition is_opcode (opcode : Z) : bool :=
  existsb (fun entry => snd entry =? opcode) opcode_table.

(** The instruction at the program counter is a control transfer that is
    taken: an unconditional jump, or a conditional one whose condition holds. *)
Definition jump_taken (m : machine) : bool :=
  (word_at m 0 =? ISA_JMP)
  || ((word_at m 0 =? ISA_JZ) && zero_flag (cpu_of m))
  || ((word_at m 0 =? ISA_JNZ) && negb (zero_flag (cpu_of m))).

(** Pass 2 emits [n] words for an instruction of [opcode]: whenever the
    emission goes through, the write cursor is [n] cells further. *)
Definition pass2_emits (opcode n : Z) : Prop :=
  forall (op1 op2 : option string) (labels : list Label) (m m' : machine),
    pass2_emit opcode op1 op2 labels m = Some (true, m') ->
    pc (cpu_of m') = pc (cpu_of m) + n.

(** The interpreter advances by [n] over an instruction of [opcode]: whenever
    a step on that opcode succeeds and is not a taken control transfer, the
    program counter is [n] cells further. *)
Definition interpreter_advances (opcode n : Z) : Prop :=
  forall (m m' : machine),
    is_uint32 (pc (cpu_of m)) ->
    word_at m 0 = opcode ->
    cpu_step m = (true, m') ->
    jump_taken m = false ->
    pc (cpu_of m') = pc (cpu_of m) + n.

(** The word-count contract as the specification states it, for all three
    parties and every opcode. *)
Definition word_count_contract : Prop :=
  forall opcode : Z,
    is_opcode opcode = true ->
    pass1_size opcode = spec_word_count opcode /\
    pass2_emits opcode (spec_word_count opcode) /\
    interpreter_advances opcode (spec_word_count opcode).

(** [HALT] at address 0, about to be run. *)
Definition sample_halt : machine := one_instruction [ISA_HALT].

(** [JZ 7] and [JNZ 7] with the zero flag clear. *)
Definition sample_jz : machine := one_instruction [ISA_JZ; 7].
Definition sample_jnz : machine := one_instruction [ISA_JNZ; 7].

(** [CMP R0, R1] with [R0 = 3] and [R1 = 5]. *)
Definition sample_cmp : machine :=
  mkMachine (with_register 1 5 (with_register 0 3 (with_running true cpu_init)))
            (store_words ram_init 0 [ISA_CMP; 0; 1]).

(** [LOADI R3, ...] in the last two cells of the memory, so that its
    immediate word lies past the end; [R3] holds 9. *)
Definition sample_edge : machine :=
  mkMachine (with_pc 65534 (with_register 3 9 (with_running true cpu_init)))
            (store_words ram_init 65534 [ISA_LOADI; 3]).

(** A step, with the memory left out of the result. *)
Definition step_outcome (m : machine) : bool * CPU :=
  let (ok, m') := cpu_step m in (ok, cpu_of m').

(** Whether a computation produced a result. *)
Definition has_result {A : Type} (o : option A) : bool :=
  match o with
  | Some _ => true
  | None => false
  end.

(** The memory-range rule in the words of the specification: [start] is
    below 65536, the computation [start + size - 1] stays within 32 bits, and
    its result is below 65536. *)
Definition memory_range_valid_spec (start size : Z) : Prop :=
  start < 65536 /\ is_uint32 (start + size - 1) /\ wrap32 (start + size - 1) < 65536.

(** ** Notions used to state the further properties *)

(** What each arithmetic or bitwise instruction computes from the
    destination value [a] and the source value [b], in plain arithmetic. *)
Definition arith_result (opcode a b : Z) : Z :=
  if opcode =? ISA_ADD then (a + b) mod 2 ^ 32
  else if opcode =? ISA_SUB then (a - b) mod 2 ^ 32
  else if opcode =? ISA_MLP then (a * b) mod 2 ^ 32
  else if opcode =? ISA_DIV then a / b
  else if opcode =? ISA_AND then Z.land a b
  else if opcode =? ISA_OR then Z.lor a b
  else Z.lxor a b.

(** Every address register holds an address inside the memory. *)
Definition aregs_in_bounds (m : machine) : Prop :=
  Forall (fun a => 0 <= a < RAM_SIZE) (address_registers (cpu_of m)).

(** The state after a step that wrote [v] to register [r] and advanced by
    [n]: register, then zero flag, then program counter, as the handlers do. *)
Definition loaded (r v n : Z) (m : machine) : machine :=
  mkMachine (with_pc (pc (cpu_of m) + n)
               (with_zero_flag (v =? 0) (with_register r v (cpu_of m))))
            (ram_of m).

(** [STOREM (0x0020), R1] followed by [LOADM R2, (0x0020)], with [R1 = 41]. *)
Definition sample_store_load : machine :=
  mkMachine (with_register 1 41 (with_running true cpu_init))
            (store_words ram_init 0
               [ISA_STOREM; 0x20; ADDR_LITERAL; 1; ISA_LOADM; 2; ADDR_LITERAL; 0x20]).

(** The token [R<i>] for a one-digit index. *)
Definition register_token (i : Z) : string :=
  String "R" (String (ascii_of_N (Z.to_N (48 + i))) EmptyString).

(** Whether [labels] has an entry named [q]. *)
Definition bound (q : string) (labels : list Label) : bool :=
  existsb (fun l => strcmp_eq (name l) q) labels.

(** Whether the first character of [s] is a space or a tab. *)
Definition starts_blank (s : string) : bool :=
  match head_char s with
  | Some c => is_blank c
  | None => false
  end.

(** The state after an emission that began in [m] and ended in [m'], with
    the program counter back where the emission began: what the interpreter
    sees when it arrives at the emitted words. *)
Definition rewound (m m' : machine) : machine :=
  mkMachine (with_pc (pc (cpu_of m)) (cpu_of m')) (ram_of m').

(** The state after the words [ws] are written at the program counter. *)
Definition emitted (ws : list Z) (m : machine) : machine :=
  mkMachine (with_pc (pc (cpu_of m) + Z.of_nat (length ws)) (cpu_of m))
            (store_words (ram_of m) (pc (cpu_of m)) ws).

(** A mode tag and an address operand that the run-time checks of
    load-from-memory and store-to-memory accept. *)
Definition memory_operand_valid (mode operand : Z) : Prop :=
  (mode = ADDR_LITERAL /\ operand < RAM_SIZE) \/
  (mode = ADDR_REGISTER /\ operand < MAX_ADDRESS_REGISTERS).

(** Two processor states that differ at most in the program counter. *)
Definition same_but_pc (c c' : CPU) : Prop :=
  address_registers c' = address_registers c /\ registers c' = registers c /\
  zero_flag c' = zero_flag c /\ negative_flag c' = negative_flag c /\
  running c' = running c.

(** What pass 1 may do to its locals: append labels within the capacity of
    the table, keep a start address once it is set, keep the cursor and the
    start address within 32 bits. *)
Definition pass1_extends (st st' : pass1_state) : Prop :=
  (exists added, labels_of st' = labels_of st ++ added) /\
  (Z.of_nat (length (labels_of st)) <= MAX_LABELS ->
   Z.of_nat (length (labels_of st')) <= MAX_LABELS) /\
  (start_set st = true -> start_set st' = true /\ range_start st' = range_start st) /\
  (is_uint32 (pc_cursor st) -> is_uint32 (pc_cursor st')) /\
  ((start_set st = true -> is_uint32 (range_start st)) ->
   start_set st' = true -> is_uint32 (range_start st')).

(** The verdict and the final state of an assembler computation. *)
Definition verdict_of (r : option (bool * machine)) : bool :=
  match r with
  | Some (b, _) => b
  | None => false
  end.

Definition state_after {A : Type} (d : machine) (r : option (A * machine)) : machine :=
  match r with
  | Some (_, m) => m
  | None => d
  end.

(** What an emission handler for [opcode] leaves behind, whatever its
    verdict [b]: nothing when it rejects the instruction, some 32-bit words
    at the program counter when it accepts it. *)
Definition all_or_nothing (opcode : Z) (m : machine) (b : bool) (m' : machine) : Prop :=
  if b
  then exists ws : list Z,
         ws <> [] /\ (is_uint32 opcode -> Forall is_uint32 ws) /\
         emit_all ws m = Some (tt, m')
  else m' = m.

(** [LOADA A1, 0x1234] at address 0 of fresh memory, and its range. *)
Definition sample_loada : machine := one_instruction [ISA_LOADA; 1; 0x1234].
Definition sample_loada_range : AssemblyRange := mkRange 0 3 false.

(** What the handler [h] of an instruction does, as a function of the state
    it is called in: it rejects the instruction and leaves the state alone,
    or it emits one and the same non-empty sequence of at most four words,
    32-bit values when the opcode is one, and accepts.  Which of the two
    depends on the operands only. *)
Definition emits_or_rejects (opcode : Z) (h : Asm bool) : Prop :=
  (forall m : machine, h m = Some (false, m)) \/
  exists ws : list Z,
    ws <> [] /\ (length ws <= 4)%nat /\ (is_uint32 opcode -> Forall is_uint32 ws) /\
    forall m : machine, h m = (let+ _ := emit_all ws in aret true) m.

(** A jump to a label that is bound beyond the memory. *)
Definition program_far_jump : string :=
  source_of [".org 0"; "JMP far"; "HALT"; ".org 70000"; "far:"]%string.

(** * Properties *)

(** ** Machine words *)

Lemma wrap32_range z : is_uint32 (wrap32 z).
Proof. unfold is_uint32, wrap32, UINT32_MODULUS. apply Z.mod_pos_bound. lia. Qed.

Lemma wrap32_small z : is_uint32 z -> wrap32 z = z.
Proof. unfold is_uint32, wrap32. intros H. apply Z.mod_small. exact H. Qed.

Lemma to_int32_range z : - 2 ^ 31 <= to_int32 z < 2 ^ 31.
Proof.
  unfold to_int32. pose proof (wrap32_range z) as H.
  unfold is_uint32, UINT32_MODULUS in *.
  destruct (wrap32 z <? 2 ^ 31) eqn:E; [apply Z.ltb_lt in E | apply Z.ltb_ge in E]; lia.
Qed.

Lemma to_int32_small z : - 2 ^ 31 <= z < 2 ^ 31 -> to_int32 z = z.
Proof.
  intros H. unfold to_int32, wrap32, UINT32_MODULUS.
  destruct (Z_lt_le_dec z 0) as [Hneg | Hpos].
  - replace (z mod 2 ^ 32) with (z + 2 ^ 32).
    + destruct (z + 2 ^ 32 <? 2 ^ 31) eqn:E; [apply Z.ltb_lt in E | ]; lia.
    + apply Z.mod_unique with (q := -1); lia.
  - rewrite Z.mod_small by lia.
    destruct (z <? 2 ^ 31) eqn:E; [ | apply Z.ltb_ge in E]; lia.
Qed.

(** ** Memory *)

Lemma ram_init_wf : ram_wf ram_init.
Proof.
  split.
  - unfold ram_init. cbn [cells]. apply length_replicate.
  - unfold ram_init. cbn [cells]. apply Forall_replicate.
    unfold is_uint32, UINT32_MODULUS. lia.
Qed.

Lemma cell_set_cell_eq (ram : RAM) (a v : Z) :
  ram_wf ram -> 0 <= a < RAM_SIZE -> cell (set_cell ram a v) a = v.
Proof.
  intros [Hlen _] Ha. unfold cell, set_cell. cbn [cells].
  rewrite list_lookup_insert_eq; [reflexivity | ].
  rewrite Hlen. apply Z2Nat.inj_lt; lia.
Qed.

Lemma cell_set_cell_ne (ram : RAM) (a b v : Z) :
  0 <= a -> 0 <= b -> a <> b -> cell (set_cell ram a v) b = cell ram b.
Proof.
  intros Ha Hb Hne. unfold cell, set_cell. cbn [cells].
  rewrite list_lookup_insert_ne; [reflexivity | ].
  intros E. apply Z2Nat.inj in E; lia.
Qed.

Lemma set_cell_wf (ram : RAM) (a v : Z) :
  ram_wf ram -> is_uint32 v -> ram_wf (set_cell ram a v).
Proof.
  intros [Hlen Hall] Hv. split; unfold set_cell; cbn [cells].
  - rewrite length_insert. exact Hlen.
  - apply Forall_insert; assumption.
Qed.

(** C4.  A store at an address below 65536 succeeds and a load at the same
    address then returns the stored value; at an address of 65536 or more
    both [ram_store] and [ram_load] return failure and the memory (and the
    caller's output word) is what it was. *)
Theorem ram_store_load_roundtrip :
  forall (ram : RAM) (a v out : Z),
    ram_wf ram ->
    (0 <= a < RAM_SIZE ->
       fst (ram_store ram a v) = true /\
       ram_load (snd (ram_store ram a v)) a out = (true, v, snd (ram_store ram a v))) /\
    (RAM_SIZE <= a ->
       ram_store ram a v = (false, ram) /\ ram_load ram a out = (false, out, ram)).
Proof.
  intros ram a v out Hwf. split.
  - intros Ha. unfold ram_store, ram_load, is_address_valid.
    assert (E : (a <? RAM_SIZE) = true) by (apply Z.ltb_lt; lia).
    rewrite E. cbn [negb fst snd].
    rewrite cell_set_cell_eq by assumption. split; reflexivity.
  - intros Ha. unfold ram_store, ram_load, is_address_valid.
    assert (E : (a <? RAM_SIZE) = false) by (apply Z.ltb_ge; lia).
    rewrite E. cbn [negb]. split; reflexivity.
Qed.

Lemma ram_store_load_roundtrip_witness :
  (fst (ram_store ram_init 4660 77) = true /\
   ram_load (snd (ram_store ram_init 4660 77)) 4660 0
   = (true, 77, snd (ram_store ram_init 4660 77))) /\
  (ram_store ram_init 65536 77 = (false, ram_init) /\
   ram_load ram_init 65536 9 = (false, 9, ram_init)).
Proof.
  split.
  - apply (ram_store_load_roundtrip ram_init 4660 77 0 ram_init_wf).
    unfold RAM_SIZE. lia.
  - apply (ram_store_load_roundtrip ram_init 65536 77 9 ram_init_wf).
    unfold RAM_SIZE. lia.
Defined.

(** A store leaves every other cell as it was. *)
Lemma ram_store_other (ram : RAM) (a b v out : Z) :
  0 <= a -> 0 <= b < RAM_SIZE -> a <> b ->
  ram_load (snd (ram_store ram a v)) b out = (true, cell ram b, snd (ram_store ram a v)).
Proof.
  intros Ha Hb Hne. unfold ram_store, ram_load, is_address_valid.
  assert (E : (b <? RAM_SIZE) = true) by (apply Z.ltb_lt; lia).
  destruct (a <? RAM_SIZE); cbn [negb snd]; rewrite E; cbn [negb]; [ | reflexivity].
  rewrite cell_set_cell_ne by lia. reflexivity.
Qed.

(** ** Validation *)

(** C8, as stated, fails for the empty access at address 0: the code accepts
    it through its [size == 0] guard, while [0 + 0 - 1] leaves the 32-bit
    range (it wraps to 4294967295, which is not below 65536). *)
Lemma is_memory_access_valid_empty_at_zero :
  is_memory_access_valid 0 0 = true /\
  ~ memory_range_valid_spec 0 0 /\
  ~ is_uint32 (0 + 0 - 1) /\
  wrap32 (0 + 0 - 1) = 4294967295 /\
  ~ wrap32 (0 + 0 - 1) < 65536.
Proof.
  split; [reflexivity | ].
  split; [unfold memory_range_valid_spec, is_uint32; lia | ].
  split; [unfold is_uint32; lia | ].
  split; [reflexivity | ].
  change (wrap32 (0 + 0 - 1)) with 4294967295. lia.
Qed.

(** What the three tests of [is_memory_access_valid] amount to. *)
Lemma is_memory_access_valid_tests (start size : Z) :
  is_uint32 start -> is_uint32 size ->
  (is_memory_access_valid start size = true <->
   start < RAM_SIZE /\
   (size = 0 \/ (start + size - 1 < UINT32_MODULUS /\ start + size - 1 < RAM_SIZE))).
Proof.
  intros Hs Hz. unfold is_uint32, UINT32_MODULUS in *.
  unfold is_memory_access_valid, RAM_SIZE, wrap32, UINT32_MODULUS.
  destruct (65536 <=? start) eqn:E1; [apply Z.leb_le in E1 | apply Z.leb_gt in E1].
  { split; [discriminate | lia]. }
  destruct (size =? 0) eqn:E2; [apply Z.eqb_eq in E2 | apply Z.eqb_neq in E2].
  { split; [intros _; split; [lia | left; exact E2] | reflexivity]. }
  destruct (Z_lt_le_dec (start + size - 1) (2 ^ 32)) as [Hin | Hout].
  - rewrite (Z.mod_small (start + size - 1) (2 ^ 32)) by lia.
    destruct (start + size - 1 <? start) eqn:E3; [apply Z.ltb_lt in E3; lia | ].
    destruct (65536 <=? start + size - 1) eqn:E4;
      [apply Z.leb_le in E4 | apply Z.leb_gt in E4].
    + split; [discriminate | lia].
    + split; [intros _; lia | reflexivity].
  - assert (Hw : (start + size - 1) mod 2 ^ 32 = start + size - 1 - 2 ^ 32).
    { symmetry. apply Z.mod_unique with (q := 1); lia. }
    rewrite Hw.
    destruct (start + size - 1 - 2 ^ 32 <? start) eqn:E3;
      [ | apply Z.ltb_ge in E3; lia].
    split; [discriminate | lia].
Qed.

(** C8, amended.  For 32-bit [start] and [size], [is_memory_access_valid]
    succeeds exactly when [start] is below 65536 and either [size] is 0 or
    [start + size - 1] does not overflow 32 bits and is below 65536. *)
Theorem is_memory_access_valid_iff :
  forall start size : Z,
    is_uint32 start -> is_uint32 size ->
    (is_memory_access_valid start size = true <->
     start < RAM_SIZE /\
     (size = 0 \/ (start + size - 1 < UINT32_MODULUS /\ start + size - 1 < RAM_SIZE))).
Proof. intros start size. apply is_memory_access_valid_tests. Qed.

Lemma is_memory_access_valid_iff_witness :
  is_memory_access_valid 65535 1 = true <->
  65535 < RAM_SIZE /\
  (1 = 0 \/ (65535 + 1 - 1 < UINT32_MODULUS /\ 65535 + 1 - 1 < RAM_SIZE)).
Proof.
  apply (is_memory_access_valid_iff 65535 1);
    unfold is_uint32, UINT32_MODULUS; lia.
Defined.

(** Away from the empty access at address 0 the code and the specification's
    wording agree. *)
Lemma is_memory_access_valid_spec_agree (start size : Z) :
  is_uint32 start -> is_uint32 size -> (start, size) <> (0, 0) ->
  (is_memory_access_valid start size = true <-> memory_range_valid_spec start size).
Proof.
  intros Hs Hz Hne.
  rewrite (is_memory_access_valid_tests start size Hs Hz).
  unfold memory_range_valid_spec, is_uint32, RAM_SIZE, UINT32_MODULUS in *.
  assert (Hcase : size = 0 -> start <> 0) by (intros -> ->; apply Hne; reflexivity).
  split.
  - intros [H1 [H2 | [H2 H3]]].
    + subst size. rewrite wrap32_small by (unfold is_uint32, UINT32_MODULUS; lia). lia.
    + rewrite wrap32_small by (unfold is_uint32, UINT32_MODULUS; lia). lia.
  - intros [H1 [H2 H3]]. rewrite wrap32_small in H3 by exact H2. lia.
Qed.

(** ** The state monad of the interpreter *)

Lemma get_value_in_ram_eq (skip : Z) (m : machine) :
  get_value_in_ram skip m = (word_at m skip, m).
Proof.
  unfold word_at, get_value_in_ram, bind, get_cpu, get_ram, ret.
  cbv beta iota zeta.
  destruct (RAM_SIZE <=? wrap32 (pc (cpu_of m) + skip)); reflexivity.
Qed.

Lemma word_at_unfold (m : machine) (skip : Z) :
  word_at m skip =
  if RAM_SIZE <=? wrap32 (pc (cpu_of m) + skip) then 0
  else cell (ram_of m) (wrap32 (pc (cpu_of m) + skip)).
Proof.
  unfold word_at, get_value_in_ram, bind, get_cpu, get_ram, ret.
  cbv beta iota zeta.
  destruct (RAM_SIZE <=? wrap32 (pc (cpu_of m) + skip)); reflexivity.
Qed.

Lemma bind_get_value {B : Type} (skip : Z) (k : Z -> Exec B) (m : machine) :
  (let* v := get_value_in_ram skip in k v) m = k (word_at m skip) m.
Proof. unfold bind. rewrite get_value_in_ram_eq. reflexivity. Qed.

(** An opcode other than 0 can only have been fetched inside the memory. *)
Lemma opcode_fetch_in_bounds (m : machine) :
  is_uint32 (pc (cpu_of m)) -> word_at m 0 <> 0 -> pc (cpu_of m) < RAM_SIZE.
Proof.
  intros Hpc Hop. rewrite word_at_unfold in Hop.
  rewrite Z.add_0_r, (wrap32_small _ Hpc) in Hop.
  destruct (RAM_SIZE <=? pc (cpu_of m)) eqn:E; [congruence | ].
  apply Z.leb_gt in E. exact E.
Qed.

Lemma is_reg_index_valid_runtime_ok (r : Z) (m : machine) :
  r < MAX_REGISTERS -> is_reg_index_valid_runtime r m = (true, m).
Proof.
  intros H. unfold is_reg_index_valid_runtime.
  destruct (MAX_REGISTERS <=? r) eqn:E; [apply Z.leb_le in E; lia | reflexivity].
Qed.

Lemma is_reg_index_valid_runtime_bad (r : Z) (m : machine) :
  MAX_REGISTERS <= r -> is_reg_index_valid_runtime r m = (false, stopped m).
Proof.
  intros H. unfold is_reg_index_valid_runtime.
  destruct (MAX_REGISTERS <=? r) eqn:E; [reflexivity | apply Z.leb_gt in E; lia].
Qed.

Lemma is_addr_literal_valid_runtime_ok (a : Z) (m : machine) :
  a < RAM_SIZE -> is_addr_literal_valid_runtime a m = (true, m).
Proof.
  intros H. unfold is_addr_literal_valid_runtime.
  destruct (RAM_SIZE <=? a) eqn:E; [apply Z.leb_le in E; lia | reflexivity].
Qed.

Lemma cpu_step_eq (m : machine) :
  cpu_step m = execute_instruction (word_at m 0) m.
Proof. unfold cpu_step. apply bind_get_value. Qed.

(** ** Out-of-bounds fetches *)

Lemma word_at_out_of_bounds (m : machine) (skip : Z) :
  RAM_SIZE <= wrap32 (pc (cpu_of m) + skip) -> word_at m skip = 0.
Proof.
  intros H. rewrite word_at_unfold. apply Z.leb_le in H. rewrite H. reflexivity.
Qed.

(** C10.  When the index [pc + skip], as [get_value_in_ram] computes it in
    32 bits, is 65536 or more, the accessor returns 0 and leaves the whole
    state, [running] included, as it was; whatever the handler does next, it
    does with 0 as the fetched word. *)
Theorem get_value_in_ram_out_of_bounds :
  forall (m : machine) (skip : Z),
    RAM_SIZE <= wrap32 (pc (cpu_of m) + skip) ->
    get_value_in_ram skip m = (0, m) /\
    running (cpu_of (snd (get_value_in_ram skip m))) = running (cpu_of m) /\
    forall (B : Type) (k : Z -> Exec B),
      (let* v := get_value_in_ram skip in k v) m = k 0 m.
Proof.
  intros m skip H.
  pose proof (word_at_out_of_bounds m skip H) as E.
  rewrite get_value_in_ram_eq, E. split; [reflexivity | split; [reflexivity | ]].
  intros B k. rewrite bind_get_value, E. reflexivity.
Qed.

Lemma get_value_in_ram_out_of_bounds_witness :
  get_value_in_ram 1 (mkMachine (with_pc 65535 cpu_init) ram_init)
  = (0, mkMachine (with_pc 65535 cpu_init) ram_init).
Proof.
  apply (get_value_in_ram_out_of_bounds (mkMachine (with_pc 65535 cpu_init) ram_init) 1).
  vm_compute. discriminate.
Defined.

(** The fetch of an operand at offset 1..3 of an instruction that sits in the
    last cells of the memory is such a fetch: the sum does not wrap. *)
Lemma operand_fetch_past_the_end (m : machine) (skip : Z) :
  is_uint32 (pc (cpu_of m)) -> 0 <= skip <= 3 ->
  RAM_SIZE <= pc (cpu_of m) + skip ->
  pc (cpu_of m) < RAM_SIZE ->
  get_value_in_ram skip m = (0, m).
Proof.
  intros Hpc Hskip Hout Hin.
  rewrite get_value_in_ram_eq, word_at_out_of_bounds; [reflexivity | ].
  rewrite wrap32_small; [exact Hout | ].
  unfold is_uint32, UINT32_MODULUS, RAM_SIZE in *. lia.
Qed.

(** An instruction whose immediate lies past the end of the memory is
    carried out with 0 for the immediate: the load succeeds, [R3] becomes 0
    and [running] stays true. *)
Example loadi_across_the_end :
  step_outcome sample_edge
  = (true,
     {| pc := 65537;
        address_registers := [0; 0; 0; 0; 0; 0; 0; 0];
        registers := [0; 0; 0; 0; 0; 0; 0; 0];
        zero_flag := true; negative_flag := false;
        running := true |}).
Proof. vm_compute. reflexivity. Qed.

(** An opcode fetched out of bounds is the opcode 0, which the dispatch
    rejects: that is where the run stops, not in the accessor. *)
Lemma opcode_fetch_out_of_bounds (m : machine) :
  RAM_SIZE <= wrap32 (pc (cpu_of m) + 0) -> cpu_step m = (false, stopped m).
Proof.
  intros H. rewrite cpu_step_eq, (word_at_out_of_bounds m 0 H). reflexivity.
Qed.

(** ** Handlers *)

Lemma bind_eq {A B : Type} (c : Exec A) (k : A -> Exec B) (m m' : machine) (a : A) :
  c m = (a, m') -> bind c k m = k a m'.
Proof. intros H. unfold bind. rewrite H. reflexivity. Qed.

Lemma require_ok (c k : Exec bool) (m m' : machine) :
  c m = (true, m') -> require c k m = k m'.
Proof. intros H. unfold require. rewrite (bind_eq _ _ _ _ _ H). reflexivity. Qed.

Lemma require_fail (c k : Exec bool) (m m' : machine) :
  c m = (false, m') -> require c k m = (false, m').
Proof. intros H. unfold require. rewrite (bind_eq _ _ _ _ _ H). reflexivity. Qed.

Lemma increase_pc_eq (skip : Z) (m : machine) :
  increase_pc skip m
  = (tt, mkMachine (with_pc (wrap32 (pc (cpu_of m) + skip)) (cpu_of m)) (ram_of m)).
Proof. reflexivity. Qed.

Lemma pc_advance_exact (m : machine) (n : Z) :
  is_uint32 (pc (cpu_of m)) -> pc (cpu_of m) < RAM_SIZE -> 0 <= n <= 4 ->
  wrap32 (pc (cpu_of m) + n) = pc (cpu_of m) + n.
Proof.
  intros Hpc Hin Hn. apply wrap32_small.
  unfold is_uint32, UINT32_MODULUS, RAM_SIZE in *. lia.
Qed.

(** C7.  With an in-bounds target word, jump-if-zero assigns the target to
    the program counter when the zero flag is set and otherwise advances it
    by exactly 2; jump-if-not-zero does the same on the complementary
    condition.  Nothing else in the state changes and the step succeeds. *)
Theorem conditional_jump_semantics :
  forall (m : machine) (target : Z),
    is_uint32 (pc (cpu_of m)) ->
    word_at m 1 = target ->
    target < RAM_SIZE ->
    (word_at m 0 = ISA_JZ ->
     cpu_step m =
     (true, mkMachine (with_pc (if zero_flag (cpu_of m) then target
                               else pc (cpu_of m) + 2) (cpu_of m)) (ram_of m))) /\
    (word_at m 0 = ISA_JNZ ->
     cpu_step m =
     (true, mkMachine (with_pc (if zero_flag (cpu_of m) then pc (cpu_of m) + 2
                               else target) (cpu_of m)) (ram_of m))).
Proof.
  intros m target Hpc Ht Hin.
  split; intros Hop.
  - assert (Hb : pc (cpu_of m) < RAM_SIZE).
    { apply opcode_fetch_in_bounds; [exact Hpc | rewrite Hop; discriminate]. }
    rewrite cpu_step_eq, Hop.
    change (execute_instruction ISA_JZ) with handle_jz_execution.
    unfold handle_jz_execution.
    rewrite bind_get_value, Ht.
    rewrite (require_ok _ _ m m) by (apply is_addr_literal_valid_runtime_ok; exact Hin).
    unfold bind, get_cpu.
    destruct (zero_flag (cpu_of m)).
    + reflexivity.
    + rewrite increase_pc_eq, pc_advance_exact by (try assumption; lia). reflexivity.
  - assert (Hb : pc (cpu_of m) < RAM_SIZE).
    { apply opcode_fetch_in_bounds; [exact Hpc | rewrite Hop; discriminate]. }
    rewrite cpu_step_eq, Hop.
    change (execute_instruction ISA_JNZ) with handle_jnz_execution.
    unfold handle_jnz_execution.
    rewrite bind_get_value, Ht.
    rewrite (require_ok _ _ m m) by (apply is_addr_literal_valid_runtime_ok; exact Hin).
    unfold bind, get_cpu.
    destruct (zero_flag (cpu_of m)); cbn [negb].
    + rewrite increase_pc_eq, pc_advance_exact by (try assumption; lia). reflexivity.
    + reflexivity.
Qed.

Lemma conditional_jump_semantics_witness :
  cpu_step sample_jz =
  (true, mkMachine (with_pc (if zero_flag (cpu_of sample_jz) then 7
                            else pc (cpu_of sample_jz) + 2) (cpu_of sample_jz))
                   (ram_of sample_jz)) /\
  cpu_step sample_jnz =
  (true, mkMachine (with_pc (if zero_flag (cpu_of sample_jnz) then pc (cpu_of sample_jnz) + 2
                            else 7) (cpu_of sample_jnz))
                   (ram_of sample_jnz)).
Proof.
  split.
  - apply (conditional_jump_semantics sample_jz 7).
    + vm_compute. split; [discriminate | reflexivity].
    + vm_compute. reflexivity.
    + vm_compute. reflexivity.
    + vm_compute. reflexivity.
  - apply (conditional_jump_semantics sample_jnz 7).
    + vm_compute. split; [discriminate | reflexivity].
    + vm_compute. reflexivity.
    + vm_compute. reflexivity.
    + vm_compute. reflexivity.
Defined.

(** Unfold the primitives of the state monad and project the records they
    build. *)
Ltac run_exec :=
  unfold increase_pc;
  unfold bind, get_cpu, get_ram, modify_cpu, modify_ram, ret;
  cbn [cpu_of ram_of with_zero_flag with_negative_flag with_pc with_running
       with_register with_address_register
       pc address_registers registers zero_flag negative_flag running fst snd].

(** *** Compare *)

Lemma int32_sub_exact (x y : Z) :
  - 2 ^ 31 <= to_int32 x - to_int32 y < 2 ^ 31 ->
  int32_sub x y = to_int32 x - to_int32 y.
Proof. intros H. unfold int32_sub. apply to_int32_small. exact H. Qed.

Lemma to_int32_inj (x y : Z) :
  is_uint32 x -> is_uint32 y -> to_int32 x = to_int32 y -> x = y.
Proof.
  unfold to_int32. intros Hx Hy.
  rewrite (wrap32_small x Hx), (wrap32_small y Hy).
  unfold is_uint32, UINT32_MODULUS in *.
  destruct (x <? 2 ^ 31) eqn:Ex; destruct (y <? 2 ^ 31) eqn:Ey;
    try apply Z.ltb_lt in Ex; try apply Z.ltb_ge in Ex;
    try apply Z.ltb_lt in Ey; try apply Z.ltb_ge in Ey; lia.
Qed.

(** The zero flag of a compare says that the two registers are equal, also
    when the subtraction wraps. *)
Lemma int32_sub_zero_iff (x y : Z) :
  is_uint32 x -> is_uint32 y -> (int32_sub x y = 0 <-> x = y).
Proof.
  intros Hx Hy. split.
  - intros H. apply to_int32_inj; try assumption.
    unfold int32_sub in H.
    pose proof (to_int32_range x) as Rx. pose proof (to_int32_range y) as Ry.
    set (d := to_int32 x - to_int32 y) in *.
    assert (Hd : - 2 ^ 32 < d < 2 ^ 32) by lia.
    unfold to_int32, wrap32, UINT32_MODULUS in H.
    destruct (d mod 2 ^ 32 <? 2 ^ 31) eqn:E.
    + assert (Hdiv : d = 2 ^ 32 * (d / 2 ^ 32)).
      { pose proof (Z.div_mod d (2 ^ 32)). lia. }
      assert (Hq : -1 < d / 2 ^ 32 < 1) by nia.
      assert (d / 2 ^ 32 = 0) by lia. lia.
    + pose proof (Z.mod_pos_bound d (2 ^ 32)). lia.
  - intros ->. unfold int32_sub. rewrite Z.sub_diag. reflexivity.
Qed.

(** A compare whose two operand words are valid register indices tests
    the difference [int32_sub] of the two registers ([int32_t diff = a - b]),
    leaves every register and the memory as they were, advances the program
    counter by 3 and succeeds. *)
Lemma handle_cmp_execution_step :
  forall (m : machine) (a b : Z),
    is_uint32 (pc (cpu_of m)) ->
    word_at m 0 = ISA_CMP ->
    word_at m 1 = a ->
    word_at m 2 = b ->
    a < MAX_REGISTERS ->
    b < MAX_REGISTERS ->
    cpu_step m =
    (true,
     mkMachine
       {| pc := pc (cpu_of m) + 3;
          address_registers := address_registers (cpu_of m);
          registers := registers (cpu_of m);
          zero_flag := (int32_sub (reg (cpu_of m) a) (reg (cpu_of m) b) =? 0);
          negative_flag := (int32_sub (reg (cpu_of m) a) (reg (cpu_of m) b) <? 0);
          running := running (cpu_of m) |}
       (ram_of m)).
Proof.
  intros m a b Hpc Hop Ha Hb Hva Hvb.
  assert (Hin : pc (cpu_of m) < RAM_SIZE).
  { apply opcode_fetch_in_bounds; [exact Hpc | rewrite Hop; discriminate]. }
  rewrite cpu_step_eq, Hop.
  change (execute_instruction ISA_CMP) with handle_cmp_execution.
  unfold handle_cmp_execution.
  rewrite bind_get_value, Ha, bind_get_value, Hb.
  rewrite (require_ok _ _ m m) by (apply is_reg_index_valid_runtime_ok; exact Hva).
  rewrite (require_ok _ _ m m) by (apply is_reg_index_valid_runtime_ok; exact Hvb).
  run_exec.
  rewrite pc_advance_exact by (try assumption; lia).
  reflexivity.
Qed.


(** The sign of [int32_sub] in plain arithmetic: [d] is the exact
    difference of the two operands read as signed numbers. *)
Lemma to_int32_negative (d : Z) :
  - 2 ^ 32 < d < 2 ^ 32 ->
  (to_int32 d <? 0) = ((- 2 ^ 31 <=? d) && (d <? 0)) || (2 ^ 31 <=? d).
Proof.
  intros Hd. unfold to_int32, wrap32, UINT32_MODULUS.
  assert (E : d mod 2 ^ 32 = if d <? 0 then d + 2 ^ 32 else d).
  { destruct (Z.ltb_spec d 0).
    - symmetry. apply (Z.mod_unique d (2 ^ 32) (-1)); lia.
    - apply Z.mod_small. lia. }
  rewrite E. cbv zeta.
  destruct (Z.ltb_spec d 0); destruct (Z.leb_spec (- 2 ^ 31) d);
    destruct (Z.leb_spec (2 ^ 31) d); cbn [andb orb]; try lia;
    match goal with
    | |- context [if ?c then _ else _] => destruct c eqn:C
    end;
    try (apply Z.ltb_lt in C); try (apply Z.ltb_ge in C); try lia;
    first [apply Z.ltb_lt; lia | apply Z.ltb_ge; lia].
Qed.

(** C6.  The compare of [INT32_MIN] with 1.  The program
    [LOADI R0, 0x80000000 / LOADI R1, 1 / CMP R0, R1 / HALT] assembles and
    runs to its halt, and leaves the negative flag clear, although [R0], read
    as a signed number, is [-2147483648], the signed difference of the two
    registers is [-2147483649], which is negative, and [R0 < R1]: the
    subtraction [int32_t diff = a - b] leaves the 32-bit range and what it
    gives back, [2147483647], has the other sign. *)
Theorem compare_sign_lost_on_overflow :
  observe (assemble_and_run 10 program_compare_overflow fresh_machine)
  = Some (Some true,
          {| pc := 9;
             address_registers := [0; 0; 0; 0; 0; 0; 0; 0];
             registers := [2147483648; 1; 0; 0; 0; 0; 0; 0];
             zero_flag := false; negative_flag := false;
             running := false |}) /\
  to_int32 2147483648 = -2147483648 /\
  to_int32 2147483648 - to_int32 1 = -2147483649 /\
  int32_sub 2147483648 1 = 2147483647.
Proof. vm_compute. repeat split; reflexivity. Qed.

(** On the sample: [3 - 5] is negative and not zero. *)
Example compare_sample_flags :
  int32_sub (reg (cpu_of sample_cmp) 0) (reg (cpu_of sample_cmp) 1) = -2.
Proof. vm_compute. reflexivity. Qed.

(** Where the subtraction wraps, the sign of [diff] is not the order of the
    operands: [INT32_MIN - 1] is [INT32_MAX]. *)
Example compare_wraps :
  int32_sub 0x80000000 1 = 0x7FFFFFFF.
Proof. vm_compute. reflexivity. Qed.

(** *** Arithmetic and bitwise instructions *)

Lemma resolve_arith_operands_bad_dst (m : machine) :
  MAX_REGISTERS <= word_at m 1 -> resolve_arith_operands m = (None, stopped m).
Proof.
  intros H. unfold resolve_arith_operands. rewrite !bind_get_value.
  rewrite (bind_eq _ _ _ _ _ (is_reg_index_valid_runtime_bad _ m H)). reflexivity.
Qed.

Lemma resolve_arith_operands_bad_src (m : machine) :
  word_at m 1 < MAX_REGISTERS -> word_at m 2 = OPERAND_REGISTER ->
  MAX_REGISTERS <= word_at m 3 ->
  resolve_arith_operands m = (None, stopped m).
Proof.
  intros H1 H2 H3. unfold resolve_arith_operands. rewrite !bind_get_value.
  rewrite (bind_eq _ _ _ _ _ (is_reg_index_valid_runtime_ok _ m H1)). cbn [negb].
  rewrite H2. cbn [Z.eqb OPERAND_REGISTER].
  rewrite (bind_eq _ _ _ _ _ (is_reg_index_valid_runtime_bad _ m H3)). reflexivity.
Qed.

Lemma resolve_arith_operands_register (m : machine) :
  word_at m 1 < MAX_REGISTERS -> word_at m 2 = OPERAND_REGISTER ->
  word_at m 3 < MAX_REGISTERS ->
  resolve_arith_operands m = (Some (word_at m 1, reg (cpu_of m) (word_at m 3)), m).
Proof.
  intros H1 H2 H3. unfold resolve_arith_operands. rewrite !bind_get_value.
  rewrite (bind_eq _ _ _ _ _ (is_reg_index_valid_runtime_ok _ m H1)). cbn [negb].
  rewrite H2. cbn [Z.eqb OPERAND_REGISTER].
  rewrite (bind_eq _ _ _ _ _ (is_reg_index_valid_runtime_ok _ m H3)). reflexivity.
Qed.

Lemma resolve_arith_operands_numeric (m : machine) :
  word_at m 1 < MAX_REGISTERS -> word_at m 2 = OPERAND_NUMERIC ->
  resolve_arith_operands m = (Some (word_at m 1, word_at m 3), m).
Proof.
  intros H1 H2. unfold resolve_arith_operands. rewrite !bind_get_value.
  rewrite (bind_eq _ _ _ _ _ (is_reg_index_valid_runtime_ok _ m H1)). cbn [negb].
  rewrite H2. reflexivity.
Qed.

Lemma resolve_arith_operands_bad_mode (m : machine) :
  word_at m 1 < MAX_REGISTERS ->
  word_at m 2 <> OPERAND_REGISTER -> word_at m 2 <> OPERAND_NUMERIC ->
  resolve_arith_operands m = (None, m).
Proof.
  intros H1 H2 H3. unfold resolve_arith_operands. rewrite !bind_get_value.
  rewrite (bind_eq _ _ _ _ _ (is_reg_index_valid_runtime_ok _ m H1)). cbn [negb].
  apply Z.eqb_neq in H2. apply Z.eqb_neq in H3. rewrite H2, H3. reflexivity.
Qed.

Lemma is_arith_opcode_cases (opcode : Z) :
  is_arith_opcode opcode = true ->
  opcode = ISA_ADD \/ opcode = ISA_SUB \/ opcode = ISA_MLP \/ opcode = ISA_DIV \/
  opcode = ISA_AND \/ opcode = ISA_OR \/ opcode = ISA_XOR.
Proof.
  unfold is_arith_opcode. rewrite !orb_true_iff, !Z.eqb_eq. tauto.
Qed.

(** When the prologue gives up, so does the instruction, in the state the
    prologue left. *)
Lemma arith_gives_up (opcode : Z) (m m' : machine) :
  is_arith_opcode opcode = true ->
  resolve_arith_operands m = (None, m') ->
  execute_instruction opcode m = (false, m').
Proof.
  intros Hop Hres.
  destruct (is_arith_opcode_cases opcode Hop) as [-> | [-> | [-> | [-> | [-> | [-> | ->]]]]]].
  - change (execute_instruction ISA_ADD) with handle_add_execution.
    unfold handle_add_execution, arith_execution. rewrite (bind_eq _ _ _ _ _ Hres). reflexivity.
  - change (execute_instruction ISA_SUB) with handle_sub_execution.
    unfold handle_sub_execution, arith_execution. rewrite (bind_eq _ _ _ _ _ Hres). reflexivity.
  - change (execute_instruction ISA_MLP) with handle_mlp_execution.
    unfold handle_mlp_execution, arith_execution. rewrite (bind_eq _ _ _ _ _ Hres). reflexivity.
  - change (execute_instruction ISA_DIV) with handle_div_execution.
    unfold handle_div_execution. rewrite (bind_eq _ _ _ _ _ Hres). reflexivity.
  - change (execute_instruction ISA_AND) with handle_and_execution.
    unfold handle_and_execution, arith_execution. rewrite (bind_eq _ _ _ _ _ Hres). reflexivity.
  - change (execute_instruction ISA_OR) with handle_or_execution.
    unfold handle_or_execution, arith_execution. rewrite (bind_eq _ _ _ _ _ Hres). reflexivity.
  - change (execute_instruction ISA_XOR) with handle_xor_execution.
    unfold handle_xor_execution, arith_execution. rewrite (bind_eq _ _ _ _ _ Hres). reflexivity.
Qed.

(** ** The run loop *)

Lemma cpu_run_loop_done (fuel : nat) (end_addr : Z) (m : machine) :
  loop_test end_addr m = false -> cpu_run_loop fuel end_addr m = Some (true, m).
Proof. intros H. destruct fuel; cbn [cpu_run_loop]; rewrite H; reflexivity. Qed.

Lemma cpu_run_loop_fail (fuel : nat) (end_addr : Z) (m m' : machine) :
  loop_test end_addr m = true -> cpu_step m = (false, m') ->
  cpu_run_loop (S fuel) end_addr m = Some (false, m').
Proof. intros H Hs. cbn [cpu_run_loop]. rewrite H, Hs. reflexivity. Qed.

Lemma cpu_run_loop_next (fuel : nat) (end_addr : Z) (m m' : machine) :
  loop_test end_addr m = true -> cpu_step m = (true, m') ->
  cpu_run_loop (S fuel) end_addr m = cpu_run_loop fuel end_addr m'.
Proof. intros H Hs. cbn [cpu_run_loop]. rewrite H, Hs. reflexivity. Qed.

(** More fuel does not change a result. *)
Lemma cpu_run_loop_more_fuel (end_addr : Z) (fuel : nat) :
  forall (m : machine) (r : bool * machine) (fuel' : nat),
    cpu_run_loop fuel end_addr m = Some r -> (fuel <= fuel')%nat ->
    cpu_run_loop fuel' end_addr m = Some r.
Proof.
  induction fuel as [ | fuel IH]; intros m r fuel' H Hle.
  - cbn [cpu_run_loop] in H.
    destruct (loop_test end_addr m) eqn:E; [discriminate | ].
    rewrite cpu_run_loop_done by exact E. exact H.
  - destruct fuel' as [ | fuel']; [lia | ].
    cbn [cpu_run_loop] in *.
    destruct (loop_test end_addr m); [ | exact H].
    destruct (cpu_step m) as [ok m'].
    destruct ok; [ | exact H].
    apply IH; [exact H | lia].
Qed.

(** Two results of the same run, whatever the fuel, are one result. *)
Lemma cpu_run_loop_deterministic (end_addr : Z) (m : machine)
      (fuel1 fuel2 : nat) (r1 r2 : bool * machine) :
  cpu_run_loop fuel1 end_addr m = Some r1 ->
  cpu_run_loop fuel2 end_addr m = Some r2 ->
  r1 = r2.
Proof.
  intros H1 H2.
  apply (cpu_run_loop_more_fuel _ _ _ _ (Nat.max fuel1 fuel2)) in H1; [ | lia].
  apply (cpu_run_loop_more_fuel _ _ _ _ (Nat.max fuel1 fuel2)) in H2; [ | lia].
  congruence.
Qed.

(** A failing step in a state the loop reaches ends the whole run. *)
Lemma reaches_failing_step (end_addr : Z) (m0 m m' : machine) :
  reaches end_addr m0 m ->
  loop_test end_addr m = true ->
  cpu_step m = (false, m') ->
  exists fuel, forall fuel', (fuel <= fuel')%nat ->
    cpu_run_loop fuel' end_addr m0 = Some (false, m').
Proof.
  intros Hreach Htest Hstep. induction Hreach as [m | m1 m2 m3 Ht Hs _ IH].
  - exists 1%nat. intros fuel' Hle. destruct fuel' as [ | fuel']; [lia | ].
    apply cpu_run_loop_fail; assumption.
  - destruct (IH Htest Hstep) as [fuel Hfuel].
    exists (S fuel). intros fuel' Hle. destruct fuel' as [ | fuel']; [lia | ].
    rewrite (cpu_run_loop_next _ _ _ _ Ht Hs). apply Hfuel. lia.
Qed.

Lemma cpu_run_eq (fuel : nat) (range : AssemblyRange) (m : machine) :
  cpu_run fuel range m = cpu_run_loop fuel (end_address range) (run_entry range m).
Proof. reflexivity. Qed.

(** ** Well-formed states

    Every step keeps the program counter, the registers and the memory cells
    32-bit values and the three arrays at their sizes, so that the range
    hypotheses of the properties above hold in every state that a run reaches
    from a well-formed one. *)

Create HintDb wf discriminated.

Lemma is_uint32_0 : is_uint32 0.
Proof. unfold is_uint32, UINT32_MODULUS. lia. Qed.

Lemma lookup_default_uint32 (l : list Z) (n : nat) :
  Forall is_uint32 l -> is_uint32 (default 0 (l !! n)).
Proof.
  intros Hall. destruct (l !! n) as [v | ] eqn:E; cbn [default].
  - rewrite Forall_lookup in Hall. apply (Hall n v E).
  - apply is_uint32_0.
Qed.

Lemma cell_uint32 (ram : RAM) (i : Z) : ram_wf ram -> is_uint32 (cell ram i).
Proof. intros [_ Hall]. apply lookup_default_uint32. exact Hall. Qed.

Lemma reg_uint32 (cpu : CPU) (i : Z) : cpu_wf cpu -> is_uint32 (reg cpu i).
Proof. intros (_ & _ & _ & _ & Hall). apply lookup_default_uint32. exact Hall. Qed.

Lemma areg_uint32 (cpu : CPU) (i : Z) : cpu_wf cpu -> is_uint32 (areg cpu i).
Proof. intros (_ & _ & Hall & _). apply lookup_default_uint32. exact Hall. Qed.

Lemma word_at_uint32 (m : machine) (skip : Z) : ram_wf (ram_of m) -> is_uint32 (word_at m skip).
Proof.
  intros Hwf. rewrite word_at_unfold.
  destruct (RAM_SIZE <=? wrap32 (pc (cpu_of m) + skip)).
  - apply is_uint32_0.
  - apply cell_uint32. exact Hwf.
Qed.

Lemma uint32_log2 (z : Z) : 0 <= z -> (z < 2 ^ 32 <-> z = 0 \/ Z.log2 z < 32).
Proof.
  intros Hz. destruct (Z.eq_dec z 0) as [-> | Hne].
  - split; [left; reflexivity | lia].
  - rewrite <- (Z.log2_lt_pow2 z 32) by lia. split; [right; assumption | intros [E | E]; lia].
Qed.

Lemma land_uint32 (a b : Z) : is_uint32 a -> is_uint32 b -> is_uint32 (Z.land a b).
Proof.
  unfold is_uint32, UINT32_MODULUS. intros Ha Hb.
  assert (H0 : 0 <= Z.land a b) by (apply Z.land_nonneg; lia).
  split; [exact H0 | ].
  apply uint32_log2; [exact H0 | ].
  destruct (Z.eq_dec (Z.land a b) 0) as [E | E]; [left; exact E | right].
  pose proof (Z.log2_land a b ltac:(lia) ltac:(lia)) as Hl.
  assert (Ha' : a = 0 \/ Z.log2 a < 32) by (apply uint32_log2; lia).
  assert (Hb' : b = 0 \/ Z.log2 b < 32) by (apply uint32_log2; lia).
  destruct Ha' as [-> | Ha']; [rewrite Z.land_0_l in E; contradiction | ].
  lia.
Qed.

Lemma lor_uint32 (a b : Z) : is_uint32 a -> is_uint32 b -> is_uint32 (Z.lor a b).
Proof.
  unfold is_uint32, UINT32_MODULUS. intros Ha Hb.
  assert (H0 : 0 <= Z.lor a b) by (apply Z.lor_nonneg; lia).
  split; [exact H0 | ].
  apply uint32_log2; [exact H0 | ].
  pose proof (Z.log2_lor a b ltac:(lia) ltac:(lia)) as Hl.
  assert (Ha' : a = 0 \/ Z.log2 a < 32) by (apply uint32_log2; lia).
  assert (Hb' : b = 0 \/ Z.log2 b < 32) by (apply uint32_log2; lia).
  right. rewrite Hl.
  destruct Ha' as [-> | Ha']; destruct Hb' as [-> | Hb']; cbn [Z.log2] in *; lia.
Qed.

Lemma lxor_uint32 (a b : Z) : is_uint32 a -> is_uint32 b -> is_uint32 (Z.lxor a b).
Proof.
  unfold is_uint32, UINT32_MODULUS. intros Ha Hb.
  assert (H0 : 0 <= Z.lxor a b) by (apply Z.lxor_nonneg; lia).
  split; [exact H0 | ].
  apply uint32_log2; [exact H0 | ].
  pose proof (Z.log2_lxor a b ltac:(lia) ltac:(lia)) as Hl.
  assert (Ha' : a = 0 \/ Z.log2 a < 32) by (apply uint32_log2; lia).
  assert (Hb' : b = 0 \/ Z.log2 b < 32) by (apply uint32_log2; lia).
  right.
  destruct Ha' as [-> | Ha']; destruct Hb' as [-> | Hb']; cbn [Z.log2] in *; lia.
Qed.

Lemma div_uint32 (a b : Z) : is_uint32 a -> is_uint32 b -> is_uint32 (a / b).
Proof.
  unfold is_uint32, UINT32_MODULUS. intros Ha Hb.
  destruct (Z.eq_dec b 0) as [-> | Hne].
  - rewrite Z.div_0_r. lia.
  - split.
    + apply Z.div_pos; lia.
    + apply Z.le_lt_trans with (m := a); [ | lia].
      apply Z.div_le_upper_bound; [lia | nia].
Qed.

Lemma cpu_wf_with_pc (v : Z) (cpu : CPU) :
  is_uint32 v -> cpu_wf cpu -> cpu_wf (with_pc v cpu).
Proof.
  intros Hv (H1 & H2 & H3 & H4 & H5).
  split; [exact Hv | split; [exact H2 | split; [exact H3 | split; [exact H4 | exact H5]]]].
Qed.

Lemma cpu_wf_with_running (b : bool) (cpu : CPU) : cpu_wf cpu -> cpu_wf (with_running b cpu).
Proof. intros H. exact H. Qed.

Lemma cpu_wf_with_zero_flag (b : bool) (cpu : CPU) :
  cpu_wf cpu -> cpu_wf (with_zero_flag b cpu).
Proof. intros H. exact H. Qed.

Lemma cpu_wf_with_negative_flag (b : bool) (cpu : CPU) :
  cpu_wf cpu -> cpu_wf (with_negative_flag b cpu).
Proof. intros H. exact H. Qed.

Lemma cpu_wf_with_register (i v : Z) (cpu : CPU) :
  is_uint32 v -> cpu_wf cpu -> cpu_wf (with_register i v cpu).
Proof.
  intros Hv (H1 & H2 & H3 & H4 & H5). unfold cpu_wf, with_register.
  cbn [pc address_registers registers].
  split; [exact H1 | split; [exact H2 | split; [exact H3 | split]]].
  - rewrite length_insert. exact H4.
  - apply Forall_insert; assumption.
Qed.

Lemma cpu_wf_with_address_register (i v : Z) (cpu : CPU) :
  is_uint32 v -> cpu_wf cpu -> cpu_wf (with_address_register i v cpu).
Proof.
  intros Hv (H1 & H2 & H3 & H4 & H5). unfold cpu_wf, with_address_register.
  cbn [pc address_registers registers].
  split; [exact H1 | split; [ | split; [ | split; [exact H4 | exact H5]]]].
  - rewrite length_insert. exact H2.
  - apply Forall_insert; assumption.
Qed.

Lemma cpu_init_wf : cpu_wf cpu_init.
Proof.
  unfold cpu_wf, cpu_init. cbn [pc address_registers registers].
  split; [apply is_uint32_0 | ].
  split; [apply length_replicate | ].
  split; [apply Forall_replicate, is_uint32_0 | ].
  split; [apply length_replicate | apply Forall_replicate, is_uint32_0].
Qed.

#[export] Hint Resolve is_uint32_0 wrap32_range cell_uint32 reg_uint32 areg_uint32
  word_at_uint32 land_uint32 lor_uint32 lxor_uint32 div_uint32
  cpu_wf_with_pc cpu_wf_with_running cpu_wf_with_zero_flag cpu_wf_with_negative_flag
  cpu_wf_with_register cpu_wf_with_address_register set_cell_wf : wf.

(** The branches of a handler, each with the state it ends in. *)
Ltac handler_states :=
  unfold arith_execution;
  unfold require, resolve_target_address, resolve_arith_operands,
    is_reg_index_valid_runtime, is_addr_index_valid_runtime,
    is_addr_literal_valid_runtime, is_memory_access_valid_runtime;
  run_exec;
  rewrite ?get_value_in_ram_eq;
  repeat (cbv beta iota; run_exec; cbn [negb];
          match goal with
          | |- context [if negb ?c then _ else _] => destruct c; cbn [negb]
          | |- context [if ?c then _ else _] => destruct c
          end);
  cbv beta iota; run_exec; cbn [negb].

Ltac handler_wf :=
  let Hc := fresh "Hc" in
  let Hr := fresh "Hr" in
  intros [Hc Hr]; handler_states;
  (split; cbn [snd cpu_of ram_of]; auto 8 with wf).

Lemma handle_loadi_execution_wf (m : machine) :
  machine_wf m -> machine_wf (snd (handle_loadi_execution m)).
Proof. unfold handle_loadi_execution. handler_wf. Qed.

Lemma handle_loada_execution_wf (m : machine) :
  machine_wf m -> machine_wf (snd (handle_loada_execution m)).
Proof. unfold handle_loada_execution. handler_wf. Qed.

Lemma handle_loadm_execution_wf (m : machine) :
  machine_wf m -> machine_wf (snd (handle_loadm_execution m)).
Proof. unfold handle_loadm_execution. handler_wf. Qed.

Lemma handle_storem_execution_wf (m : machine) :
  machine_wf m -> machine_wf (snd (handle_storem_execution m)).
Proof. unfold handle_storem_execution. handler_wf. Qed.

Lemma arith_execution_wf (op : Z -> Z -> Z) (m : machine) :
  (forall a b, is_uint32 a -> is_uint32 b -> is_uint32 (op a b)) ->
  machine_wf m -> machine_wf (snd (arith_execution op m)).
Proof. intros Hop. handler_wf. Qed.

Lemma handle_div_execution_wf (m : machine) :
  machine_wf m -> machine_wf (snd (handle_div_execution m)).
Proof. unfold handle_div_execution. handler_wf. Qed.

Lemma handle_jmp_execution_wf (m : machine) :
  machine_wf m -> machine_wf (snd (handle_jmp_execution m)).
Proof. unfold handle_jmp_execution. handler_wf. Qed.

Lemma handle_jz_execution_wf (m : machine) :
  machine_wf m -> machine_wf (snd (handle_jz_execution m)).
Proof. unfold handle_jz_execution. handler_wf. Qed.

Lemma handle_jnz_execution_wf (m : machine) :
  machine_wf m -> machine_wf (snd (handle_jnz_execution m)).
Proof. unfold handle_jnz_execution. handler_wf. Qed.

Lemma handle_cmp_execution_wf (m : machine) :
  machine_wf m -> machine_wf (snd (handle_cmp_execution m)).
Proof. unfold handle_cmp_execution. handler_wf. Qed.

(** A step keeps the state well-formed, whatever the opcode. *)
Lemma cpu_step_wf (m : machine) : machine_wf m -> machine_wf (snd (cpu_step m)).
Proof.
  intros Hwf. rewrite cpu_step_eq. unfold execute_instruction.
  repeat match goal with
         | |- context [if ?c then _ else _] => destruct c
         end;
    first
      [ apply handle_loadi_execution_wf | apply handle_loada_execution_wf
      | apply handle_loadm_execution_wf | apply handle_storem_execution_wf
      | apply handle_div_execution_wf | apply handle_jmp_execution_wf
      | apply handle_jz_execution_wf | apply handle_jnz_execution_wf
      | apply handle_cmp_execution_wf
      | apply arith_execution_wf; auto with wf
      | destruct Hwf as [Hc Hr]; split; cbn; auto with wf ];
    try exact Hwf.
Qed.

(** Every state that a run reaches from a well-formed one is well-formed. *)
Lemma reaches_wf (end_addr : Z) (m0 m : machine) :
  reaches end_addr m0 m -> machine_wf m0 -> machine_wf m.
Proof.
  intros Hreach. induction Hreach as [m | m1 m2 m3 _ Hs _ IH]; intros Hwf.
  - exact Hwf.
  - apply IH. pose proof (cpu_step_wf m1 Hwf) as H. rewrite Hs in H. exact H.
Qed.

Lemma run_entry_wf (range : AssemblyRange) (m : machine) :
  is_uint32 (start_address range) -> machine_wf m -> machine_wf (run_entry range m).
Proof.
  intros Hs [Hc Hr]. split; cbn [run_entry cpu_of ram_of]; auto with wf.
Qed.

Lemma fresh_machine_wf : machine_wf fresh_machine.
Proof. split; [apply cpu_init_wf | apply ram_init_wf]. Qed.

(** In a well-formed state the zero flag that a compare sets says exactly
    that the two registers hold the same value. *)
Lemma compare_zero_flag_iff_equal (cpu : CPU) (a b : Z) :
  cpu_wf cpu ->
  ((int32_sub (reg cpu a) (reg cpu b) =? 0) = true <-> reg cpu a = reg cpu b).
Proof.
  intros Hwf. rewrite Z.eqb_eq. apply int32_sub_zero_iff; apply reg_uint32; exact Hwf.
Qed.

(** The flags of a compare in plain arithmetic, in any well-formed state.
    With [d] the exact difference of the two registers read as signed 32-bit
    numbers: the zero flag says that the registers are equal; the negative
    flag says that [d] is negative and not below [- 2^31], or that [d] is
    [2^31] or more.  So the negative flag is the sign of [d] as long as [d]
    fits 32 bits, and the opposite of it when [d] does not. *)
Lemma compare_flags_in_plain_arithmetic (m : machine) (a b : Z) :
  machine_wf m ->
  word_at m 0 = ISA_CMP -> word_at m 1 = a -> word_at m 2 = b ->
  a < MAX_REGISTERS -> b < MAX_REGISTERS ->
  let x := reg (cpu_of m) a in
  let y := reg (cpu_of m) b in
  let d := (if x <? 2 ^ 31 then x else x - 2 ^ 32)
           - (if y <? 2 ^ 31 then y else y - 2 ^ 32) in
  exists cpu' : CPU,
    cpu_step m = (true, mkMachine cpu' (ram_of m)) /\
    zero_flag cpu' = (x =? y) /\
    negative_flag cpu' = ((- 2 ^ 31 <=? d) && (d <? 0)) || (2 ^ 31 <=? d) /\
    registers cpu' = registers (cpu_of m) /\
    address_registers cpu' = address_registers (cpu_of m) /\
    running cpu' = running (cpu_of m) /\
    pc cpu' = pc (cpu_of m) + 3.
Proof.
  intros [Hc Hr] Hop Ha Hb Hva Hvb x y d.
  pose proof (reg_uint32 (cpu_of m) a Hc) as Hx.
  pose proof (reg_uint32 (cpu_of m) b Hc) as Hy.
  fold x in Hx. fold y in Hy.
  eexists. split; [apply (handle_cmp_execution_step m a b); try assumption; apply Hc | ].
  cbn [zero_flag negative_flag registers address_registers running pc].
  fold x y.
  assert (Ed : to_int32 x - to_int32 y = d).
  { unfold d, to_int32. rewrite !wrap32_small by assumption.
    unfold UINT32_MODULUS. reflexivity. }
  split; [ | split; [ | repeat split]].
  - destruct (Z.eqb_spec x y) as [E | E].
    + apply (compare_zero_flag_iff_equal (cpu_of m) a b Hc). exact E.
    + destruct (int32_sub x y =? 0) eqn:Z0; [ | reflexivity].
      contradiction E. apply (compare_zero_flag_iff_equal (cpu_of m) a b Hc). exact Z0.
  - unfold int32_sub. rewrite Ed. apply to_int32_negative.
    unfold is_uint32, UINT32_MODULUS in Hx, Hy. unfold d.
    destruct (Z.ltb_spec x (2 ^ 31)); destruct (Z.ltb_spec y (2 ^ 31)); lia.
Qed.

(** In particular the program counter is a 32-bit value wherever a run from
    a well-formed state stands. *)
Lemma reached_pc_uint32 (range : AssemblyRange) (m0 m : machine) :
  machine_wf m0 -> is_uint32 (start_address range) ->
  reaches (end_address range) (run_entry range m0) m ->
  is_uint32 (pc (cpu_of m)).
Proof.
  intros Hwf Hs Hreach.
  apply (reaches_wf _ _ _ Hreach). apply run_entry_wf; assumption.
Qed.

(** ** Fatal errors *)

Lemma div_by_zero_step (m : machine) (dst : Z) :
  resolve_arith_operands m = (Some (dst, 0), m) ->
  handle_div_execution m = (false, stopped m).
Proof.
  intros H. unfold handle_div_execution. rewrite (bind_eq _ _ _ _ _ H). reflexivity.
Qed.

Lemma loadi_bad_register (m : machine) :
  MAX_REGISTERS <= word_at m 1 -> handle_loadi_execution m = (false, stopped m).
Proof.
  intros H. unfold handle_loadi_execution. rewrite !bind_get_value.
  apply require_fail. apply is_reg_index_valid_runtime_bad. exact H.
Qed.

Lemma loadm_bad_register (m : machine) :
  MAX_REGISTERS <= word_at m 1 -> handle_loadm_execution m = (false, stopped m).
Proof.
  intros H. unfold handle_loadm_execution. rewrite !bind_get_value.
  apply require_fail. apply is_reg_index_valid_runtime_bad. exact H.
Qed.

Lemma storem_bad_register (m : machine) :
  MAX_REGISTERS <= word_at m 3 -> handle_storem_execution m = (false, stopped m).
Proof.
  intros H. unfold handle_storem_execution. rewrite !bind_get_value.
  apply require_fail. apply is_reg_index_valid_runtime_bad. exact H.
Qed.

Lemma cmp_bad_register (m : machine) :
  MAX_REGISTERS <= word_at m 1 \/ MAX_REGISTERS <= word_at m 2 ->
  handle_cmp_execution m = (false, stopped m).
Proof.
  intros H. unfold handle_cmp_execution. rewrite !bind_get_value.
  destruct (Z_lt_le_dec (word_at m 1) MAX_REGISTERS) as [Hok | Hbad].
  - destruct H as [H | H]; [lia | ].
    rewrite (require_ok _ _ m m) by (apply is_reg_index_valid_runtime_ok; exact Hok).
    apply require_fail. apply is_reg_index_valid_runtime_bad. exact H.
  - apply require_fail. apply is_reg_index_valid_runtime_bad. exact Hbad.
Qed.

Lemma arith_bad_register (opcode : Z) (m : machine) :
  is_arith_opcode opcode = true ->
  MAX_REGISTERS <= word_at m 1 \/
  (word_at m 2 = OPERAND_REGISTER /\ MAX_REGISTERS <= word_at m 3) ->
  execute_instruction opcode m = (false, stopped m).
Proof.
  intros Hop H. apply arith_gives_up; [exact Hop | ].
  destruct (Z_lt_le_dec (word_at m 1) MAX_REGISTERS) as [Hok | Hbad].
  - destruct H as [H | [Hmode H]]; [lia | ].
    apply resolve_arith_operands_bad_src; assumption.
  - apply resolve_arith_operands_bad_dst. exact Hbad.
Qed.

(** The step of an instruction one of whose register-index operands is 8 or
    more. *)
Lemma bad_register_step (m : machine) :
  Exists (fun r => MAX_REGISTERS <= r) (register_operands m) ->
  cpu_step m = (false, stopped m).
Proof.
  unfold register_operands. intros H. rewrite cpu_step_eq.
  destruct ((word_at m 0 =? ISA_LOADI) || (word_at m 0 =? ISA_LOADM)) eqn:E1.
  { apply Exists_cons in H. destruct H as [H | H]; [ | apply Exists_nil in H; contradiction].
    apply orb_true_iff in E1. destruct E1 as [E | E]; apply Z.eqb_eq in E; rewrite E.
    - apply loadi_bad_register. exact H.
    - apply loadm_bad_register. exact H. }
  destruct (word_at m 0 =? ISA_STOREM) eqn:E2.
  { apply Exists_cons in H. destruct H as [H | H]; [ | apply Exists_nil in H; contradiction].
    apply Z.eqb_eq in E2. rewrite E2. apply storem_bad_register. exact H. }
  destruct (is_arith_opcode (word_at m 0)) eqn:E3.
  { apply arith_bad_register; [exact E3 | ].
    destruct (word_at m 2 =? OPERAND_REGISTER) eqn:E4.
    - apply Z.eqb_eq in E4.
      apply Exists_cons in H. destruct H as [H | H]; [left; exact H | ].
      apply Exists_cons in H. destruct H as [H | H]; [right; split; assumption | ].
      apply Exists_nil in H. contradiction.
    - apply Exists_cons in H. destruct H as [H | H]; [left; exact H | ].
      apply Exists_nil in H. contradiction. }
  destruct (word_at m 0 =? ISA_CMP) eqn:E5.
  { apply Z.eqb_eq in E5. rewrite E5.
    change (execute_instruction ISA_CMP) with handle_cmp_execution.
    apply cmp_bad_register.
    apply Exists_cons in H. destruct H as [H | H]; [left; exact H | ].
    apply Exists_cons in H. destruct H as [H | H]; [right; exact H | ].
    apply Exists_nil in H. contradiction. }
  apply Exists_nil in H. contradiction.
Qed.

(** *** In a state that the run reaches

    The state [m] is one in which the loop of [cpu_run], entered for [range]
    from [m0], stands at its test with the test true: the next thing that
    happens is the step on the instruction at the program counter of [m]. *)

Section ReachedState.

Variable range : AssemblyRange.
Variables m0 m : machine.
Hypothesis Hreach : reaches (end_address range) (run_entry range m0) m.
Hypothesis Htest : loop_test (end_address range) m = true.

Lemma failing_step_ends_run (m' : machine) :
  cpu_step m = (false, m') ->
  exists fuel, forall fuel', (fuel <= fuel')%nat ->
    cpu_run fuel' range m0 = Some (false, m').
Proof.
  intros Hstep.
  destruct (reaches_failing_step _ _ _ _ Hreach Htest Hstep) as [fuel Hfuel].
  exists fuel. intros fuel' Hle. rewrite cpu_run_eq. apply Hfuel. exact Hle.
Qed.

(** C3.  A divide whose resolved second operand is zero, in any state that
    the run reaches: the step reports failure, its only effect on the state
    is [running = false] (so the destination register, like every register,
    keeps its value), and [cpu_run] returns failure in that state. *)
Theorem division_by_zero_is_fatal :
  word_at m 0 = ISA_DIV ->
  word_at m 1 < MAX_REGISTERS ->
  (word_at m 2 = OPERAND_REGISTER /\ word_at m 3 < MAX_REGISTERS /\
   reg (cpu_of m) (word_at m 3) = 0) \/
  (word_at m 2 = OPERAND_NUMERIC /\ word_at m 3 = 0) ->
  cpu_step m = (false, stopped m) /\
  registers (cpu_of (stopped m)) = registers (cpu_of m) /\
  running (cpu_of (stopped m)) = false /\
  exists fuel, forall fuel', (fuel <= fuel')%nat ->
    cpu_run fuel' range m0 = Some (false, stopped m).
Proof.
  intros Hop Hdst Hsrc.
  assert (Hstep : cpu_step m = (false, stopped m)).
  { rewrite cpu_step_eq, Hop.
    change (execute_instruction ISA_DIV) with handle_div_execution.
    destruct Hsrc as [(Hmode & Hidx & Hzero) | (Hmode & Hzero)].
    - apply (div_by_zero_step m (word_at m 1)).
      rewrite resolve_arith_operands_register by assumption. rewrite Hzero. reflexivity.
    - apply (div_by_zero_step m (word_at m 1)).
      rewrite resolve_arith_operands_numeric by assumption. rewrite Hzero. reflexivity. }
  split; [exact Hstep | ]. split; [reflexivity | ]. split; [reflexivity | ].
  apply failing_step_ends_run. exact Hstep.
Qed.

(** C5.  An instruction one of whose operand words decodes to a
    general-register index of 8 or more, in any state that the run reaches:
    the handler reports failure, its only effect on the state is
    [running = false] (no register is written), and [cpu_run] returns failure
    in that state. *)
Theorem invalid_register_index_is_fatal :
  Exists (fun r => MAX_REGISTERS <= r) (register_operands m) ->
  cpu_step m = (false, stopped m) /\
  registers (cpu_of (stopped m)) = registers (cpu_of m) /\
  running (cpu_of (stopped m)) = false /\
  exists fuel, forall fuel', (fuel <= fuel')%nat ->
    cpu_run fuel' range m0 = Some (false, stopped m).
Proof.
  intros Hbad.
  pose proof (bad_register_step m Hbad) as Hstep.
  split; [exact Hstep | ]. split; [reflexivity | ]. split; [reflexivity | ].
  apply failing_step_ends_run. exact Hstep.
Qed.

(** An arithmetic or bitwise instruction with a mode tag other than 0 and 1
    makes [cpu_run] return failure without touching the state: [running]
    stays true. *)
Lemma invalid_operand_mode_keeps_running :
  is_arith_opcode (word_at m 0) = true ->
  word_at m 1 < MAX_REGISTERS ->
  word_at m 2 <> OPERAND_REGISTER ->
  word_at m 2 <> OPERAND_NUMERIC ->
  running (cpu_of m) = true /\
  exists fuel, forall fuel', (fuel <= fuel')%nat -> cpu_run fuel' range m0 = Some (false, m).
Proof.
  intros Hop Hdst Hm0 Hm1.
  split.
  { unfold loop_test in Htest. apply andb_true_iff in Htest. tauto. }
  apply failing_step_ends_run.
  rewrite cpu_step_eq. apply arith_gives_up; [exact Hop | ].
  apply resolve_arith_operands_bad_mode; assumption.
Qed.

End ReachedState.

Lemma division_by_zero_is_fatal_witness :
  cpu_step (run_entry sample_range sample_divide) = (false, stopped (run_entry sample_range sample_divide)) /\
  registers (cpu_of (stopped (run_entry sample_range sample_divide)))
  = registers (cpu_of (run_entry sample_range sample_divide)) /\
  running (cpu_of (stopped (run_entry sample_range sample_divide))) = false /\
  exists fuel, forall fuel', (fuel <= fuel')%nat ->
    cpu_run fuel' sample_range sample_divide
    = Some (false, stopped (run_entry sample_range sample_divide)).
Proof.
  apply (division_by_zero_is_fatal sample_range sample_divide
           (run_entry sample_range sample_divide)).
  - apply reaches_here.
  - vm_compute. reflexivity.
  - vm_compute. reflexivity.
  - vm_compute. reflexivity.
  - left. repeat split; vm_compute; reflexivity.
Defined.

Lemma invalid_register_index_is_fatal_witness :
  cpu_step (run_entry sample_range sample_bad_register)
  = (false, stopped (run_entry sample_range sample_bad_register)) /\
  registers (cpu_of (stopped (run_entry sample_range sample_bad_register)))
  = registers (cpu_of (run_entry sample_range sample_bad_register)) /\
  running (cpu_of (stopped (run_entry sample_range sample_bad_register))) = false /\
  exists fuel, forall fuel', (fuel <= fuel')%nat ->
    cpu_run fuel' sample_range sample_bad_register
    = Some (false, stopped (run_entry sample_range sample_bad_register)).
Proof.
  apply (invalid_register_index_is_fatal sample_range sample_bad_register
           (run_entry sample_range sample_bad_register)).
  - apply reaches_here.
  - vm_compute. reflexivity.
  - assert (E : register_operands (run_entry sample_range sample_bad_register) = [1; 9])
      by (vm_compute; reflexivity).
    rewrite E. apply Exists_cons_tl. apply Exists_cons_hd. unfold MAX_REGISTERS. lia.
Defined.

(** ** The run flag *)

(** A run that arrives at the end address returns success without touching
    the state: [running] stays true. *)
Lemma end_address_keeps_running (range : AssemblyRange) (m0 m : machine) :
  reaches (end_address range) (run_entry range m0) m ->
  running (cpu_of m) = true ->
  pc (cpu_of m) = end_address range ->
  exists fuel, forall fuel', (fuel <= fuel')%nat -> cpu_run fuel' range m0 = Some (true, m).
Proof.
  intros Hreach Hrun Hpc.
  assert (Htest : loop_test (end_address range) m = false).
  { unfold loop_test. rewrite Hrun, Hpc, Z.eqb_refl. reflexivity. }
  setoid_rewrite cpu_run_eq.
  induction Hreach as [m | m1 m2 m3 Ht Hs _ IH].
  - exists 0%nat. intros fuel' _. apply cpu_run_loop_done. exact Htest.
  - destruct (IH Hrun Hpc Htest) as [fuel Hfuel].
    exists (S fuel). intros fuel' Hle. destruct fuel' as [ | fuel']; [lia | ].
    rewrite (cpu_run_loop_next _ _ _ _ Ht Hs). apply Hfuel. lia.
Qed.

(** C2, on two programs run from the driver's initial state.  The first
    overwrites the mode tag of its [ADD] with 2: [cpu_run] returns failure and
    [running] is still true.  The second has no [HALT]: [cpu_run] returns
    success at the end address and [running] is still true.  In both,
    execution has stopped while the flag says otherwise. *)
Theorem running_flag_outlives_the_run :
  observe (assemble_and_run 10 program_bad_mode fresh_machine)
  = Some (Some false,
          {| pc := 7;
             address_registers := [0; 0; 0; 0; 0; 0; 0; 0];
             registers := [2; 0; 0; 0; 0; 0; 0; 0];
             zero_flag := false; negative_flag := false;
             running := true |}) /\
  observe (assemble_and_run 10 program_no_halt fresh_machine)
  = Some (Some true,
          {| pc := 3;
             address_registers := [0; 0; 0; 0; 0; 0; 0; 0];
             registers := [5; 0; 0; 0; 0; 0; 0; 0];
             zero_flag := false; negative_flag := false;
             running := true |}).
Proof. split; vm_compute; reflexivity. Qed.

(** ** Word counts *)

Lemma emit_pc (v : Z) (m m' : machine) :
  emit v m = Some (tt, m') ->
  0 <= pc (cpu_of m) < RAM_SIZE /\ pc (cpu_of m') = pc (cpu_of m) + 1.
Proof.
  unfold emit.
  destruct ((0 <=? pc (cpu_of m)) && (pc (cpu_of m) <? RAM_SIZE)) eqn:E; [ | discriminate].
  apply andb_true_iff in E. destruct E as [E1 E2].
  apply Z.leb_le in E1. apply Z.ltb_lt in E2.
  intros [= <-]. cbn [cpu_of with_pc pc]. split; [lia | ].
  apply wrap32_small. unfold is_uint32, UINT32_MODULUS, RAM_SIZE in *. lia.
Qed.

Lemma emit_all_pc (ws : list Z) :
  forall m m' : machine,
    emit_all ws m = Some (tt, m') ->
    pc (cpu_of m') = pc (cpu_of m) + Z.of_nat (length ws).
Proof.
  induction ws as [ | w ws IH]; intros m m'.
  - cbn [emit_all length]. unfold aret. intros [= <-]. lia.
  - cbn [emit_all length]. unfold abind.
    destruct (emit w m) as [[[] m1] | ] eqn:E; [ | discriminate].
    intros H. apply IH in H. apply emit_pc in E. lia.
Qed.

Lemma emit_all_then_true (ws : list Z) (m m' : machine) :
  (let+ _ := emit_all ws in aret true) m = Some (true, m') ->
  pc (cpu_of m') = pc (cpu_of m) + Z.of_nat (length ws).
Proof.
  unfold abind. destruct (emit_all ws m) as [[[] m1] | ] eqn:E; [ | discriminate].
  unfold aret. intros [= <-]. apply emit_all_pc. exact E.
Qed.

Lemma aret_false_not_true (m m' : machine) (P : Prop) :
  aret false m = Some (true, m') -> P.
Proof. unfold aret. discriminate. Qed.

Lemma handle_loadi_instruction_emits (op1 op2 : option string) (m m' : machine) :
  handle_loadi_instruction op1 op2 m = Some (true, m') -> pc (cpu_of m') = pc (cpu_of m) + 3.
Proof.
  unfold handle_loadi_instruction.
  destruct op1 as [s1 | ]; [ | apply aret_false_not_true].
  destruct op2 as [s2 | ]; [ | apply aret_false_not_true].
  destruct (negb (require_all_not_failure [parse_register (Some s1)]));
    [apply aret_false_not_true | ].
  intros H. apply emit_all_then_true in H. exact H.
Qed.

Lemma handle_loada_instruction_emits (op1 op2 : option string) (m m' : machine) :
  handle_loada_instruction op1 op2 m = Some (true, m') -> pc (cpu_of m') = pc (cpu_of m) + 3.
Proof.
  unfold handle_loada_instruction.
  repeat match goal with
         | |- (if ?c then _ else _) _ = _ -> _ => destruct c; [apply aret_false_not_true | ]
         end.
  intros H. apply emit_all_then_true in H. exact H.
Qed.

Lemma handle_loadm_instruction_emits (op1 op2 : option string) (m m' : machine) :
  handle_loadm_instruction op1 op2 m = Some (true, m') -> pc (cpu_of m') = pc (cpu_of m) + 4.
Proof.
  unfold handle_loadm_instruction.
  destruct (negb (require_two_operands op1 op2)); [apply aret_false_not_true | ].
  destruct (parse_address_parenthesis op2 false) as [addr is_literal].
  destruct (negb (memory_operands_ok (parse_register op1) addr is_literal));
    [apply aret_false_not_true | ].
  intros H. apply emit_all_then_true in H. exact H.
Qed.

Lemma handle_storem_instruction_emits (op1 op2 : option string) (m m' : machine) :
  handle_storem_instruction op1 op2 m = Some (true, m') -> pc (cpu_of m') = pc (cpu_of m) + 4.
Proof.
  unfold handle_storem_instruction.
  destruct (negb (require_two_operands op1 op2)); [apply aret_false_not_true | ].
  destruct (parse_address_parenthesis op1 false) as [addr is_literal].
  destruct (negb (memory_operands_ok (parse_register op2) addr is_literal));
    [apply aret_false_not_true | ].
  intros H. apply emit_all_then_true in H. exact H.
Qed.

Lemma handle_arithmetic_instruction_emits (opcode : Z) (op1 op2 : option string)
      (m m' : machine) :
  handle_arithmetic_instruction opcode op1 op2 m = Some (true, m') ->
  pc (cpu_of m') = pc (cpu_of m) + 4.
Proof.
  unfold handle_arithmetic_instruction.
  repeat match goal with
         | |- (if negb (_ =? FAILURE) then _ else _) _ = _ -> _ => fail 1
         | |- (if ?c then _ else _) _ = _ -> _ => destruct c; [apply aret_false_not_true | ]
         end.
  destruct (negb (parse_register op2 =? FAILURE)).
  - intros H. apply emit_all_then_true in H. exact H.
  - destruct op2 as [s2 | ]; [ | apply aret_false_not_true].
    repeat match goal with
           | |- (if ?c then _ else _) _ = _ -> _ => destruct c; [apply aret_false_not_true | ]
           end.
    intros H. apply emit_all_then_true in H. exact H.
Qed.

Lemma handle_cmp_instruction_emits (op1 op2 : option string) (m m' : machine) :
  handle_cmp_instruction op1 op2 m = Some (true, m') -> pc (cpu_of m') = pc (cpu_of m) + 3.
Proof.
  unfold handle_cmp_instruction.
  repeat match goal with
         | |- (if ?c then _ else _) _ = _ -> _ => destruct c; [apply aret_false_not_true | ]
         end.
  intros H. apply emit_all_then_true in H. exact H.
Qed.

Lemma handle_jmp_instructions_emits (opcode : Z) (op1 : option string) (labels : list Label)
      (m m' : machine) :
  handle_jmp_instructions opcode op1 labels m = Some (true, m') ->
  pc (cpu_of m') = pc (cpu_of m) + 2.
Proof.
  unfold handle_jmp_instructions.
  destruct op1 as [s1 | ]; [ | apply aret_false_not_true].
  match goal with
  | |- (if ?c then _ else _) _ = _ -> _ => destruct c; [apply aret_false_not_true | ]
  end.
  intros H. apply emit_all_then_true in H. exact H.
Qed.

Lemma is_opcode_cases (opcode : Z) :
  is_opcode opcode = true ->
  opcode = ISA_LOADI \/ opcode = ISA_LOADA \/ opcode = ISA_LOADM \/ opcode = ISA_STOREM \/
  is_arith_opcode opcode = true \/
  opcode = ISA_JMP \/ opcode = ISA_JZ \/ opcode = ISA_JNZ \/ opcode = ISA_CMP \/
  opcode = ISA_HALT.
Proof.
  unfold is_opcode, opcode_table, is_arith_opcode. cbn [existsb snd].
  rewrite !orb_true_iff, !Z.eqb_eq. intuition congruence.
Qed.

(** Pass 2 emits the specification's count for every opcode. *)
Lemma pass2_emits_spec_word_count (opcode : Z) :
  is_opcode opcode = true -> pass2_emits opcode (spec_word_count opcode).
Proof.
  intros Hop op1 op2 labels m m'.
  destruct (is_opcode_cases opcode Hop)
    as [-> | [-> | [-> | [-> | [Ha | [-> | [-> | [-> | [-> | ->]]]]]]]]].
  - apply handle_loadi_instruction_emits.
  - apply handle_loada_instruction_emits.
  - apply handle_loadm_instruction_emits.
  - apply handle_storem_instruction_emits.
  - destruct (is_arith_opcode_cases opcode Ha) as [-> | [-> | [-> | [-> | [-> | [-> | ->]]]]]];
      apply handle_arithmetic_instruction_emits.
  - apply (handle_jmp_instructions_emits ISA_JMP).
  - apply (handle_jmp_instructions_emits ISA_JZ).
  - apply (handle_jmp_instructions_emits ISA_JNZ).
  - apply handle_cmp_instruction_emits.
  - change (pass2_emit ISA_HALT op1 op2 labels) with (let+ _ := emit ISA_HALT in aret true).
    change (spec_word_count ISA_HALT) with 1.
    unfold abind. destruct (emit ISA_HALT m) as [[[] m1] | ] eqn:E; [ | discriminate].
    unfold aret. intros [= <-]. apply emit_pc in E. tauto.
Qed.

(** Pass 1 sizes every opcode but compare by the specification's count. *)
Lemma pass1_size_spec_word_count (opcode : Z) :
  is_opcode opcode = true -> opcode <> ISA_CMP -> pass1_size opcode = spec_word_count opcode.
Proof.
  intros Hop Hne.
  destruct (is_opcode_cases opcode Hop)
    as [-> | [-> | [-> | [-> | [Ha | [-> | [-> | [-> | [-> | ->]]]]]]]]];
    try reflexivity; try congruence.
  destruct (is_arith_opcode_cases opcode Ha) as [-> | [-> | [-> | [-> | [-> | [-> | ->]]]]]];
    reflexivity.
Qed.

(** Every way through a handler: unfold it down to the primitives, split on
    each test, and keep the branches that return [true]. *)
Ltac handler_branches :=
  unfold arith_execution;
  unfold require, resolve_target_address, resolve_arith_operands,
    is_reg_index_valid_runtime, is_addr_index_valid_runtime,
    is_addr_literal_valid_runtime, is_memory_access_valid_runtime;
  run_exec;
  rewrite ?get_value_in_ram_eq;
  repeat (cbv beta iota; run_exec; cbn [negb];
          match goal with
          | |- context [if negb ?c then _ else _] => destruct c; cbn [negb]
          | |- context [if ?c then _ else _] => destruct c
          end);
  cbv beta iota; run_exec; cbn [negb];
  (let H := fresh "H" in
   intros H;
   first [ discriminate H
         | injection H as <-;
           cbn [cpu_of pc with_pc with_zero_flag with_negative_flag with_register
                with_address_register with_running] ]).

Lemma handle_loadi_execution_pc (m m' : machine) :
  handle_loadi_execution m = (true, m') -> pc (cpu_of m') = wrap32 (pc (cpu_of m) + 3).
Proof. unfold handle_loadi_execution. handler_branches; reflexivity. Qed.

Lemma handle_loada_execution_pc (m m' : machine) :
  handle_loada_execution m = (true, m') -> pc (cpu_of m') = wrap32 (pc (cpu_of m) + 3).
Proof. unfold handle_loada_execution. handler_branches; reflexivity. Qed.

Lemma handle_loadm_execution_pc (m m' : machine) :
  handle_loadm_execution m = (true, m') -> pc (cpu_of m') = wrap32 (pc (cpu_of m) + 4).
Proof. unfold handle_loadm_execution. handler_branches; reflexivity. Qed.

Lemma handle_storem_execution_pc (m m' : machine) :
  handle_storem_execution m = (true, m') -> pc (cpu_of m') = wrap32 (pc (cpu_of m) + 4).
Proof. unfold handle_storem_execution. handler_branches; reflexivity. Qed.

Lemma arith_execution_pc (op : Z -> Z -> Z) (m m' : machine) :
  arith_execution op m = (true, m') -> pc (cpu_of m') = wrap32 (pc (cpu_of m) + 4).
Proof. handler_branches; reflexivity. Qed.

Lemma handle_div_execution_pc (m m' : machine) :
  handle_div_execution m = (true, m') -> pc (cpu_of m') = wrap32 (pc (cpu_of m) + 4).
Proof. unfold handle_div_execution. handler_branches; reflexivity. Qed.

Lemma handle_cmp_execution_pc (m m' : machine) :
  handle_cmp_execution m = (true, m') -> pc (cpu_of m') = wrap32 (pc (cpu_of m) + 3).
Proof. unfold handle_cmp_execution. handler_branches; reflexivity. Qed.

Lemma handle_jz_execution_pc (m m' : machine) :
  handle_jz_execution m = (true, m') -> zero_flag (cpu_of m) = false ->
  pc (cpu_of m') = wrap32 (pc (cpu_of m) + 2).
Proof. unfold handle_jz_execution. handler_branches; intros Hz; first [discriminate Hz | reflexivity]. Qed.

Lemma handle_jnz_execution_pc (m m' : machine) :
  handle_jnz_execution m = (true, m') -> zero_flag (cpu_of m) = true ->
  pc (cpu_of m') = wrap32 (pc (cpu_of m) + 2).
Proof. unfold handle_jnz_execution. handler_branches; intros Hz; first [discriminate Hz | reflexivity]. Qed.

Lemma is_opcode_nonzero (opcode : Z) : is_opcode opcode = true -> opcode <> 0.
Proof.
  intros Hop ->. vm_compute in Hop. discriminate.
Qed.

Lemma jump_taken_false_cases (m : machine) :
  jump_taken m = false ->
  word_at m 0 <> ISA_JMP /\
  (word_at m 0 = ISA_JZ -> zero_flag (cpu_of m) = false) /\
  (word_at m 0 = ISA_JNZ -> zero_flag (cpu_of m) = true).
Proof.
  unfold jump_taken. intros H.
  apply orb_false_iff in H. destruct H as [H H3].
  apply orb_false_iff in H. destruct H as [H1 H2].
  split; [apply Z.eqb_neq; exact H1 | split].
  - intros E. rewrite E in H2. cbn [Z.eqb ISA_JZ Pos.eqb andb] in H2. exact H2.
  - intros E. rewrite E in H3. cbn [Z.eqb ISA_JNZ Pos.eqb andb] in H3.
    destruct (zero_flag (cpu_of m)); [reflexivity | discriminate].
Qed.

Ltac finish_advance :=
  match goal with
  | |- _ = _ + spec_word_count ?o =>
      let n := eval vm_compute in (spec_word_count o) in
      change (spec_word_count o) with n
  end;
  apply pc_advance_exact; (assumption || lia).

(** The interpreter advances by the specification's count over every
    instruction but halt. *)
Lemma interpreter_advances_spec_word_count (opcode : Z) :
  is_opcode opcode = true -> opcode <> ISA_HALT ->
  interpreter_advances opcode (spec_word_count opcode).
Proof.
  intros Hop Hne m m' Hpc Hw Hstep Hnot.
  assert (Hin : pc (cpu_of m) < RAM_SIZE).
  { apply opcode_fetch_in_bounds; [exact Hpc | ].
    rewrite Hw. apply is_opcode_nonzero. exact Hop. }
  destruct (jump_taken_false_cases m Hnot) as (Hjmp & Hjz & Hjnz).
  rewrite cpu_step_eq, Hw in Hstep.
  destruct (is_opcode_cases opcode Hop)
    as [-> | [-> | [-> | [-> | [Ha | [-> | [-> | [-> | [-> | ->]]]]]]]]].
  - apply handle_loadi_execution_pc in Hstep. rewrite Hstep.
    finish_advance.
  - apply handle_loada_execution_pc in Hstep. rewrite Hstep.
    finish_advance.
  - apply handle_loadm_execution_pc in Hstep. rewrite Hstep.
    finish_advance.
  - apply handle_storem_execution_pc in Hstep. rewrite Hstep.
    finish_advance.
  - destruct (is_arith_opcode_cases opcode Ha) as [-> | [-> | [-> | [-> | [-> | [-> | ->]]]]]].
    + apply (arith_execution_pc _ m m') in Hstep. rewrite Hstep.
      finish_advance.
    + apply (arith_execution_pc _ m m') in Hstep. rewrite Hstep.
      finish_advance.
    + apply (arith_execution_pc _ m m') in Hstep. rewrite Hstep.
      finish_advance.
    + apply handle_div_execution_pc in Hstep. rewrite Hstep.
      finish_advance.
    + apply (arith_execution_pc _ m m') in Hstep. rewrite Hstep.
      finish_advance.
    + apply (arith_execution_pc _ m m') in Hstep. rewrite Hstep.
      finish_advance.
    + apply (arith_execution_pc _ m m') in Hstep. rewrite Hstep.
      finish_advance.
  - contradiction.
  - apply handle_jz_execution_pc in Hstep; [ | apply Hjz; exact Hw]. rewrite Hstep.
    finish_advance.
  - apply handle_jnz_execution_pc in Hstep; [ | apply Hjnz; exact Hw]. rewrite Hstep.
    finish_advance.
  - apply handle_cmp_execution_pc in Hstep. rewrite Hstep.
    finish_advance.
  - contradiction.
Qed.

(** Halt stops the loop where it stands. *)
Lemma halt_step (m : machine) :
  word_at m 0 = ISA_HALT -> cpu_step m = (true, stopped m).
Proof. intros H. rewrite cpu_step_eq, H. reflexivity. Qed.

Lemma interpreter_advances_halt : interpreter_advances ISA_HALT 0.
Proof.
  intros m m' _ Hw Hstep _. rewrite (halt_step m Hw) in Hstep.
  injection Hstep as <-. cbn [stopped cpu_of with_running pc]. lia.
Qed.

(** C1, as stated, fails.  The interpreter does not advance over a halt,
    which both passes count as one word; and pass 1 has no case for compare,
    so that it sizes by the default of one word an instruction for which
    pass 2 emits three. *)
Lemma word_count_contract_fails :
  ~ word_count_contract /\
  (pass1_size ISA_HALT = 1 /\
   cpu_step sample_halt = (true, stopped sample_halt) /\
   pc (cpu_of (stopped sample_halt)) = pc (cpu_of sample_halt)) /\
  (pass1_size ISA_CMP = 1 /\
   spec_word_count ISA_CMP = 3 /\
   option_map (fun r => pc (cpu_of (snd r)))
     (pass2_emit ISA_CMP (Some "R0"%string) (Some "R1"%string) [] fresh_machine) = Some 3).
Proof.
  assert (Hhalt : cpu_step sample_halt = (true, stopped sample_halt)).
  { apply halt_step. vm_compute. reflexivity. }
  split; [ | split; [split; [reflexivity | split; [exact Hhalt | reflexivity]] | ]].
  - intros Hcontract.
    destruct (Hcontract ISA_HALT eq_refl) as (_ & _ & Hadv).
    specialize (Hadv sample_halt (stopped sample_halt)).
    assert (Habs : pc (cpu_of (stopped sample_halt))
                   = pc (cpu_of sample_halt) + spec_word_count ISA_HALT).
    { apply Hadv.
      - vm_compute. split; [discriminate | reflexivity].
      - vm_compute. reflexivity.
      - exact Hhalt.
      - vm_compute. reflexivity. }
    vm_compute in Habs. discriminate.
  - split; [reflexivity | split; [reflexivity | vm_compute; reflexivity]].
Qed.

(** C1, amended.  For each of the sixteen opcodes: pass 1 sizes it by the
    specification's count unless it is compare; pass 2 emits the
    specification's count of words for it; the interpreter, after a
    successful step that is not a taken control transfer, has advanced by the
    specification's count unless it is halt, over which it does not
    advance. *)
Theorem word_counts_agree :
  forall opcode : Z,
    is_opcode opcode = true ->
    (opcode <> ISA_CMP -> pass1_size opcode = spec_word_count opcode) /\
    pass2_emits opcode (spec_word_count opcode) /\
    (opcode <> ISA_HALT -> interpreter_advances opcode (spec_word_count opcode)) /\
    (opcode = ISA_HALT -> interpreter_advances opcode 0).
Proof.
  intros opcode Hop. split; [ | split; [ | split]].
  - apply pass1_size_spec_word_count. exact Hop.
  - apply pass2_emits_spec_word_count. exact Hop.
  - apply interpreter_advances_spec_word_count. exact Hop.
  - intros ->. apply interpreter_advances_halt.
Qed.

Lemma word_counts_agree_witness :
  (ISA_ADD <> ISA_CMP -> pass1_size ISA_ADD = spec_word_count ISA_ADD) /\
  pass2_emits ISA_ADD (spec_word_count ISA_ADD) /\
  (ISA_ADD <> ISA_HALT -> interpreter_advances ISA_ADD (spec_word_count ISA_ADD)) /\
  (ISA_ADD = ISA_HALT -> interpreter_advances ISA_ADD 0).
Proof. apply (word_counts_agree ISA_ADD). reflexivity. Defined.

(** What the mis-sized compare costs: a label behind it is bound two words
    short of its instruction, and the jump to it lands inside the preceding
    instruction. *)
Lemma forward_label_behind_compare :
  observe (assemble_and_run 10 program_jump_over_cmp fresh_machine)
  = Some (Some false,
          {| pc := 9;
             address_registers := [0; 0; 0; 0; 0; 0; 0; 0];
             registers := [1; 0; 0; 0; 0; 0; 0; 0];
             zero_flag := true; negative_flag := false;
             running := false |}).
Proof. vm_compute. reflexivity. Qed.

(** ** The number of iterations allowed *)

(** The outcome of assembling and running does not depend on the number of
    loop iterations the run is allowed, once that number lets it end. *)
Lemma assemble_and_run_fuel_independent :
  forall (source : string) (cpu : CPU) (ram : RAM) (fuel1 fuel2 : nat)
         (r1 r2 : option bool * machine),
    assemble_and_run fuel1 source (mkMachine cpu ram) = Some r1 ->
    assemble_and_run fuel2 source (mkMachine cpu ram) = Some r2 ->
    r1 = r2 /\ cpu_of (snd r1) = cpu_of (snd r2).
Proof.
  intros source cpu ram fuel1 fuel2 r1 r2 H1 H2.
  assert (E : r1 = r2); [ | split; [exact E | rewrite E; reflexivity]].
  unfold assemble_and_run in *.
  destruct (assemble source (mkMachine cpu ram)) as [[range m1] | ]; [ | discriminate].
  destruct (error range).
  - congruence.
  - unfold cpu_run in *.
    destruct (cpu_run_loop fuel1 _ _) as [[ok1 m2] | ] eqn:E1; [ | discriminate].
    destruct (cpu_run_loop fuel2 _ _) as [[ok2 m3] | ] eqn:E2; [ | discriminate].
    pose proof (cpu_run_loop_deterministic _ _ _ _ _ _ E1 E2) as E.
    injection E as -> ->. congruence.
Qed.

Lemma has_result_eq {A : Type} (d : A) (o : option A) :
  has_result o = true -> o = Some (default d o).
Proof. destruct o; [reflexivity | discriminate]. Qed.

(** ** The scenarios of the specification *)

Example scenario_A_runs :
  observe (assemble_and_run 10 scenario_A fresh_machine)
  = Some (Some true,
          {| pc := 10;
             address_registers := [0; 0; 0; 0; 0; 0; 0; 0];
             registers := [8; 3; 0; 0; 0; 0; 0; 0];
             zero_flag := false; negative_flag := false;
             running := false |}).
Proof. vm_compute. reflexivity. Qed.

Example scenario_B_runs :
  observe (assemble_and_run 10 scenario_B fresh_machine)
  = Some (Some false,
          {| pc := 6;
             address_registers := [0; 0; 0; 0; 0; 0; 0; 0];
             registers := [10; 0; 0; 0; 0; 0; 0; 0];
             zero_flag := true; negative_flag := false;
             running := false |}).
Proof. vm_compute. reflexivity. Qed.

Example scenario_C_runs :
  observe (assemble_and_run 40 scenario_C fresh_machine)
  = Some (Some true,
          {| pc := 15;
             address_registers := [0; 0; 0; 0; 0; 0; 0; 0];
             registers := [5; 5; 0; 0; 0; 0; 0; 0];
             zero_flag := true; negative_flag := false;
             running := false |}).
Proof. vm_compute. reflexivity. Qed.

(** * Further properties *)

(** ** Memory: clearing and storing *)

Lemma lookup_cleared (l : list Z) (s c n : nat) :
  (s + c <= length l)%nat ->
  (take s l ++ replicate c 0 ++ drop (s + c) l) !! n =
  if ((s <=? n)%nat && (n <? s + c)%nat)%bool then Some 0 else l !! n.
Proof.
  intros Hlen.
  destruct (Nat.leb_spec s n) as [Hsn | Hsn]; cbn [andb].
  - rewrite lookup_app_r by (rewrite length_take; lia).
    rewrite length_take, Nat.min_l by lia.
    destruct (Nat.ltb_spec n (s + c)) as [Hn | Hn].
    + rewrite lookup_app_l by (rewrite length_replicate; lia).
      apply lookup_replicate_2. lia.
    + rewrite lookup_app_r by (rewrite length_replicate; lia).
      rewrite length_replicate, lookup_drop. f_equal. lia.
  - rewrite lookup_app_l by (rewrite length_take; lia).
    apply lookup_take_lt. exact Hsn.
Qed.

(** X1.  [ram_free] on a range [start <= end < 65536] succeeds, reads 0 at
    every address of the inclusive range afterwards, leaves every other cell
    as it was and keeps the memory at its size; on any other range it fails
    and returns the memory untouched. *)
Theorem ram_free_clears_range :
  forall (ram : RAM) (start end_ : Z),
    ram_wf ram -> 0 <= start -> 0 <= end_ ->
    (start <= end_ < RAM_SIZE ->
       fst (ram_free ram start end_) = true /\
       ram_wf (snd (ram_free ram start end_)) /\
       forall a : Z, 0 <= a ->
         cell (snd (ram_free ram start end_)) a
         = if (start <=? a) && (a <=? end_) then 0 else cell ram a) /\
    (RAM_SIZE <= start \/ RAM_SIZE <= end_ \/ end_ < start ->
       ram_free ram start end_ = (false, ram)).
Proof.
  intros ram start end_ [Hlen Hall] Hs He. unfold ram_free, is_address_valid. split.
  - intros Hr.
    assert (E1 : (start <? RAM_SIZE) = true) by (apply Z.ltb_lt; lia).
    assert (E2 : (end_ <? RAM_SIZE) = true) by (apply Z.ltb_lt; lia).
    assert (E3 : (end_ <? start) = false) by (apply Z.ltb_ge; lia).
    rewrite E1, E2, E3. cbn [negb orb fst snd].
    assert (Hfit : (Z.to_nat start + Z.to_nat (end_ - start + 1) <= length (cells ram))%nat).
    { rewrite Hlen. unfold RAM_SIZE in *. lia. }
    split; [reflexivity | split; [split | ]].
    + cbn [cells]. rewrite !length_app, length_take, length_replicate, length_drop. lia.
    + cbn [cells]. repeat apply Forall_app_2.
      * apply Forall_take. exact Hall.
      * apply Forall_replicate. unfold is_uint32, UINT32_MODULUS. lia.
      * apply Forall_drop. exact Hall.
    + intros a Ha. unfold cell. cbn [cells].
      rewrite lookup_cleared by exact Hfit.
      destruct (Z.leb_spec start a) as [H1 | H1]; destruct (Z.leb_spec a end_) as [H2 | H2];
        cbn [andb];
        destruct (Nat.leb_spec (Z.to_nat start) (Z.to_nat a)) as [H3 | H3];
        destruct (Nat.ltb_spec (Z.to_nat a) (Z.to_nat start + Z.to_nat (end_ - start + 1)))
          as [H4 | H4];
        cbn [andb default]; try reflexivity; lia.
  - intros Hbad.
    destruct (start <? RAM_SIZE) eqn:E1; cbn [negb orb]; [ | reflexivity].
    destruct (end_ <? RAM_SIZE) eqn:E2; cbn [negb orb]; [ | reflexivity].
    destruct (end_ <? start) eqn:E3; [reflexivity | ].
    apply Z.ltb_lt in E1. apply Z.ltb_lt in E2. apply Z.ltb_ge in E3. lia.
Qed.

Lemma ram_free_clears_range_witness :
  (fst (ram_free ram_init 2 5) = true /\
   ram_wf (snd (ram_free ram_init 2 5)) /\
   forall a : Z, 0 <= a ->
     cell (snd (ram_free ram_init 2 5)) a
     = if (2 <=? a) && (a <=? 5) then 0 else cell ram_init a) /\
  ram_free ram_init 5 2 = (false, ram_init).
Proof.
  split.
  - apply (ram_free_clears_range ram_init 2 5 ram_init_wf); unfold RAM_SIZE; lia.
  - apply (ram_free_clears_range ram_init 5 2 ram_init_wf); lia.
Defined.

(** X2.  Clearing the whole address range returns any memory to the state
    [ram_init] leaves it in. *)
Theorem ram_free_everything :
  forall ram : RAM, ram_wf ram -> ram_free ram 0 (RAM_SIZE - 1) = (true, ram_init).
Proof.
  intros ram [Hlen Hall]. unfold ram_free, is_address_valid.
  assert (E1 : (0 <? RAM_SIZE) = true) by reflexivity.
  assert (E2 : (RAM_SIZE - 1 <? RAM_SIZE) = true) by reflexivity.
  assert (E3 : (RAM_SIZE - 1 <? 0) = false) by reflexivity.
  rewrite E1, E2, E3. cbn [negb orb].
  assert (Hc : Z.to_nat (RAM_SIZE - 1 - 0 + 1) = Z.to_nat RAM_SIZE) by (f_equal; lia).
  rewrite Hc. change (Z.to_nat 0) with 0%nat.
  rewrite take_0, Nat.add_0_l, drop_ge by lia.
  rewrite app_nil_l, app_nil_r. reflexivity.
Qed.

Lemma ram_free_everything_witness :
  ram_free (set_cell ram_init 7 9) 0 (RAM_SIZE - 1) = (true, ram_init).
Proof.
  apply ram_free_everything. apply set_cell_wf; [apply ram_init_wf | ].
  unfold is_uint32, UINT32_MODULUS. lia.
Defined.

(** X3.  A successful [ram_store] keeps the memory well-formed, changes no
    cell but the addressed one, and a second store to the same address
    replaces the first. *)
Theorem ram_store_frame :
  forall (ram : RAM) (a v : Z),
    ram_wf ram -> 0 <= a < RAM_SIZE -> is_uint32 v ->
    ram_wf (snd (ram_store ram a v)) /\
    (forall b out : Z, 0 <= b < RAM_SIZE -> b <> a ->
       ram_load (snd (ram_store ram a v)) b out
       = (true, cell ram b, snd (ram_store ram a v))) /\
    (forall v' : Z,
       snd (ram_store (snd (ram_store ram a v)) a v') = snd (ram_store ram a v')).
Proof.
  intros ram a v Hwf Ha Hv.
  assert (E : (a <? RAM_SIZE) = true) by (apply Z.ltb_lt; lia).
  split; [ | split].
  - unfold ram_store, is_address_valid. rewrite E. cbn [negb snd].
    apply set_cell_wf; assumption.
  - intros b out Hb Hne. apply ram_store_other; lia.
  - intros v'. unfold ram_store, is_address_valid. rewrite E. cbn [negb snd].
    unfold set_cell. cbn [cells]. rewrite list_insert_insert_eq. reflexivity.
Qed.

Lemma ram_store_frame_witness :
  ram_wf (snd (ram_store ram_init 10 3)) /\
  (forall b out : Z, 0 <= b < RAM_SIZE -> b <> 10 ->
     ram_load (snd (ram_store ram_init 10 3)) b out
     = (true, cell ram_init b, snd (ram_store ram_init 10 3))) /\
  (forall v' : Z,
     snd (ram_store (snd (ram_store ram_init 10 3)) 10 v') = snd (ram_store ram_init 10 v')).
Proof.
  apply (ram_store_frame ram_init 10 3 ram_init_wf).
  - unfold RAM_SIZE. lia.
  - unfold is_uint32, UINT32_MODULUS. lia.
Defined.

(** ** Validation: the two forms and the range rule *)

(** X4.  On every 32-bit value each run-time validator returns what its
    assembly-time form returns, leaves the state untouched when that is
    success, and on failure changes nothing but [running], which it clears. *)
Theorem runtime_validators_agree :
  forall (m : machine) (x size : Z),
    is_uint32 x ->
    is_reg_index_valid_runtime x m
    = (is_reg_index_valid_asm x, if is_reg_index_valid_asm x then m else stopped m) /\
    is_addr_index_valid_runtime x m
    = (is_addr_index_valid_asm x, if is_addr_index_valid_asm x then m else stopped m) /\
    is_addr_literal_valid_runtime x m
    = (is_addr_literal_valid x, if is_addr_literal_valid x then m else stopped m) /\
    is_memory_access_valid_runtime x size m
    = (is_memory_access_valid x size,
       if is_memory_access_valid x size then m else stopped m).
Proof.
  intros m x size [Hx _].
  assert (E : (x <? 0) = false) by (apply Z.ltb_ge; exact Hx).
  unfold is_reg_index_valid_runtime, is_reg_index_valid_asm,
    is_addr_index_valid_runtime, is_addr_index_valid_asm,
    is_addr_literal_valid_runtime, is_addr_literal_valid,
    is_memory_access_valid_runtime.
  rewrite E. cbn [orb].
  repeat split.
  - destruct (MAX_REGISTERS <=? x); reflexivity.
  - destruct (MAX_ADDRESS_REGISTERS <=? x); reflexivity.
  - destruct (RAM_SIZE <=? x); reflexivity.
  - destruct (is_memory_access_valid x size); reflexivity.
Qed.

Lemma runtime_validators_agree_witness :
  is_reg_index_valid_runtime 9 fresh_machine
  = (is_reg_index_valid_asm 9,
     if is_reg_index_valid_asm 9 then fresh_machine else stopped fresh_machine).
Proof.
  apply (runtime_validators_agree fresh_machine 9 1).
  unfold is_uint32, UINT32_MODULUS. lia.
Defined.

(** X5.  A non-empty access is valid exactly when every address it touches
    is a valid literal address. *)
Theorem memory_access_valid_all_addresses :
  forall start size : Z,
    is_uint32 start -> is_uint32 size -> 0 < size ->
    (is_memory_access_valid start size = true <->
     forall a : Z, start <= a < start + size -> is_addr_literal_valid a = true).
Proof.
  intros start size Hs Hz Hpos.
  rewrite (is_memory_access_valid_tests start size Hs Hz).
  unfold is_addr_literal_valid, is_uint32, UINT32_MODULUS, RAM_SIZE in *.
  split.
  - intros [H1 [H2 | [H2 H3]]] a Ha; [lia | ].
    destruct (65536 <=? a) eqn:E; [apply Z.leb_le in E; lia | reflexivity].
  - intros H.
    assert (Hlast : (65536 <=? start + size - 1) = false).
    { specialize (H (start + size - 1) ltac:(lia)).
      destruct (65536 <=? start + size - 1); [discriminate | reflexivity]. }
    assert (Hfirst : (65536 <=? start) = false).
    { specialize (H start ltac:(lia)).
      destruct (65536 <=? start); [discriminate | reflexivity]. }
    apply Z.leb_gt in Hlast. apply Z.leb_gt in Hfirst. lia.
Qed.

Lemma memory_access_valid_all_addresses_witness :
  is_memory_access_valid 65530 6 = true <->
  forall a : Z, 65530 <= a < 65530 + 6 -> is_addr_literal_valid a = true.
Proof.
  apply (memory_access_valid_all_addresses 65530 6);
    unfold is_uint32, UINT32_MODULUS; lia.
Defined.

(** ** Interpreter: what a step changes *)

Lemma reg_with_register_eq (cpu : CPU) (i v : Z) :
  cpu_wf cpu -> 0 <= i < MAX_REGISTERS -> reg (with_register i v cpu) i = v.
Proof.
  intros (_ & _ & _ & Hlen & _) Hi. unfold reg, with_register. cbn [registers].
  rewrite list_lookup_insert_eq; [reflexivity | ].
  rewrite Hlen. unfold MAX_REGISTERS in *. lia.
Qed.

Lemma reg_with_register_ne (cpu : CPU) (i j v : Z) :
  0 <= i -> 0 <= j -> i <> j -> reg (with_register i v cpu) j = reg cpu j.
Proof.
  intros Hi Hj Hne. unfold reg, with_register. cbn [registers].
  rewrite list_lookup_insert_ne; [reflexivity | lia].
Qed.

(** Every branch of every handler, with the opcode tests kept. *)
Ltac step_cases :=
  rewrite cpu_step_eq; unfold execute_instruction;
  repeat match goal with
         | |- context [if ?x =? ?c then _ else _] => destruct (Z.eqb_spec x c)
         end;
  unfold handle_loadi_execution, handle_loada_execution, handle_loadm_execution,
    handle_storem_execution, handle_add_execution, handle_sub_execution,
    handle_mlp_execution, handle_div_execution, handle_and_execution,
    handle_or_execution, handle_xor_execution, handle_jmp_execution,
    handle_jz_execution, handle_jnz_execution, handle_cmp_execution;
  handler_states.

(** X6.  A step that reports failure has changed nothing or nothing but
    [running]: registers, address registers, flags, program counter and
    memory are what they were. *)
Theorem failed_step_changes_only_running :
  forall m m' : machine,
    cpu_step m = (false, m') -> m' = m \/ m' = stopped m.
Proof.
  intros m m'. step_cases;
    (let H := fresh "H" in
     intros H; first [discriminate H | injection H as <-; auto]).
Qed.

Lemma failed_step_changes_only_running_witness :
  stopped (run_entry sample_range sample_bad_register)
  = run_entry sample_range sample_bad_register \/
  stopped (run_entry sample_range sample_bad_register)
  = stopped (run_entry sample_range sample_bad_register).
Proof.
  apply (failed_step_changes_only_running (run_entry sample_range sample_bad_register)).
  apply bad_register_step.
  assert (E : register_operands (run_entry sample_range sample_bad_register) = [1; 9])
    by (vm_compute; reflexivity).
  rewrite E. apply Exists_cons_tl. apply Exists_cons_hd. unfold MAX_REGISTERS. lia.
Defined.

Lemma step_writes (m m' : machine) (ok : bool) :
  cpu_step m = (ok, m') ->
  (word_at m 0 <> ISA_STOREM -> ram_of m' = ram_of m) /\
  (word_at m 0 <> ISA_LOADA ->
   address_registers (cpu_of m') = address_registers (cpu_of m)).
Proof.
  step_cases;
    (let H := fresh "H" in
     intros H; injection H as <- <-;
     split; intros Hne; first [reflexivity | congruence]).
Qed.

(** X7.  Only store-to-memory writes the memory and only load-address writes
    an address register: after a step on any other opcode, successful or
    not, they are what they were. *)
Theorem step_frame :
  forall (m m' : machine) (ok : bool),
    cpu_step m = (ok, m') ->
    (word_at m 0 <> ISA_STOREM -> ram_of m' = ram_of m) /\
    (word_at m 0 <> ISA_LOADA ->
     address_registers (cpu_of m') = address_registers (cpu_of m)).
Proof. intros m m' ok. apply step_writes. Qed.

Lemma step_frame_witness :
  (word_at (run_entry sample_range sample_bad_register) 0 <> ISA_STOREM ->
   ram_of (stopped (run_entry sample_range sample_bad_register))
   = ram_of (run_entry sample_range sample_bad_register)) /\
  (word_at (run_entry sample_range sample_bad_register) 0 <> ISA_LOADA ->
   address_registers (cpu_of (stopped (run_entry sample_range sample_bad_register)))
   = address_registers (cpu_of (run_entry sample_range sample_bad_register))).
Proof.
  apply (step_frame (run_entry sample_range sample_bad_register) _ false).
  apply bad_register_step.
  assert (E : register_operands (run_entry sample_range sample_bad_register) = [1; 9])
    by (vm_compute; reflexivity).
  rewrite E. apply Exists_cons_tl. apply Exists_cons_hd. unfold MAX_REGISTERS. lia.
Defined.

(** ** Interpreter: the load and store instructions *)

Lemma is_addr_index_valid_runtime_ok (r : Z) (m : machine) :
  r < MAX_ADDRESS_REGISTERS -> is_addr_index_valid_runtime r m = (true, m).
Proof.
  intros H. unfold is_addr_index_valid_runtime.
  destruct (MAX_ADDRESS_REGISTERS <=? r) eqn:E; [apply Z.leb_le in E; lia | reflexivity].
Qed.

Lemma is_addr_index_valid_runtime_bad (r : Z) (m : machine) :
  MAX_ADDRESS_REGISTERS <= r -> is_addr_index_valid_runtime r m = (false, stopped m).
Proof.
  intros H. unfold is_addr_index_valid_runtime.
  destruct (MAX_ADDRESS_REGISTERS <=? r) eqn:E; [reflexivity | apply Z.leb_gt in E; lia].
Qed.

Lemma is_addr_literal_valid_runtime_bad (a : Z) (m : machine) :
  RAM_SIZE <= a -> is_addr_literal_valid_runtime a m = (false, stopped m).
Proof.
  intros H. unfold is_addr_literal_valid_runtime.
  destruct (RAM_SIZE <=? a) eqn:E; [reflexivity | apply Z.leb_gt in E; lia].
Qed.

Lemma single_word_access_valid (a : Z) :
  0 <= a < RAM_SIZE -> is_memory_access_valid a 1 = true.
Proof.
  intros Ha. apply is_memory_access_valid_tests.
  - unfold is_uint32, UINT32_MODULUS, RAM_SIZE in *. lia.
  - unfold is_uint32, UINT32_MODULUS. lia.
  - unfold UINT32_MODULUS, RAM_SIZE in *. lia.
Qed.

Lemma is_memory_access_valid_runtime_ok (a : Z) (m : machine) :
  0 <= a < RAM_SIZE -> is_memory_access_valid_runtime a 1 m = (true, m).
Proof.
  intros Ha. unfold is_memory_access_valid_runtime.
  rewrite single_word_access_valid by exact Ha. reflexivity.
Qed.

Lemma word_at_nonneg (m : machine) (skip : Z) : ram_wf (ram_of m) -> 0 <= word_at m skip.
Proof. intros H. apply (word_at_uint32 m skip H). Qed.

Lemma pc_in_bounds_of_opcode (m : machine) (opcode : Z) :
  is_uint32 (pc (cpu_of m)) -> word_at m 0 = opcode -> opcode <> 0 ->
  pc (cpu_of m) < RAM_SIZE.
Proof.
  intros Hpc Hop Hne. apply opcode_fetch_in_bounds; [exact Hpc | congruence].
Qed.

Lemma loadi_step (m : machine) :
  is_uint32 (pc (cpu_of m)) ->
  word_at m 0 = ISA_LOADI ->
  word_at m 1 < MAX_REGISTERS ->
  cpu_step m = (true, loaded (word_at m 1) (word_at m 2) 3 m).
Proof.
  intros Hpc Hop Hr.
  pose proof (pc_in_bounds_of_opcode m _ Hpc Hop ltac:(discriminate)) as Hin.
  rewrite cpu_step_eq, Hop.
  change (execute_instruction ISA_LOADI) with handle_loadi_execution.
  unfold handle_loadi_execution. rewrite !bind_get_value.
  rewrite (require_ok _ _ m m) by (apply is_reg_index_valid_runtime_ok; exact Hr).
  run_exec. rewrite pc_advance_exact by (try assumption; lia). reflexivity.
Qed.

(** X8.  Load-immediate with a register index below 8 succeeds: the
    register receives the immediate word, the zero flag says whether that
    word is 0, the program counter advances by 3, and no other register, no
    address register and no memory cell changes. *)
Theorem load_immediate_semantics :
  forall m : machine,
    machine_wf m ->
    word_at m 0 = ISA_LOADI ->
    word_at m 1 < MAX_REGISTERS ->
    cpu_step m = (true, loaded (word_at m 1) (word_at m 2) 3 m) /\
    reg (cpu_of (loaded (word_at m 1) (word_at m 2) 3 m)) (word_at m 1) = word_at m 2 /\
    forall r : Z, 0 <= r -> r <> word_at m 1 ->
      reg (cpu_of (loaded (word_at m 1) (word_at m 2) 3 m)) r = reg (cpu_of m) r.
Proof.
  intros m [Hc Hr] Hop Hidx.
  pose proof (word_at_nonneg m 1 Hr) as H0.
  split; [apply loadi_step; [apply Hc | exact Hop | exact Hidx] | split].
  - unfold loaded. cbn [cpu_of]. apply reg_with_register_eq; [exact Hc | lia].
  - intros r Hr0 Hne. unfold loaded. cbn [cpu_of].
    apply reg_with_register_ne; lia.
Qed.

Lemma load_immediate_semantics_witness :
  cpu_step (one_instruction [ISA_LOADI; 2; 77])
  = (true, loaded (word_at (one_instruction [ISA_LOADI; 2; 77]) 1)
                  (word_at (one_instruction [ISA_LOADI; 2; 77]) 2) 3
                  (one_instruction [ISA_LOADI; 2; 77])).
Proof.
  apply (load_immediate_semantics (one_instruction [ISA_LOADI; 2; 77])).
  - split; [apply cpu_init_wf | ].
    unfold one_instruction. cbn [ram_of store_words].
    repeat apply set_cell_wf; try apply ram_init_wf; vm_compute; split; congruence.
  - vm_compute. reflexivity.
  - vm_compute. reflexivity.
Defined.

Lemma store_words_wf (ws : list Z) :
  forall (ram : RAM) (a : Z),
    ram_wf ram -> Forall is_uint32 ws -> ram_wf (store_words ram a ws).
Proof.
  induction ws as [ | w ws IH]; intros ram a Hwf Hall; cbn [store_words].
  - exact Hwf.
  - inversion Hall; subst. apply IH; [apply set_cell_wf | ]; assumption.
Qed.

Lemma one_instruction_wf (ws : list Z) :
  Forall is_uint32 ws -> machine_wf (one_instruction ws).
Proof.
  intros Hall. split; cbn [one_instruction cpu_of ram_of].
  - apply cpu_wf_with_running, cpu_init_wf.
  - apply store_words_wf; [apply ram_init_wf | exact Hall].
Qed.

Ltac small_words :=
  repeat (apply Forall_cons; split; [unfold is_uint32, UINT32_MODULUS; lia | ]);
  apply Forall_nil_2.

Lemma loada_step :
  forall m : machine,
    is_uint32 (pc (cpu_of m)) ->
    word_at m 0 = ISA_LOADA ->
    (word_at m 1 < MAX_ADDRESS_REGISTERS /\ word_at m 2 < RAM_SIZE ->
     cpu_step m =
     (true, mkMachine (with_pc (pc (cpu_of m) + 3)
                         (with_address_register (word_at m 1) (word_at m 2) (cpu_of m)))
                      (ram_of m))) /\
    (MAX_ADDRESS_REGISTERS <= word_at m 1 \/ RAM_SIZE <= word_at m 2 ->
     cpu_step m = (false, stopped m)).
Proof.
  intros m Hpc Hop.
  pose proof (pc_in_bounds_of_opcode m _ Hpc Hop ltac:(discriminate)) as Hin.
  rewrite cpu_step_eq, Hop.
  change (execute_instruction ISA_LOADA) with handle_loada_execution.
  unfold handle_loada_execution. rewrite !bind_get_value. split.
  - intros [Hi Hl].
    rewrite (require_ok _ _ m m) by (apply is_addr_index_valid_runtime_ok; exact Hi).
    rewrite (require_ok _ _ m m) by (apply is_addr_literal_valid_runtime_ok; exact Hl).
    run_exec. rewrite pc_advance_exact by (try assumption; lia). reflexivity.
  - intros Hbad.
    destruct (Z_lt_le_dec (word_at m 1) MAX_ADDRESS_REGISTERS) as [Hi | Hi].
    + destruct Hbad as [Hbad | Hbad]; [lia | ].
      rewrite (require_ok _ _ m m) by (apply is_addr_index_valid_runtime_ok; exact Hi).
      apply require_fail. apply is_addr_literal_valid_runtime_bad. exact Hbad.
    + apply require_fail. apply is_addr_index_valid_runtime_bad. exact Hi.
Qed.

(** X9.  Load-address writes the literal to the address register when the
    index is below 8 and the literal below 65536, and advances by 3; when
    either bound is broken it fails with no effect but [running = false]. *)
Theorem load_address_semantics :
  forall m : machine,
    is_uint32 (pc (cpu_of m)) ->
    word_at m 0 = ISA_LOADA ->
    (word_at m 1 < MAX_ADDRESS_REGISTERS /\ word_at m 2 < RAM_SIZE ->
     cpu_step m =
     (true, mkMachine (with_pc (pc (cpu_of m) + 3)
                         (with_address_register (word_at m 1) (word_at m 2) (cpu_of m)))
                      (ram_of m))) /\
    (MAX_ADDRESS_REGISTERS <= word_at m 1 \/ RAM_SIZE <= word_at m 2 ->
     cpu_step m = (false, stopped m)).
Proof. exact loada_step. Qed.

Lemma load_address_semantics_witness :
  cpu_step (one_instruction [ISA_LOADA; 1; 65536])
  = (false, stopped (one_instruction [ISA_LOADA; 1; 65536])).
Proof.
  refine (proj2 (load_address_semantics (one_instruction [ISA_LOADA; 1; 65536]) _ _) _).
  - vm_compute. split; congruence.
  - vm_compute. reflexivity.
  - right. vm_compute. discriminate.
Defined.

(** The address that load-from-memory and store-to-memory resolve from a
    mode tag and an operand word: the operand itself when the tag is
    [ADDR_LITERAL], the content of the address register the operand names
    for every other tag. *)
Lemma resolve_target_address_literal (m : machine) (operand : Z) :
  operand < RAM_SIZE ->
  resolve_target_address ADDR_LITERAL operand m = (Some operand, m).
Proof.
  intros H. unfold resolve_target_address. cbn [Z.eqb ADDR_LITERAL Pos.eqb].
  rewrite (bind_eq _ _ _ _ _ (is_addr_literal_valid_runtime_ok _ m H)). reflexivity.
Qed.

Lemma resolve_target_address_register (m : machine) (mode operand : Z) :
  mode <> ADDR_LITERAL -> operand < MAX_ADDRESS_REGISTERS ->
  resolve_target_address mode operand m = (Some (areg (cpu_of m) operand), m).
Proof.
  intros Hm H. unfold resolve_target_address.
  apply Z.eqb_neq in Hm. rewrite Hm.
  rewrite (bind_eq _ _ _ _ _ (is_addr_index_valid_runtime_ok _ m H)). reflexivity.
Qed.

Lemma loadm_step (m : machine) (target : Z) :
  is_uint32 (pc (cpu_of m)) ->
  word_at m 0 = ISA_LOADM ->
  word_at m 1 < MAX_REGISTERS ->
  resolve_target_address (word_at m 2) (word_at m 3) m = (Some target, m) ->
  0 <= target < RAM_SIZE ->
  cpu_step m = (true, loaded (word_at m 1) (cell (ram_of m) target) 4 m).
Proof.
  intros Hpc Hop Hr Hres Ht.
  pose proof (pc_in_bounds_of_opcode m _ Hpc Hop ltac:(discriminate)) as Hin.
  rewrite cpu_step_eq, Hop.
  change (execute_instruction ISA_LOADM) with handle_loadm_execution.
  unfold handle_loadm_execution. rewrite !bind_get_value.
  rewrite (require_ok _ _ m m) by (apply is_reg_index_valid_runtime_ok; exact Hr).
  rewrite (bind_eq _ _ _ _ _ Hres).
  rewrite (require_ok _ _ m m) by (apply is_memory_access_valid_runtime_ok; exact Ht).
  run_exec. rewrite pc_advance_exact by (try assumption; lia). reflexivity.
Qed.

Lemma storem_step (m : machine) (target : Z) :
  is_uint32 (pc (cpu_of m)) ->
  word_at m 0 = ISA_STOREM ->
  word_at m 3 < MAX_REGISTERS ->
  resolve_target_address (word_at m 2) (word_at m 1) m = (Some target, m) ->
  0 <= target < RAM_SIZE ->
  cpu_step m =
  (true, mkMachine (with_pc (pc (cpu_of m) + 4) (cpu_of m))
                   (set_cell (ram_of m) target (reg (cpu_of m) (word_at m 3)))).
Proof.
  intros Hpc Hop Hr Hres Ht.
  pose proof (pc_in_bounds_of_opcode m _ Hpc Hop ltac:(discriminate)) as Hin.
  rewrite cpu_step_eq, Hop.
  change (execute_instruction ISA_STOREM) with handle_storem_execution.
  unfold handle_storem_execution. rewrite !bind_get_value.
  rewrite (require_ok _ _ m m) by (apply is_reg_index_valid_runtime_ok; exact Hr).
  rewrite (bind_eq _ _ _ _ _ Hres).
  rewrite (require_ok _ _ m m) by (apply is_memory_access_valid_runtime_ok; exact Ht).
  run_exec. rewrite pc_advance_exact by (try assumption; lia). reflexivity.
Qed.

(** X10.  Load-from-memory with a register index below 8: under the tag
    [ADDR_LITERAL] and an operand below 65536 it loads the cell at the
    operand; under any other tag, an operand below 8 and an address register
    that holds an address below 65536 it loads the cell that register points
    to.  The zero flag follows the loaded word and the program counter
    advances by 4. *)
Theorem load_from_memory_semantics :
  forall m : machine,
    machine_wf m ->
    word_at m 0 = ISA_LOADM ->
    word_at m 1 < MAX_REGISTERS ->
    (word_at m 2 = ADDR_LITERAL -> word_at m 3 < RAM_SIZE ->
     cpu_step m = (true, loaded (word_at m 1) (cell (ram_of m) (word_at m 3)) 4 m)) /\
    (word_at m 2 <> ADDR_LITERAL -> word_at m 3 < MAX_ADDRESS_REGISTERS ->
     areg (cpu_of m) (word_at m 3) < RAM_SIZE ->
     cpu_step m =
     (true, loaded (word_at m 1) (cell (ram_of m) (areg (cpu_of m) (word_at m 3))) 4 m)).
Proof.
  intros m [Hc Hr] Hop Hidx. split.
  - intros Hmode Ha. apply loadm_step; try assumption; [apply Hc | | ].
    + rewrite Hmode. apply resolve_target_address_literal. exact Ha.
    + split; [apply word_at_nonneg; exact Hr | exact Ha].
  - intros Hmode Ha Hb. apply loadm_step; try assumption; [apply Hc | | ].
    + apply resolve_target_address_register; assumption.
    + split; [apply areg_uint32; exact Hc | exact Hb].
Qed.

Lemma load_from_memory_semantics_witness :
  cpu_step (one_instruction [ISA_LOADM; 2; ADDR_LITERAL; 0])
  = (true, loaded (word_at (one_instruction [ISA_LOADM; 2; ADDR_LITERAL; 0]) 1)
                  (cell (ram_of (one_instruction [ISA_LOADM; 2; ADDR_LITERAL; 0]))
                        (word_at (one_instruction [ISA_LOADM; 2; ADDR_LITERAL; 0]) 3))
                  4 (one_instruction [ISA_LOADM; 2; ADDR_LITERAL; 0])).
Proof.
  refine (proj1 (load_from_memory_semantics
                   (one_instruction [ISA_LOADM; 2; ADDR_LITERAL; 0]) _ _ _) _ _).
  - apply one_instruction_wf. unfold ISA_LOADM, ADDR_LITERAL. small_words.
  - vm_compute. reflexivity.
  - vm_compute. reflexivity.
  - vm_compute. reflexivity.
  - vm_compute. reflexivity.
Defined.

(** X11.  Store-to-memory with a register index below 8 writes the register
    to the resolved address (the operand under [ADDR_LITERAL], the content of
    the named address register under any other tag), advances by 4, and
    changes no register, no flag and no other cell. *)
Theorem store_to_memory_semantics :
  forall m : machine,
    machine_wf m ->
    word_at m 0 = ISA_STOREM ->
    word_at m 3 < MAX_REGISTERS ->
    (word_at m 2 = ADDR_LITERAL -> word_at m 1 < RAM_SIZE ->
     cpu_step m =
     (true, mkMachine (with_pc (pc (cpu_of m) + 4) (cpu_of m))
                      (set_cell (ram_of m) (word_at m 1) (reg (cpu_of m) (word_at m 3))))) /\
    (word_at m 2 <> ADDR_LITERAL -> word_at m 1 < MAX_ADDRESS_REGISTERS ->
     areg (cpu_of m) (word_at m 1) < RAM_SIZE ->
     cpu_step m =
     (true, mkMachine (with_pc (pc (cpu_of m) + 4) (cpu_of m))
                      (set_cell (ram_of m) (areg (cpu_of m) (word_at m 1))
                                (reg (cpu_of m) (word_at m 3))))).
Proof.
  intros m [Hc Hr] Hop Hidx. split.
  - intros Hmode Ha. apply storem_step; try assumption; [apply Hc | | ].
    + rewrite Hmode. apply resolve_target_address_literal. exact Ha.
    + split; [apply word_at_nonneg; exact Hr | exact Ha].
  - intros Hmode Ha Hb. apply storem_step; try assumption; [apply Hc | | ].
    + apply resolve_target_address_register; assumption.
    + split; [apply areg_uint32; exact Hc | exact Hb].
Qed.

Lemma store_to_memory_semantics_witness :
  cpu_step (one_instruction [ISA_STOREM; 9; ADDR_LITERAL; 0])
  = (true,
     mkMachine (with_pc (pc (cpu_of (one_instruction [ISA_STOREM; 9; ADDR_LITERAL; 0])) + 4)
                        (cpu_of (one_instruction [ISA_STOREM; 9; ADDR_LITERAL; 0])))
               (set_cell (ram_of (one_instruction [ISA_STOREM; 9; ADDR_LITERAL; 0]))
                         (word_at (one_instruction [ISA_STOREM; 9; ADDR_LITERAL; 0]) 1)
                         (reg (cpu_of (one_instruction [ISA_STOREM; 9; ADDR_LITERAL; 0]))
                              (word_at (one_instruction [ISA_STOREM; 9; ADDR_LITERAL; 0]) 3)))).
Proof.
  refine (proj1 (store_to_memory_semantics
                   (one_instruction [ISA_STOREM; 9; ADDR_LITERAL; 0]) _ _ _) _ _).
  - apply one_instruction_wf. unfold ISA_STOREM, ADDR_LITERAL. small_words.
  - vm_compute. reflexivity.
  - vm_compute. reflexivity.
  - vm_compute. reflexivity.
  - vm_compute. reflexivity.
Defined.

(** ** Interpreter: arithmetic, jumps *)

Lemma arith_execution_step (op : Z -> Z -> Z) (m : machine) (dst src : Z) :
  is_uint32 (pc (cpu_of m)) -> pc (cpu_of m) < RAM_SIZE ->
  resolve_arith_operands m = (Some (dst, src), m) ->
  arith_execution op m = (true, loaded dst (op (reg (cpu_of m) dst) src) 4 m).
Proof.
  intros Hpc Hin Hres. unfold arith_execution. rewrite (bind_eq _ _ _ _ _ Hres).
  run_exec. rewrite pc_advance_exact by (try assumption; lia). reflexivity.
Qed.

Lemma div_execution_step (m : machine) (dst src : Z) :
  is_uint32 (pc (cpu_of m)) -> pc (cpu_of m) < RAM_SIZE ->
  resolve_arith_operands m = (Some (dst, src), m) -> src <> 0 ->
  handle_div_execution m = (true, loaded dst (reg (cpu_of m) dst / src) 4 m).
Proof.
  intros Hpc Hin Hres Hne. unfold handle_div_execution. rewrite (bind_eq _ _ _ _ _ Hres).
  apply Z.eqb_neq in Hne. rewrite Hne.
  run_exec. rewrite pc_advance_exact by (try assumption; lia). reflexivity.
Qed.

Lemma low_32_bits (z : Z) : wrap32 (Z.land z 0xFFFFFFFF) = z mod 2 ^ 32.
Proof.
  change 0xFFFFFFFF with (Z.ones 32). rewrite Z.land_ones by lia.
  unfold wrap32, UINT32_MODULUS. apply Z.mod_mod. lia.
Qed.

Lemma arith_result_uint32 (opcode a b : Z) :
  is_uint32 a -> is_uint32 b -> is_uint32 (arith_result opcode a b).
Proof.
  intros Ha Hb. unfold arith_result.
  repeat match goal with
         | |- context [if ?c then _ else _] => destruct c
         end;
    auto with wf; apply wrap32_range.
Qed.

(** X12.  An arithmetic or bitwise instruction with a destination index
    below 8 and a source that resolves (a register index below 8 under
    [OPERAND_REGISTER], the operand word itself under [OPERAND_NUMERIC]), and
    with a non-zero source if it is a divide: the destination receives the
    sum, difference or product modulo [2^32], the integer quotient, or the
    bitwise and, or, exclusive or; the result is a 32-bit value, the zero
    flag says whether it is 0, and the program counter advances by 4. *)
Theorem arithmetic_semantics :
  forall (m : machine) (src : Z),
    machine_wf m ->
    is_arith_opcode (word_at m 0) = true ->
    word_at m 1 < MAX_REGISTERS ->
    (word_at m 2 = OPERAND_REGISTER /\ word_at m 3 < MAX_REGISTERS /\
     src = reg (cpu_of m) (word_at m 3)) \/
    (word_at m 2 = OPERAND_NUMERIC /\ src = word_at m 3) ->
    (word_at m 0 = ISA_DIV -> src <> 0) ->
    cpu_step m =
    (true, loaded (word_at m 1)
                  (arith_result (word_at m 0) (reg (cpu_of m) (word_at m 1)) src) 4 m) /\
    is_uint32 (arith_result (word_at m 0) (reg (cpu_of m) (word_at m 1)) src).
Proof.
  intros m src [Hc Hr] Hop Hdst Hsrc Hdiv.
  assert (Hpc : is_uint32 (pc (cpu_of m))) by apply Hc.
  assert (Hin : pc (cpu_of m) < RAM_SIZE).
  { apply opcode_fetch_in_bounds; [exact Hpc | ].
    intros E. rewrite E in Hop. discriminate. }
  assert (Hres : resolve_arith_operands m = (Some (word_at m 1, src), m)).
  { destruct Hsrc as [(Hmode & Hidx & ->) | (Hmode & ->)].
    - apply resolve_arith_operands_register; assumption.
    - apply resolve_arith_operands_numeric; assumption. }
  assert (Hsrc32 : is_uint32 src).
  { destruct Hsrc as [(_ & _ & ->) | (_ & ->)]; auto with wf. }
  split; [ | apply arith_result_uint32; auto with wf].
  rewrite cpu_step_eq.
  destruct (is_arith_opcode_cases _ Hop) as [E | [E | [E | [E | [E | [E | E]]]]]];
    rewrite E in *.
  - change (execute_instruction ISA_ADD) with handle_add_execution.
    unfold handle_add_execution.
    rewrite (arith_execution_step _ m _ _ Hpc Hin Hres). reflexivity.
  - change (execute_instruction ISA_SUB) with handle_sub_execution.
    unfold handle_sub_execution.
    rewrite (arith_execution_step _ m _ _ Hpc Hin Hres). reflexivity.
  - change (execute_instruction ISA_MLP) with handle_mlp_execution.
    unfold handle_mlp_execution.
    rewrite (arith_execution_step _ m _ _ Hpc Hin Hres).
    cbv beta. rewrite low_32_bits. reflexivity.
  - change (execute_instruction ISA_DIV) with handle_div_execution.
    rewrite (div_execution_step m _ _ Hpc Hin Hres (Hdiv eq_refl)). reflexivity.
  - change (execute_instruction ISA_AND) with handle_and_execution.
    unfold handle_and_execution.
    rewrite (arith_execution_step _ m _ _ Hpc Hin Hres). reflexivity.
  - change (execute_instruction ISA_OR) with handle_or_execution.
    unfold handle_or_execution.
    rewrite (arith_execution_step _ m _ _ Hpc Hin Hres). reflexivity.
  - change (execute_instruction ISA_XOR) with handle_xor_execution.
    unfold handle_xor_execution.
    rewrite (arith_execution_step _ m _ _ Hpc Hin Hres). reflexivity.
Qed.

Lemma arithmetic_semantics_witness :
  cpu_step (one_instruction [ISA_MLP; 0; OPERAND_NUMERIC; 7]) =
  (true, loaded (word_at (one_instruction [ISA_MLP; 0; OPERAND_NUMERIC; 7]) 1)
                (arith_result (word_at (one_instruction [ISA_MLP; 0; OPERAND_NUMERIC; 7]) 0)
                   (reg (cpu_of (one_instruction [ISA_MLP; 0; OPERAND_NUMERIC; 7]))
                        (word_at (one_instruction [ISA_MLP; 0; OPERAND_NUMERIC; 7]) 1))
                   7)
                4 (one_instruction [ISA_MLP; 0; OPERAND_NUMERIC; 7])).
Proof.
  refine (proj1 (arithmetic_semantics
                   (one_instruction [ISA_MLP; 0; OPERAND_NUMERIC; 7]) 7 _ _ _ _ _)).
  - apply one_instruction_wf. unfold ISA_MLP, OPERAND_NUMERIC. small_words.
  - vm_compute. reflexivity.
  - vm_compute. reflexivity.
  - right. split; vm_compute; reflexivity.
  - intros _. discriminate.
Defined.

Lemma jump_step_bad_target (m : machine) :
  word_at m 0 = ISA_JMP \/ word_at m 0 = ISA_JZ \/ word_at m 0 = ISA_JNZ ->
  RAM_SIZE <= word_at m 1 ->
  cpu_step m = (false, stopped m).
Proof.
  intros Hop Hbad. rewrite cpu_step_eq.
  destruct Hop as [-> | [-> | ->]].
  - change (execute_instruction ISA_JMP) with handle_jmp_execution.
    unfold handle_jmp_execution. rewrite bind_get_value.
    apply require_fail. apply is_addr_literal_valid_runtime_bad. exact Hbad.
  - change (execute_instruction ISA_JZ) with handle_jz_execution.
    unfold handle_jz_execution. rewrite bind_get_value.
    apply require_fail. apply is_addr_literal_valid_runtime_bad. exact Hbad.
  - change (execute_instruction ISA_JNZ) with handle_jnz_execution.
    unfold handle_jnz_execution. rewrite bind_get_value.
    apply require_fail. apply is_addr_literal_valid_runtime_bad. exact Hbad.
Qed.

(** X13.  A jump validates its target before anything else: with a target
    of 65536 or more all three jumps fail with no effect but
    [running = false], the conditional ones also when their condition does
    not hold and the jump would not be taken.  The unconditional jump with a
    target below 65536 assigns it to the program counter and changes nothing
    else. *)
Theorem jump_target_is_validated_first :
  forall m : machine,
    (word_at m 0 = ISA_JMP \/ word_at m 0 = ISA_JZ \/ word_at m 0 = ISA_JNZ ->
     RAM_SIZE <= word_at m 1 ->
     cpu_step m = (false, stopped m)) /\
    (word_at m 0 = ISA_JMP -> word_at m 1 < RAM_SIZE ->
     cpu_step m = (true, mkMachine (with_pc (word_at m 1) (cpu_of m)) (ram_of m))).
Proof.
  intros m. split; [apply jump_step_bad_target | ].
  intros Hop Ht. rewrite cpu_step_eq, Hop.
  change (execute_instruction ISA_JMP) with handle_jmp_execution.
  unfold handle_jmp_execution. rewrite bind_get_value.
  rewrite (require_ok _ _ m m) by (apply is_addr_literal_valid_runtime_ok; exact Ht).
  reflexivity.
Qed.

Lemma jump_target_is_validated_first_witness :
  zero_flag (cpu_of (one_instruction [ISA_JZ; 70000])) = false /\
  cpu_step (one_instruction [ISA_JZ; 70000])
  = (false, stopped (one_instruction [ISA_JZ; 70000])).
Proof.
  split; [reflexivity | ].
  refine (proj1 (jump_target_is_validated_first (one_instruction [ISA_JZ; 70000])) _ _).
  - right. left. vm_compute. reflexivity.
  - vm_compute. discriminate.
Defined.

(** ** Interpreter: store and load together, address registers *)

Lemma pair_of_fst {A B : Type} (p : A * B) (a : A) : fst p = a -> p = (a, snd p).
Proof. destruct p. cbn [fst snd]. intros ->. reflexivity. Qed.

(** X14.  What store-to-memory writes, load-from-memory reads back: if a
    store of register [Rs] to a literal address succeeds and the next
    instruction, as it stands after the store, is a load from the same
    literal address into [Rd], that load succeeds and leaves in [Rd] the
    value [Rs] had. *)
Theorem store_then_load :
  forall m m1 : machine,
    machine_wf m ->
    word_at m 0 = ISA_STOREM ->
    word_at m 2 = ADDR_LITERAL ->
    word_at m 1 < RAM_SIZE ->
    word_at m 3 < MAX_REGISTERS ->
    cpu_step m = (true, m1) ->
    word_at m1 0 = ISA_LOADM ->
    word_at m1 1 < MAX_REGISTERS ->
    word_at m1 2 = ADDR_LITERAL ->
    word_at m1 3 = word_at m 1 ->
    exists m2 : machine,
      cpu_step m1 = (true, m2) /\
      reg (cpu_of m2) (word_at m1 1) = reg (cpu_of m) (word_at m 3).
Proof.
  intros m m1 Hwf Hop Hmode Ha Hs Hstep Hop1 Hd Hmode1 Ha1.
  destruct Hwf as [Hc Hr].
  pose proof (word_at_nonneg m 1 Hr) as Ha0.
  assert (Hm1 : m1 = mkMachine (with_pc (pc (cpu_of m) + 4) (cpu_of m))
                               (set_cell (ram_of m) (word_at m 1)
                                         (reg (cpu_of m) (word_at m 3)))).
  { rewrite (storem_step m (word_at m 1)) in Hstep; try assumption.
    - injection Hstep as <-. reflexivity.
    - apply Hc.
    - rewrite Hmode. apply resolve_target_address_literal. exact Ha.
    - lia. }
  assert (Hwf1 : machine_wf m1).
  { pose proof (cpu_step_wf m (conj Hc Hr)) as H. rewrite Hstep in H. exact H. }
  destruct Hwf1 as [Hc1 Hr1].
  pose proof (word_at_nonneg m1 1 Hr1) as Hd0.
  eexists. split.
  - apply (loadm_step m1 (word_at m 1)); try assumption.
    + apply Hc1.
    + rewrite Hmode1, Ha1. apply resolve_target_address_literal. exact Ha.
    + lia.
  - unfold loaded. cbn [cpu_of].
    change (reg (with_pc ?a (with_zero_flag ?b ?c)) ?i) with (reg c i).
    rewrite reg_with_register_eq by (try exact Hc1; lia).
    rewrite Hm1. cbn [ram_of]. apply cell_set_cell_eq; [exact Hr | lia].
Qed.

Lemma store_then_load_witness :
  exists m2 : machine,
    cpu_step (snd (cpu_step sample_store_load)) = (true, m2) /\
    reg (cpu_of m2) (word_at (snd (cpu_step sample_store_load)) 1)
    = reg (cpu_of sample_store_load) (word_at sample_store_load 3).
Proof.
  apply (store_then_load sample_store_load (snd (cpu_step sample_store_load))).
  - split; cbn [sample_store_load cpu_of ram_of].
    + apply cpu_wf_with_register; [unfold is_uint32, UINT32_MODULUS; lia | ].
      apply cpu_wf_with_running, cpu_init_wf.
    + apply store_words_wf; [apply ram_init_wf | ].
      unfold ISA_STOREM, ISA_LOADM, ADDR_LITERAL. small_words.
  - vm_compute. reflexivity.
  - vm_compute. reflexivity.
  - vm_compute. reflexivity.
  - vm_compute. reflexivity.
  - apply pair_of_fst. vm_compute. reflexivity.
  - vm_compute. reflexivity.
  - vm_compute. reflexivity.
  - vm_compute. reflexivity.
  - vm_compute. reflexivity.
Defined.

Lemma aregs_in_bounds_step (m m' : machine) (ok : bool) :
  machine_wf m -> aregs_in_bounds m -> cpu_step m = (ok, m') -> aregs_in_bounds m'.
Proof.
  intros [Hc Hr] Hin Hstep. unfold aregs_in_bounds in *.
  destruct (Z.eq_dec (word_at m 0) ISA_LOADA) as [Hop | Hop].
  - destruct (loada_step m (proj1 Hc) Hop) as [Hgood Hbad].
    destruct (Z_lt_le_dec (word_at m 1) MAX_ADDRESS_REGISTERS) as [Hi | Hi];
      [destruct (Z_lt_le_dec (word_at m 2) RAM_SIZE) as [Hl | Hl] | ].
    + rewrite (Hgood (conj Hi Hl)) in Hstep. injection Hstep as _ <-.
      cbn [cpu_of with_pc with_address_register address_registers].
      apply Forall_insert; [exact Hin | ].
      split; [apply word_at_nonneg; exact Hr | exact Hl].
    + rewrite (Hbad (or_intror Hl)) in Hstep. injection Hstep as _ <-. exact Hin.
    + rewrite (Hbad (or_introl Hi)) in Hstep. injection Hstep as _ <-. exact Hin.
  - destruct (step_writes m m' ok Hstep) as [_ Hsame].
    rewrite (Hsame Hop). exact Hin.
Qed.

(** X15.  The address registers always hold addresses inside the memory:
    they do in the driver's initial state, and if they do in a well-formed
    state from which [cpu_run] starts, they do in every state the run
    reaches. *)
Theorem address_registers_stay_in_bounds :
  aregs_in_bounds fresh_machine /\
  forall (range : AssemblyRange) (m0 m : machine),
    machine_wf m0 -> is_uint32 (start_address range) -> aregs_in_bounds m0 ->
    reaches (end_address range) (run_entry range m0) m ->
    aregs_in_bounds m.
Proof.
  split.
  - unfold aregs_in_bounds, fresh_machine, cpu_init. cbn [cpu_of address_registers].
    apply Forall_replicate. unfold RAM_SIZE. lia.
  - intros range m0 m Hwf Hs Hin Hreach.
    assert (Hwf0 : machine_wf (run_entry range m0)) by (apply run_entry_wf; assumption).
    assert (Hin0 : aregs_in_bounds (run_entry range m0)) by exact Hin.
    clear Hwf Hin. revert Hwf0 Hin0.
    induction Hreach as [m | m1 m2 m3 _ Hstep _ IH]; intros Hwf Hin; [exact Hin | ].
    apply IH.
    + pose proof (cpu_step_wf m1 Hwf) as H. rewrite Hstep in H. exact H.
    + apply (aregs_in_bounds_step m1 m2 true); assumption.
Qed.

Lemma address_registers_stay_in_bounds_witness :
  aregs_in_bounds (snd (cpu_step (run_entry sample_loada_range sample_loada))) /\
  areg (cpu_of (snd (cpu_step (run_entry sample_loada_range sample_loada)))) 1 = 0x1234.
Proof.
  split.
  - apply (proj2 address_registers_stay_in_bounds sample_loada_range sample_loada).
    + apply one_instruction_wf. unfold ISA_LOADA. small_words.
    + unfold is_uint32, UINT32_MODULUS. cbn [sample_loada_range start_address]. lia.
    + unfold aregs_in_bounds, sample_loada, one_instruction, cpu_init.
      cbn [cpu_of with_running address_registers].
      apply Forall_replicate. unfold RAM_SIZE. lia.
    + apply (reaches_next _ _ (snd (cpu_step (run_entry sample_loada_range sample_loada)))).
      * vm_compute. reflexivity.
      * apply pair_of_fst. vm_compute. reflexivity.
      * apply reaches_here.
  - vm_compute. reflexivity.
Defined.

(** ** Interpreter: how a run ends *)

Lemma reaches_then (end_addr : Z) (m0 m : machine) (r : bool * machine) :
  reaches end_addr m0 m ->
  (exists fuel, forall fuel', (fuel <= fuel')%nat -> cpu_run_loop fuel' end_addr m = Some r) ->
  exists fuel, forall fuel', (fuel <= fuel')%nat -> cpu_run_loop fuel' end_addr m0 = Some r.
Proof.
  intros Hreach. induction Hreach as [m | m1 m2 m3 Ht Hs _ IH]; intros Hrun.
  - exact Hrun.
  - destruct (IH Hrun) as [fuel Hfuel].
    exists (S fuel). intros fuel' Hle. destruct fuel' as [ | fuel']; [lia | ].
    rewrite (cpu_run_loop_next _ _ _ _ Ht Hs). apply Hfuel. lia.
Qed.

Lemma reaches_snoc (end_addr : Z) (m0 m m' : machine) :
  reaches end_addr m0 m -> loop_test end_addr m = true -> cpu_step m = (true, m') ->
  reaches end_addr m0 m'.
Proof.
  intros Hreach Ht Hs. induction Hreach as [m | m1 m2 m3 Ht1 Hs1 _ IH].
  - apply (reaches_next _ m m' m'); [exact Ht | exact Hs | apply reaches_here].
  - apply (reaches_next _ m1 m2 m'); [exact Ht1 | exact Hs1 | apply IH; assumption].
Qed.

Lemma cpu_run_loop_reaches (end_addr : Z) (fuel : nat) :
  forall (m0 m : machine) (ok : bool) (m' : machine),
    reaches end_addr m0 m ->
    cpu_run_loop fuel end_addr m = Some (ok, m') ->
    if ok
    then reaches end_addr m0 m' /\ loop_test end_addr m' = false
    else exists m_last, reaches end_addr m0 m_last /\
                        loop_test end_addr m_last = true /\
                        cpu_step m_last = (false, m').
Proof.
  induction fuel as [ | fuel IH]; intros m0 m ok m' Hreach Hrun; cbn [cpu_run_loop] in Hrun.
  - destruct (loop_test end_addr m) eqn:Ht; [discriminate | ].
    injection Hrun as <- <-. split; assumption.
  - destruct (loop_test end_addr m) eqn:Ht.
    + destruct (cpu_step m) as [ok1 m1] eqn:Hs. destruct ok1.
      * apply (IH m0 m1); [ | exact Hrun].
        apply (reaches_snoc _ _ m); assumption.
      * injection Hrun as <- <-. exists m. repeat split; assumption.
    + injection Hrun as <- <-. split; assumption.
Qed.

(** X16.  How [cpu_run] ends.  If it returns success, the final state is
    one the loop reached and in which its test is false: [running] is false
    or the program counter is at the end address.  If it returns failure,
    the final state is what a failing step left, taken in a state the loop
    reached with its test true. *)
Theorem cpu_run_outcome :
  forall (fuel : nat) (range : AssemblyRange) (m0 m' : machine) (ok : bool),
    cpu_run fuel range m0 = Some (ok, m') ->
    (ok = true ->
     reaches (end_address range) (run_entry range m0) m' /\
     (running (cpu_of m') = false \/ pc (cpu_of m') = end_address range)) /\
    (ok = false ->
     exists m_last : machine,
       reaches (end_address range) (run_entry range m0) m_last /\
       loop_test (end_address range) m_last = true /\
       cpu_step m_last = (false, m')).
Proof.
  intros fuel range m0 m' ok Hrun. rewrite cpu_run_eq in Hrun.
  pose proof (cpu_run_loop_reaches _ fuel _ _ ok m' (reaches_here _ _) Hrun) as H.
  split; intros ->.
  - destruct H as [Hreach Ht]. split; [exact Hreach | ].
    unfold loop_test in Ht. apply andb_false_iff in Ht. destruct Ht as [Ht | Ht].
    + left. exact Ht.
    + right. apply negb_false_iff in Ht. apply Z.eqb_eq in Ht. exact Ht.
  - exact H.
Qed.

Lemma cpu_run_outcome_witness :
  exists m_last : machine,
    reaches (end_address sample_range) (run_entry sample_range sample_bad_register) m_last /\
    loop_test (end_address sample_range) m_last = true /\
    cpu_step m_last = (false, stopped (run_entry sample_range sample_bad_register)).
Proof.
  refine (proj2 (cpu_run_outcome 1 sample_range sample_bad_register
                   (stopped (run_entry sample_range sample_bad_register)) false _) eq_refl).
  rewrite cpu_run_eq. apply cpu_run_loop_fail.
  - vm_compute. reflexivity.
  - apply bad_register_step.
    assert (E : register_operands (run_entry sample_range sample_bad_register) = [1; 9])
      by (vm_compute; reflexivity).
    rewrite E. apply Exists_cons_tl. apply Exists_cons_hd. unfold MAX_REGISTERS. lia.
Defined.

Lemma cpu_run_wf (fuel : nat) (range : AssemblyRange) (m0 m' : machine) (ok : bool) :
  machine_wf m0 -> is_uint32 (start_address range) ->
  cpu_run fuel range m0 = Some (ok, m') ->
  machine_wf m'.
Proof.
  intros Hwf Hs Hrun.
  assert (Hwf0 : machine_wf (run_entry range m0)) by (apply run_entry_wf; assumption).
  rewrite cpu_run_eq in Hrun.
  pose proof (cpu_run_loop_reaches _ fuel _ _ ok m' (reaches_here _ _) Hrun) as H.
  destruct ok.
  - destruct H as [Hreach _]. apply (reaches_wf _ _ _ Hreach Hwf0).
  - destruct H as (m_last & Hreach & _ & Hstep).
    pose proof (cpu_step_wf m_last (reaches_wf _ _ _ Hreach Hwf0)) as Hw.
    rewrite Hstep in Hw. exact Hw.
Qed.

(** X17.  [cpu_run] keeps the state well-formed: started on a well-formed
    state with a 32-bit start address, whatever it returns, the program
    counter, all sixteen registers and all memory cells of the final state
    are 32-bit values and the arrays have their sizes. *)
Theorem cpu_run_keeps_well_formed :
  forall (fuel : nat) (range : AssemblyRange) (m0 m' : machine) (ok : bool),
    machine_wf m0 -> is_uint32 (start_address range) ->
    cpu_run fuel range m0 = Some (ok, m') ->
    machine_wf m'.
Proof. exact cpu_run_wf. Qed.

Lemma cpu_run_keeps_well_formed_witness :
  machine_wf (stopped (run_entry sample_range sample_bad_register)).
Proof.
  apply (cpu_run_keeps_well_formed 1 sample_range sample_bad_register _ false).
  - apply one_instruction_wf. unfold ISA_ADD, OPERAND_REGISTER. small_words.
  - unfold is_uint32, UINT32_MODULUS. cbn [sample_range start_address]. lia.
  - rewrite cpu_run_eq. apply cpu_run_loop_fail.
    + vm_compute. reflexivity.
    + apply bad_register_step.
      assert (E : register_operands (run_entry sample_range sample_bad_register) = [1; 9])
        by (vm_compute; reflexivity).
      rewrite E. apply Exists_cons_tl. apply Exists_cons_hd. unfold MAX_REGISTERS. lia.
Defined.

Lemma invalid_opcode_step (m : machine) :
  is_opcode (word_at m 0) = false -> cpu_step m = (false, stopped m).
Proof.
  intros H. rewrite cpu_step_eq. unfold is_opcode, opcode_table in H.
  cbn [existsb snd] in H.
  repeat (apply orb_false_iff in H; destruct H as [? H]).
  unfold execute_instruction.
  repeat match goal with
         | E : (?c =? word_at m 0) = false |- _ =>
             rewrite Z.eqb_sym in E; rewrite E; clear E
         end.
  reflexivity.
Qed.

(** X18.  Halt and unknown opcodes, in any state a run reaches with its loop
    test true.  On the opcode [HALT] the run returns success with nothing
    changed but [running], now false.  On a word that is none of the sixteen
    opcodes, in particular when the program counter is outside the memory,
    the run returns failure with nothing changed but [running], now false. *)
Theorem halt_and_unknown_opcodes :
  forall (range : AssemblyRange) (m0 m : machine),
    reaches (end_address range) (run_entry range m0) m ->
    loop_test (end_address range) m = true ->
    (word_at m 0 = ISA_HALT ->
     exists fuel, forall fuel', (fuel <= fuel')%nat ->
       cpu_run fuel' range m0 = Some (true, stopped m)) /\
    (is_opcode (word_at m 0) = false ->
     exists fuel, forall fuel', (fuel <= fuel')%nat ->
       cpu_run fuel' range m0 = Some (false, stopped m)) /\
    (RAM_SIZE <= wrap32 (pc (cpu_of m) + 0) -> is_opcode (word_at m 0) = false).
Proof.
  intros range m0 m Hreach Htest. split; [ | split].
  - intros Hop. setoid_rewrite cpu_run_eq.
    apply (reaches_then _ _ m); [exact Hreach | ].
    exists 2%nat. intros fuel' Hle.
    destruct fuel' as [ | fuel']; [lia | ].
    rewrite (cpu_run_loop_next _ _ _ _ Htest (halt_step m Hop)).
    apply cpu_run_loop_done. reflexivity.
  - intros Hop. setoid_rewrite cpu_run_eq.
    apply (reaches_failing_step _ _ _ _ Hreach Htest). apply invalid_opcode_step. exact Hop.
  - intros Hout. rewrite (word_at_out_of_bounds m 0 Hout). reflexivity.
Qed.

Lemma halt_and_unknown_opcodes_witness :
  exists fuel, forall fuel', (fuel <= fuel')%nat ->
    cpu_run fuel' sample_range fresh_machine
    = Some (false, stopped (run_entry sample_range fresh_machine)).
Proof.
  refine (proj1 (proj2 (halt_and_unknown_opcodes sample_range fresh_machine
                          (run_entry sample_range fresh_machine) _ _)) _).
  - apply reaches_here.
  - vm_compute. reflexivity.
  - vm_compute. reflexivity.
Defined.

(** ** Parser: registers, mnemonics, labels *)

Lemma parse_register_range (tok : option string) :
  parse_register tok = FAILURE \/ 0 <= parse_register tok < MAX_REGISTERS.
Proof.
  unfold parse_register. destruct tok as [s | ]; [ | left; reflexivity].
  destruct (negb (starts_with_char "R" s)); [left; reflexivity | ].
  destruct (st_end (strtol (tail s) 10)); [ | left; reflexivity].
  destruct ((st_value (strtol (tail s) 10) <? 0)
            || (MAX_REGISTERS <=? st_value (strtol (tail s) 10))) eqn:E;
    [left; reflexivity | ].
  right. apply orb_false_iff in E. destruct E as [E1 E2].
  apply Z.ltb_ge in E1. apply Z.leb_gt in E2. lia.
Qed.

(** X19.  [parse_register] returns [FAILURE] or an index of an existing
    register, only accepts tokens that start with [R], and returns [i] on
    the token [R<i>] for each of the eight registers. *)
Theorem parse_register_sound_and_complete :
  (forall tok : option string,
     parse_register tok = FAILURE \/ 0 <= parse_register tok < MAX_REGISTERS) /\
  (forall tok : option string,
     parse_register tok <> FAILURE -> exists s, tok = Some (String "R" s)) /\
  (forall i : Z, 0 <= i < MAX_REGISTERS -> parse_register (Some (register_token i)) = i).
Proof.
  split; [ | split].
  - exact parse_register_range.
  - intros tok H. unfold parse_register in H.
    destruct tok as [s | ]; [ | contradiction H; reflexivity].
    destruct s as [ | c s]; [contradiction H; reflexivity | ].
    unfold starts_with_char in H. cbn [head_char] in H.
    destruct (Ascii.eqb "R" c) eqn:E; [ | contradiction H; reflexivity].
    apply Ascii.eqb_eq in E. subst c. exists s. reflexivity.
  - intros i Hi. unfold MAX_REGISTERS in Hi.
    assert (C : i = 0 \/ i = 1 \/ i = 2 \/ i = 3 \/ i = 4 \/ i = 5 \/ i = 6 \/ i = 7) by lia.
    repeat (destruct C as [-> | C]; [vm_compute; reflexivity | ]).
    subst i. vm_compute. reflexivity.
Qed.

Lemma parse_register_sound_and_complete_witness :
  parse_register (Some (register_token 5)) = 5.
Proof.
  apply (proj2 (proj2 parse_register_sound_and_complete) 5).
  unfold MAX_REGISTERS. lia.
Defined.

Lemma get_opcode_in_found (table : list (string * Z)) (mn : string) :
  get_opcode_in table mn = FAILURE \/ In (mn, get_opcode_in table mn) table.
Proof.
  induction table as [ | [mn' opcode] table IH]; cbn [get_opcode_in].
  - left. reflexivity.
  - unfold strcmp_eq. destruct (String.eqb mn mn') eqn:E.
    + apply String.eqb_eq in E. subst mn'. right. left. reflexivity.
    + destruct IH as [IH | IH]; [left; exact IH | right; right; exact IH].
Qed.

Lemma get_opcode_full (mn : string) :
  get_opcode mn (length opcode_table) = get_opcode_in opcode_table mn.
Proof. unfold get_opcode. rewrite firstn_all. reflexivity. Qed.

Lemma in_table_is_opcode (mn : string) (opcode : Z) :
  In (mn, opcode) opcode_table -> is_opcode opcode = true.
Proof.
  intros H. unfold is_opcode. apply existsb_exists. exists (mn, opcode).
  split; [exact H | apply Z.eqb_refl].
Qed.

(** X20.  [get_opcode] over the whole table inverts [opcode_table]: it
    returns [opcode], other than [FAILURE], exactly for the mnemonic of an
    entry [(mnemonic, opcode)], so that whatever it returns is [FAILURE] or
    one of the sixteen opcodes. *)
Theorem get_opcode_inverts_the_table :
  forall (mn : string) (opcode : Z),
    (get_opcode mn (length opcode_table) = opcode /\ opcode <> FAILURE
     <-> In (mn, opcode) opcode_table) /\
    (get_opcode mn (length opcode_table) = FAILURE \/
     is_opcode (get_opcode mn (length opcode_table)) = true).
Proof.
  intros mn opcode. rewrite get_opcode_full. split; [split | ].
  - intros [<- Hne]. destruct (get_opcode_in_found opcode_table mn) as [H | H];
      [contradiction | exact H].
  - intros H. unfold opcode_table in H. cbn [In] in H.
    repeat (destruct H as [[= <- <-] | H]; [split; [vm_compute; reflexivity | discriminate] | ]).
    contradiction.
  - destruct (get_opcode_in_found opcode_table mn) as [H | H]; [left; exact H | right].
    apply (in_table_is_opcode mn). exact H.
Qed.

Lemma get_opcode_inverts_the_table_witness :
  In ("JNZ"%string, ISA_JNZ) opcode_table.
Proof.
  apply (proj1 (get_opcode_inverts_the_table "JNZ" ISA_JNZ)).
  split; [vm_compute; reflexivity | discriminate].
Defined.

Lemma find_label_addr_app_bound (q : string) (l1 l2 : list Label) :
  bound q l1 = true -> find_label_addr q (l1 ++ l2) = find_label_addr q l1.
Proof.
  induction l1 as [ | l l1 IH]; cbn [bound existsb app find_label_addr]; [discriminate | ].
  destruct (strcmp_eq (name l) q); [reflexivity | ].
  cbn [orb]. exact IH.
Qed.

Lemma find_label_addr_app_unbound (q : string) (l1 l2 : list Label) :
  bound q l1 = false -> find_label_addr q (l1 ++ l2) = find_label_addr q l2.
Proof.
  induction l1 as [ | l l1 IH]; cbn [bound existsb app find_label_addr]; [reflexivity | ].
  destruct (strcmp_eq (name l) q); [discriminate | ].
  cbn [orb]. exact IH.
Qed.

Lemma find_label_addr_unbound (q : string) (labels : list Label) :
  bound q labels = false -> find_label_addr q labels = FAILURE.
Proof.
  intros H. rewrite <- (app_nil_r labels).
  rewrite find_label_addr_app_unbound by exact H. reflexivity.
Qed.

Lemma length_substring_le (n : nat) :
  forall s : string, (String.length (String.substring 0 n s) <= n)%nat.
Proof.
  induction n as [ | n IH]; intros s; destruct s as [ | c s]; cbn [String.substring String.length];
    try lia.
  specialize (IH s). lia.
Qed.

Lemma substring_all (n : nat) :
  forall s : string, (String.length s <= n)%nat -> String.substring 0 n s = s.
Proof.
  induction n as [ | n IH]; intros s; destruct s as [ | c s]; cbn [String.substring String.length];
    intros H; try reflexivity; try lia.
  rewrite IH by lia. reflexivity.
Qed.

(** X21.  The label table.  [add_label] fails exactly when the table holds
    [MAX_LABELS] entries; otherwise it appends one entry, the table stays
    within [MAX_LABELS], every name already in the table keeps resolving to
    what it resolved to (the first definition of a name wins), and a name
    not yet in the table resolves to the new address exactly when it is the
    new name cut to 63 characters: a label of at most 63 characters is found
    again, a longer one is never found under its full name. *)
Theorem label_table_lookup :
  forall (label_name : string) (addr : Z) (labels : list Label),
    (add_label label_name addr labels = None <-> MAX_LABELS <= Z.of_nat (length labels)) /\
    forall labels' : list Label,
      add_label label_name addr labels = Some labels' ->
      length labels' = S (length labels) /\
      Z.of_nat (length labels') <= MAX_LABELS /\
      (forall q, bound q labels = true ->
                 find_label_addr q labels' = find_label_addr q labels) /\
      (forall q, bound q labels = false ->
                 find_label_addr q labels' =
                 if String.eqb (String.substring 0 63 label_name) q
                 then to_int32 addr else FAILURE) /\
      ((String.length label_name <= 63)%nat -> bound label_name labels = false ->
       find_label_addr label_name labels' = to_int32 addr) /\
      ((63 < String.length label_name)%nat ->
       find_label_addr label_name labels' = find_label_addr label_name labels).
Proof.
  intros label_name addr labels. unfold add_label.
  destruct (MAX_LABELS <=? Z.of_nat (length labels)) eqn:E.
  - apply Z.leb_le in E. split; [tauto | discriminate].
  - apply Z.leb_gt in E. split; [split; [discriminate | lia] | ].
    intros labels' [= <-].
    assert (Hnew : forall q, bound q labels = false ->
              find_label_addr q (labels ++ [mkLabel (String.substring 0 63 label_name) addr]) =
              if String.eqb (String.substring 0 63 label_name) q
              then to_int32 addr else FAILURE).
    { intros q Hq. rewrite find_label_addr_app_unbound by exact Hq.
      cbn [find_label_addr name address]. unfold strcmp_eq. reflexivity. }
    repeat split.
    + rewrite length_app. cbn [length]. lia.
    + rewrite length_app. cbn [length]. lia.
    + intros q Hq. apply find_label_addr_app_bound. exact Hq.
    + exact Hnew.
    + intros Hlen Hq. rewrite (Hnew _ Hq), substring_all by exact Hlen.
      rewrite String.eqb_refl. reflexivity.
    + intros Hlen. destruct (bound label_name labels) eqn:Hq.
      * apply find_label_addr_app_bound. exact Hq.
      * rewrite (Hnew _ Hq), (find_label_addr_unbound _ _ Hq).
        destruct (String.eqb (String.substring 0 63 label_name) label_name) eqn:Eq;
          [ | reflexivity].
        apply String.eqb_eq in Eq.
        pose proof (length_substring_le 63 label_name) as Hle. rewrite Eq in Hle. lia.
Qed.

Lemma label_table_lookup_witness :
  find_label_addr "loop" [mkLabel "start" 0; mkLabel "loop" 6] = to_int32 6.
Proof.
  refine (proj1 (proj2 (proj2 (proj2 (proj2
            (proj2 (label_table_lookup "loop" 6 [mkLabel "start" 0])
                   [mkLabel "start" 0; mkLabel "loop" 6] _))))) _ _).
  - vm_compute. reflexivity.
  - vm_compute. lia.
  - vm_compute. reflexivity.
Defined.

(** ** Parser: cleaning a line *)

Lemma strip_comments_no_semicolon (s : string) : strchr (strip_comments s) ";" = None.
Proof.
  induction s as [ | c s IH]; cbn [strip_comments strchr]; [reflexivity | ].
  destruct (Ascii.eqb c ";") eqn:E; [reflexivity | ].
  cbn [strchr]. rewrite Ascii.eqb_sym, E. exact IH.
Qed.

Lemma strip_comments_fixed (s : string) : strchr s ";" = None -> strip_comments s = s.
Proof.
  induction s as [ | c s IH]; cbn [strip_comments strchr]; [reflexivity | ].
  rewrite Ascii.eqb_sym. destruct (Ascii.eqb c ";"); [discriminate | ].
  intros H. rewrite IH by exact H. reflexivity.
Qed.

Lemma remove_trailing_no_semicolon (s : string) :
  strchr s ";" = None -> strchr (remove_trailing_whitespaces s) ";" = None.
Proof.
  induction s as [ | c s IH]; cbn [remove_trailing_whitespaces strchr]; [reflexivity | ].
  destruct (Ascii.eqb ";" c) eqn:E; [discriminate | ]. intros H. specialize (IH H).
  destruct (remove_trailing_whitespaces s) as [ | c' s'].
  - destruct (is_line_space c); cbn [strchr]; [reflexivity | rewrite E; reflexivity].
  - cbn [strchr] in *. rewrite E. exact IH.
Qed.

Lemma remove_trailing_idempotent (s : string) :
  remove_trailing_whitespaces (remove_trailing_whitespaces s) = remove_trailing_whitespaces s.
Proof.
  induction s as [ | c s IH]; cbn [remove_trailing_whitespaces]; [reflexivity | ].
  destruct (remove_trailing_whitespaces s) as [ | c' s'] eqn:E.
  - destruct (is_line_space c) eqn:Ec; cbn [remove_trailing_whitespaces]; [reflexivity | ].
    rewrite Ec. reflexivity.
  - change (remove_trailing_whitespaces (String c (String c' s')))
      with (match remove_trailing_whitespaces (String c' s') with
            | EmptyString => if is_line_space c then EmptyString else String c EmptyString
            | String _ _ => String c (remove_trailing_whitespaces (String c' s'))
            end).
    rewrite IH. reflexivity.
Qed.

Lemma remove_leading_not_blank (s : string) :
  starts_blank (remove_leading_whitespaces s) = false.
Proof.
  induction s as [ | c s IH]; cbn [remove_leading_whitespaces]; [reflexivity | ].
  destruct (is_blank c) eqn:E; [exact IH | ].
  unfold starts_blank. cbn [head_char]. exact E.
Qed.

Lemma remove_leading_fixed (s : string) :
  starts_blank s = false -> remove_leading_whitespaces s = s.
Proof.
  destruct s as [ | c s]; [reflexivity | ].
  unfold starts_blank. cbn [head_char remove_leading_whitespaces]. intros ->. reflexivity.
Qed.

Lemma remove_trailing_not_blank (s : string) :
  starts_blank s = false -> starts_blank (remove_trailing_whitespaces s) = false.
Proof.
  destruct s as [ | c s]; [reflexivity | ].
  unfold starts_blank. cbn [head_char remove_trailing_whitespaces]. intros H.
  destruct (remove_trailing_whitespaces s); [destruct (is_line_space c) | ];
    cbn [head_char]; try reflexivity; exact H.
Qed.

Lemma strip_comments_not_blank (s : string) :
  starts_blank s = false -> starts_blank (strip_comments s) = false.
Proof.
  destruct s as [ | c s]; [reflexivity | ].
  unfold starts_blank. cbn [head_char strip_comments]. intros H.
  destruct (Ascii.eqb c ";"); cbn [head_char]; [reflexivity | exact H].
Qed.

Lemma is_empty_line_trailing (s : string) :
  is_empty_line s = String.eqb (remove_trailing_whitespaces s) EmptyString.
Proof.
  induction s as [ | c s IH]; cbn [is_empty_line remove_trailing_whitespaces]; [reflexivity | ].
  rewrite IH.
  destruct (remove_trailing_whitespaces s); destruct (is_line_space c); reflexivity.
Qed.

(** X22.  Cleaning a line.  After one cleaning, the text has no [;] and
    does not start with a space or a tab.  Pass 2 cleans the text pass 1 has
    cleaned: that second cleaning only removes trailing white space, and any
    further cleaning changes nothing.  A line is empty for [is_empty_line]
    exactly when removing its trailing white space leaves nothing, so both
    passes agree on which lines are empty. *)
Theorem clean_line_settles :
  forall line : string,
    strchr (clean_line line) ";" = None /\
    starts_blank (clean_line line) = false /\
    clean_line (clean_line line) = remove_trailing_whitespaces (clean_line line) /\
    clean_line (clean_line (clean_line line)) = clean_line (clean_line line) /\
    is_empty_line (clean_line (clean_line line)) = is_empty_line (clean_line line) /\
    (is_empty_line line = true <-> remove_trailing_whitespaces line = EmptyString).
Proof.
  intros line.
  assert (H1 : strchr (clean_line line) ";" = None)
    by (unfold clean_line; apply strip_comments_no_semicolon).
  assert (H2 : starts_blank (clean_line line) = false).
  { unfold clean_line. apply strip_comments_not_blank, remove_trailing_not_blank,
      remove_leading_not_blank. }
  assert (H3 : clean_line (clean_line line) = remove_trailing_whitespaces (clean_line line)).
  { unfold clean_line at 1. rewrite (remove_leading_fixed _ H2).
    apply strip_comments_fixed, remove_trailing_no_semicolon, H1. }
  repeat split.
  - exact H1.
  - exact H2.
  - exact H3.
  - rewrite H3. unfold clean_line at 1.
    rewrite (remove_leading_fixed _ (remove_trailing_not_blank _ H2)).
    rewrite remove_trailing_idempotent.
    apply strip_comments_fixed, remove_trailing_no_semicolon, H1.
  - rewrite H3, !is_empty_line_trailing, remove_trailing_idempotent. reflexivity.
  - rewrite is_empty_line_trailing. intros H. apply String.eqb_eq in H. exact H.
  - rewrite is_empty_line_trailing. intros ->. reflexivity.
Qed.

Lemma clean_line_settles_witness :
  clean_line (clean_line "  ADD R0, #1 ; count"%string)
  = remove_trailing_whitespaces (clean_line "  ADD R0, #1 ; count"%string) /\
  is_empty_line (clean_line " ; only a comment"%string) = true.
Proof.
  split.
  - apply (proj1 (proj2 (proj2 (clean_line_settles "  ADD R0, #1 ; count"%string)))).
  - apply (proj2 (proj2 (proj2 (proj2 (proj2
             (clean_line_settles (clean_line " ; only a comment"%string))))))).
    vm_compute. reflexivity.
Defined.

(** ** Assembler: what emission writes *)

Lemma with_pc_same (c : CPU) : with_pc (pc c) c = c.
Proof. destruct c. reflexivity. Qed.

Lemma with_pc_with_pc (a b : Z) (c : CPU) : with_pc a (with_pc b c) = with_pc a c.
Proof. reflexivity. Qed.

Lemma emit_eq (v : Z) (m : machine) :
  0 <= pc (cpu_of m) < RAM_SIZE -> emit v m = Some (tt, emitted [v] m).
Proof.
  intros H. unfold emit, emitted.
  assert (E : (0 <=? pc (cpu_of m)) && (pc (cpu_of m) <? RAM_SIZE) = true).
  { apply andb_true_iff. split; [apply Z.leb_le | apply Z.ltb_lt]; lia. }
  rewrite E. cbn [length store_words].
  rewrite wrap32_small by (unfold is_uint32, UINT32_MODULUS, RAM_SIZE in *; lia).
  reflexivity.
Qed.

Lemma emit_none (v : Z) (m : machine) :
  ~ 0 <= pc (cpu_of m) < RAM_SIZE -> emit v m = None.
Proof.
  intros H. unfold emit.
  destruct ((0 <=? pc (cpu_of m)) && (pc (cpu_of m) <? RAM_SIZE)) eqn:E; [ | reflexivity].
  apply andb_true_iff in E. destruct E as [E1 E2].
  apply Z.leb_le in E1. apply Z.ltb_lt in E2. lia.
Qed.

Lemma emitted_cons (w : Z) (ws : list Z) (m : machine) :
  emitted ws (emitted [w] m) = emitted (w :: ws) m.
Proof.
  unfold emitted. cbn [cpu_of ram_of with_pc pc length store_words].
  f_equal. unfold with_pc. cbn [pc address_registers registers zero_flag negative_flag running].
  f_equal. lia.
Qed.

Lemma emit_all_eq (ws : list Z) :
  forall m : machine,
    0 <= pc (cpu_of m) -> pc (cpu_of m) + Z.of_nat (length ws) <= RAM_SIZE -> ws <> [] ->
    emit_all ws m = Some (tt, emitted ws m).
Proof.
  induction ws as [ | w ws IH]; intros m H0 H1 Hne; [contradiction Hne; reflexivity | ].
  cbn [length] in H1. cbn [emit_all]. unfold abind.
  rewrite emit_eq by lia.
  destruct ws as [ | w' ws'].
  - cbn [emit_all]. unfold aret. reflexivity.
  - rewrite IH.
    + rewrite emitted_cons. reflexivity.
    + unfold emitted. cbn [cpu_of with_pc pc length]. lia.
    + unfold emitted. cbn [cpu_of with_pc pc length] in *. lia.
    + discriminate.
Qed.

Lemma emit_all_inv (ws : list Z) :
  forall m m' : machine,
    emit_all ws m = Some (tt, m') -> ws <> [] ->
    0 <= pc (cpu_of m) /\ pc (cpu_of m) + Z.of_nat (length ws) <= RAM_SIZE /\
    m' = emitted ws m.
Proof.
  induction ws as [ | w ws IH]; intros m m' H Hne; [contradiction Hne; reflexivity | ].
  cbn [emit_all] in H. unfold abind in H.
  destruct (emit w m) as [[[] m1] | ] eqn:E; [ | discriminate].
  destruct (emit_pc _ _ _ E) as [Hin Hpc1].
  rewrite emit_eq in E by exact Hin. injection E as <-.
  destruct ws as [ | w' ws'].
  - cbn [emit_all] in H. unfold aret in H. injection H as <-.
    cbn [length]. repeat split; lia.
  - destruct (IH _ _ H ltac:(discriminate)) as (H0 & H1 & ->).
    rewrite emitted_cons. cbn [length] in *. repeat split; lia.
Qed.

Lemma emit_all_overflow (ws : list Z) :
  forall m : machine,
    ws <> [] ->
    ~ (0 <= pc (cpu_of m) /\ pc (cpu_of m) + Z.of_nat (length ws) <= RAM_SIZE) ->
    emit_all ws m = None.
Proof.
  intros m Hne Hout. destruct (emit_all ws m) as [[[] m'] | ] eqn:E; [ | reflexivity].
  destruct (emit_all_inv _ _ _ E Hne) as (H0 & H1 & _). contradiction Hout. split; assumption.
Qed.

Lemma cell_insert_eq (ram : RAM) (a v : Z) :
  length (cells ram) = Z.to_nat RAM_SIZE -> 0 <= a < RAM_SIZE -> cell (set_cell ram a v) a = v.
Proof.
  intros Hlen Ha. unfold cell, set_cell. cbn [cells].
  rewrite list_lookup_insert_eq; [reflexivity | ].
  rewrite Hlen. apply Z2Nat.inj_lt; lia.
Qed.

Lemma cell_store_words_out (ws : list Z) :
  forall (ram : RAM) (a b : Z),
    0 <= a -> 0 <= b -> b < a \/ a + Z.of_nat (length ws) <= b ->
    cell (store_words ram a ws) b = cell ram b.
Proof.
  induction ws as [ | w ws IH]; intros ram a b Ha Hb Hout; cbn [store_words]; [reflexivity | ].
  cbn [length] in Hout. rewrite IH by lia. apply cell_set_cell_ne; lia.
Qed.

Lemma length_store_words (ws : list Z) :
  forall (ram : RAM) (a : Z), length (cells (store_words ram a ws)) = length (cells ram).
Proof.
  induction ws as [ | w ws IH]; intros ram a; cbn [store_words]; [reflexivity | ].
  rewrite IH. unfold set_cell. cbn [cells]. apply length_insert.
Qed.

Lemma cell_store_words_in (ws : list Z) :
  forall (ram : RAM) (a : Z) (i : nat) (w : Z),
    length (cells ram) = Z.to_nat RAM_SIZE ->
    0 <= a -> a + Z.of_nat (length ws) <= RAM_SIZE ->
    ws !! i = Some w ->
    cell (store_words ram a ws) (a + Z.of_nat i) = w.
Proof.
  induction ws as [ | w0 ws IH]; intros ram a i w Hlen Ha Hfit Hi; [discriminate | ].
  cbn [length] in Hfit. cbn [store_words]. destruct i as [ | i].
  - injection Hi as <-. rewrite Z.add_0_r.
    rewrite cell_store_words_out by lia. apply cell_insert_eq; [exact Hlen | lia].
  - replace (a + Z.of_nat (S i)) with (a + 1 + Z.of_nat i) by lia.
    apply IH; [ | lia | lia | exact Hi].
    unfold set_cell. cbn [cells]. rewrite length_insert. exact Hlen.
Qed.

(** X23.  What [emit] writes.  A sequence of [emit] calls goes through
    exactly when all the cells it writes are inside the memory; it then
    leaves the words in consecutive cells from the program counter on, every
    other cell as it was, the program counter just behind the last word and
    the rest of the processor untouched.  When a cell would lie outside the
    memory, the write is outside the array. *)
Theorem emit_writes_consecutive_cells :
  forall (ws : list Z) (m : machine),
    ram_wf (ram_of m) -> ws <> [] ->
    (0 <= pc (cpu_of m) /\ pc (cpu_of m) + Z.of_nat (length ws) <= RAM_SIZE ->
     exists m' : machine,
       emit_all ws m = Some (tt, m') /\
       pc (cpu_of m') = pc (cpu_of m) + Z.of_nat (length ws) /\
       same_but_pc (cpu_of m) (cpu_of m') /\
       (forall (i : nat) (w : Z),
          ws !! i = Some w -> cell (ram_of m') (pc (cpu_of m) + Z.of_nat i) = w) /\
       (forall a : Z,
          0 <= a -> a < pc (cpu_of m) \/ pc (cpu_of m) + Z.of_nat (length ws) <= a ->
          cell (ram_of m') a = cell (ram_of m) a)) /\
    (~ (0 <= pc (cpu_of m) /\ pc (cpu_of m) + Z.of_nat (length ws) <= RAM_SIZE) ->
     emit_all ws m = None).
Proof.
  intros ws m [Hlen _] Hne. split.
  - intros [H0 H1]. exists (emitted ws m). split; [apply emit_all_eq; assumption | ].
    unfold emitted. cbn [cpu_of ram_of with_pc pc]. split; [reflexivity | ].
    split; [repeat split | split].
    + intros i w Hi. apply cell_store_words_in; assumption.
    + intros a Ha Hout. apply cell_store_words_out; assumption.
  - apply emit_all_overflow. exact Hne.
Qed.

Lemma emit_writes_consecutive_cells_witness :
  emit_all [ISA_HALT] (mkMachine (with_pc RAM_SIZE cpu_init) ram_init) = None.
Proof.
  apply (emit_writes_consecutive_cells [ISA_HALT] (mkMachine (with_pc RAM_SIZE cpu_init) ram_init)).
  - apply ram_init_wf.
  - discriminate.
  - cbn [cpu_of with_pc pc length]. unfold RAM_SIZE. lia.
Defined.

(** ** Assembler: the instruction handlers *)

Lemma emit_all_then_inv (ws : list Z) (m m' : machine) (b : bool) :
  (let+ _ := emit_all ws in aret true) m = Some (b, m') ->
  b = true /\ emit_all ws m = Some (tt, m').
Proof.
  unfold abind. destruct (emit_all ws m) as [[[] m1] | ]; [ | discriminate].
  unfold aret. intros [= <- <-]. split; reflexivity.
Qed.

Lemma aret_inv {A : Type} (a b : A) (m m' : machine) :
  aret a m = Some (b, m') -> b = a /\ m' = m.
Proof. unfold aret. intros [= <- <-]. split; reflexivity. Qed.

Lemma require_one_not_failure (v : Z) :
  negb (require_all_not_failure [v]) = false -> v <> FAILURE.
Proof.
  unfold require_all_not_failure. cbn [forallb]. rewrite andb_true_r, negb_involutive.
  intros H. apply Z.eqb_neq in H. exact H.
Qed.

Lemma require_two_not_failure (v w : Z) :
  negb (require_all_not_failure [v; w]) = false -> v <> FAILURE /\ w <> FAILURE.
Proof.
  unfold require_all_not_failure. cbn [forallb]. rewrite andb_true_r.
  intros H. apply negb_false_iff, andb_true_iff in H. destruct H as [H1 H2].
  apply negb_true_iff in H1, H2. apply Z.eqb_neq in H1, H2. split; assumption.
Qed.

Lemma is_reg_index_valid_asm_true (r : Z) :
  negb (is_reg_index_valid_asm r) = false -> 0 <= r < MAX_REGISTERS.
Proof.
  unfold is_reg_index_valid_asm.
  destruct ((r <? 0) || (MAX_REGISTERS <=? r)) eqn:E; [discriminate | ].
  intros _. apply orb_false_iff in E. destruct E as [E1 E2].
  apply Z.ltb_ge in E1. apply Z.leb_gt in E2. lia.
Qed.

Lemma is_addr_index_valid_asm_true (r : Z) :
  is_addr_index_valid_asm r = true -> 0 <= r < MAX_ADDRESS_REGISTERS.
Proof.
  unfold is_addr_index_valid_asm.
  destruct ((r <? 0) || (MAX_ADDRESS_REGISTERS <=? r)) eqn:E; [discriminate | ].
  intros _. apply orb_false_iff in E. destruct E as [E1 E2].
  apply Z.ltb_ge in E1. apply Z.leb_gt in E2. lia.
Qed.

Lemma is_addr_literal_valid_true (a : Z) :
  is_addr_literal_valid a = true -> a < RAM_SIZE.
Proof.
  unfold is_addr_literal_valid. destruct (RAM_SIZE <=? a) eqn:E; [discriminate | ].
  intros _. apply Z.leb_gt in E. exact E.
Qed.

Lemma wrap32_register (r : Z) : 0 <= r < 8 -> wrap32 r = r.
Proof. intros H. apply wrap32_small. unfold is_uint32, UINT32_MODULUS. lia. Qed.

Lemma parse_register_valid (tok : option string) :
  parse_register tok <> FAILURE -> 0 <= parse_register tok < MAX_REGISTERS.
Proof. intros H. destruct (parse_register_range tok) as [E | E]; [contradiction | exact E]. Qed.

Lemma memory_operands_ok_true (r addr : Z) (is_literal : bool) :
  negb (memory_operands_ok r addr is_literal) = false ->
  0 <= r < MAX_REGISTERS /\
  memory_operand_valid (if is_literal then ADDR_LITERAL else ADDR_REGISTER) (wrap32 addr).
Proof.
  unfold memory_operands_ok.
  destruct (negb (require_all_not_failure [r; addr])); [discriminate | ].
  destruct (negb (is_reg_index_valid_asm r)) eqn:Er; [discriminate | ].
  apply is_reg_index_valid_asm_true in Er. intros H. apply negb_false_iff in H.
  split; [exact Er | ]. destruct is_literal.
  - left. split; [reflexivity | apply is_addr_literal_valid_true; exact H].
  - right. split; [reflexivity | ].
    apply is_addr_index_valid_asm_true in H. unfold MAX_ADDRESS_REGISTERS in *.
    rewrite wrap32_register; lia.
Qed.

(** What each handler writes when it accepts its operands. *)

Lemma handle_loadi_instruction_words (op1 op2 : option string) (m m' : machine) :
  handle_loadi_instruction op1 op2 m = Some (true, m') ->
  exists s2 : string,
    op2 = Some s2 /\ 0 <= parse_register op1 < MAX_REGISTERS /\
    emit_all [ISA_LOADI; parse_register op1; wrap32 (st_value (strtol (skip_hash s2) 0))] m
    = Some (tt, m').
Proof.
  unfold handle_loadi_instruction.
  destruct op1 as [s1 | ]; [ | apply aret_false_not_true].
  destruct op2 as [s2 | ]; [ | apply aret_false_not_true].
  destruct (negb (require_all_not_failure [parse_register (Some s1)])) eqn:E;
    [apply aret_false_not_true | ].
  apply require_one_not_failure, parse_register_valid in E.
  intros H. apply emit_all_then_inv in H. destruct H as [_ H].
  exists s2. rewrite wrap32_register in H by exact E. repeat split; try apply E. exact H.
Qed.

Lemma handle_loada_instruction_words (op1 op2 : option string) (m m' : machine) :
  handle_loada_instruction op1 op2 m = Some (true, m') ->
  exists r a : Z,
    0 <= r < MAX_ADDRESS_REGISTERS /\ a < RAM_SIZE /\
    emit_all [ISA_LOADA; r; a] m = Some (tt, m').
Proof.
  unfold handle_loada_instruction.
  destruct (negb (require_two_operands op1 op2)); [apply aret_false_not_true | ].
  destruct (negb (require_all_not_failure _)); [apply aret_false_not_true | ].
  destruct (negb (is_addr_index_valid_asm (parse_address op1 false))) eqn:Er;
    [apply aret_false_not_true | ].
  destruct (negb (is_addr_literal_valid (wrap32 (parse_address op2 true)))) eqn:Ea;
    [apply aret_false_not_true | ].
  apply negb_false_iff in Er, Ea.
  apply is_addr_index_valid_asm_true in Er. apply is_addr_literal_valid_true in Ea.
  intros H. apply emit_all_then_inv in H. destruct H as [_ H].
  exists (parse_address op1 false), (wrap32 (parse_address op2 true)).
  rewrite wrap32_register in H by (unfold MAX_ADDRESS_REGISTERS in Er; exact Er).
  repeat split; try apply Er; assumption.
Qed.

Lemma handle_loadm_instruction_words (op1 op2 : option string) (m m' : machine) :
  handle_loadm_instruction op1 op2 m = Some (true, m') ->
  exists r mode a : Z,
    0 <= r < MAX_REGISTERS /\ memory_operand_valid mode a /\
    emit_all [ISA_LOADM; r; mode; a] m = Some (tt, m').
Proof.
  unfold handle_loadm_instruction.
  destruct (negb (require_two_operands op1 op2)); [apply aret_false_not_true | ].
  destruct (parse_address_parenthesis op2 false) as [addr is_literal].
  destruct (negb (memory_operands_ok (parse_register op1) addr is_literal)) eqn:E;
    [apply aret_false_not_true | ].
  apply memory_operands_ok_true in E. destruct E as [Er Ea].
  intros H. apply emit_all_then_inv in H. destruct H as [_ H].
  rewrite wrap32_register in H by exact Er.
  exists (parse_register op1), (if is_literal then ADDR_LITERAL else ADDR_REGISTER),
    (wrap32 addr).
  repeat split; try apply Er; assumption.
Qed.

Lemma handle_storem_instruction_words (op1 op2 : option string) (m m' : machine) :
  handle_storem_instruction op1 op2 m = Some (true, m') ->
  exists r mode a : Z,
    0 <= r < MAX_REGISTERS /\ memory_operand_valid mode a /\
    emit_all [ISA_STOREM; a; mode; r] m = Some (tt, m').
Proof.
  unfold handle_storem_instruction.
  destruct (negb (require_two_operands op1 op2)); [apply aret_false_not_true | ].
  destruct (parse_address_parenthesis op1 false) as [addr is_literal].
  destruct (negb (memory_operands_ok (parse_register op2) addr is_literal)) eqn:E;
    [apply aret_false_not_true | ].
  apply memory_operands_ok_true in E. destruct E as [Er Ea].
  intros H. apply emit_all_then_inv in H. destruct H as [_ H].
  rewrite (wrap32_register (parse_register op2)) in H by exact Er.
  exists (parse_register op2), (if is_literal then ADDR_LITERAL else ADDR_REGISTER),
    (wrap32 addr).
  repeat split; try apply Er; assumption.
Qed.

Lemma handle_arithmetic_instruction_words (opcode : Z) (op1 op2 : option string)
      (m m' : machine) :
  handle_arithmetic_instruction opcode op1 op2 m = Some (true, m') ->
  exists dst mode src : Z,
    0 <= dst < MAX_REGISTERS /\
    ((mode = OPERAND_REGISTER /\ 0 <= src < MAX_REGISTERS) \/ mode = OPERAND_NUMERIC) /\
    emit_all [opcode; dst; mode; src] m = Some (tt, m').
Proof.
  unfold handle_arithmetic_instruction.
  destruct (negb (require_two_operands op1 op2)); [apply aret_false_not_true | ].
  destruct (negb (require_all_not_failure _)); [apply aret_false_not_true | ].
  destruct (negb (is_reg_index_valid_asm (parse_register op1))) eqn:Ed;
    [apply aret_false_not_true | ].
  apply is_reg_index_valid_asm_true in Ed.
  destruct (negb (parse_register op2 =? FAILURE)) eqn:Es.
  - apply negb_true_iff, Z.eqb_neq, parse_register_valid in Es.
    intros H. apply emit_all_then_inv in H. destruct H as [_ H].
    rewrite !wrap32_register in H by assumption.
    exists (parse_register op1), OPERAND_REGISTER, (parse_register op2).
    repeat split; try apply Ed; [left; split; [reflexivity | exact Es] | exact H].
  - destruct op2 as [s2 | ]; [ | apply aret_false_not_true].
    repeat match goal with
           | |- (if ?c then _ else _) _ = _ -> _ => destruct c; [apply aret_false_not_true | ]
           end.
    intros H. apply emit_all_then_inv in H. destruct H as [_ H].
    rewrite wrap32_register in H by assumption.
    exists (parse_register op1), OPERAND_NUMERIC, (wrap32 (st_value (strtol (skip_hash s2) 0))).
    repeat split; try apply Ed; [right; reflexivity | exact H].
Qed.

Lemma handle_cmp_instruction_words (op1 op2 : option string) (m m' : machine) :
  handle_cmp_instruction op1 op2 m = Some (true, m') ->
  exists a b : Z,
    0 <= a < MAX_REGISTERS /\ 0 <= b < MAX_REGISTERS /\
    emit_all [ISA_CMP; a; b] m = Some (tt, m').
Proof.
  unfold handle_cmp_instruction.
  destruct (negb (require_two_operands op1 op2)); [apply aret_false_not_true | ].
  destruct (negb (require_all_not_failure _)); [apply aret_false_not_true | ].
  destruct (negb (is_reg_index_valid_asm (parse_register op1))) eqn:Ea;
    [apply aret_false_not_true | ].
  destruct (negb (is_reg_index_valid_asm (parse_register op2))) eqn:Eb;
    [apply aret_false_not_true | ].
  apply is_reg_index_valid_asm_true in Ea, Eb.
  intros H. apply emit_all_then_inv in H. destruct H as [_ H].
  rewrite !wrap32_register in H by assumption.
  exists (parse_register op1), (parse_register op2).
  repeat split; try apply Ea; try apply Eb; exact H.
Qed.

Lemma handle_jmp_instructions_words (opcode : Z) (op1 : option string) (labels : list Label)
      (m m' : machine) :
  handle_jmp_instructions opcode op1 labels m = Some (true, m') ->
  exists target : Z, emit_all [wrap32 opcode; target] m = Some (tt, m').
Proof.
  unfold handle_jmp_instructions.
  destruct op1 as [s1 | ]; [ | apply aret_false_not_true].
  match goal with
  | |- (if ?c then _ else _) _ = _ -> _ => destruct c; [apply aret_false_not_true | ]
  end.
  intros H. apply emit_all_then_inv in H. destruct H as [_ H].
  eexists. exact H.
Qed.

Lemma emitted_word (ws : list Z) (m m' : machine) (k w : Z) :
  ram_wf (ram_of m) -> emit_all ws m = Some (tt, m') ->
  0 <= k -> ws !! Z.to_nat k = Some w ->
  word_at (rewound m m') k = w.
Proof.
  intros [Hlen _] He Hk Hw.
  assert (Hne : ws <> []) by (intros ->; discriminate).
  destruct (emit_all_inv _ _ _ He Hne) as (H0 & H1 & ->).
  assert (Hlt : (Z.to_nat k < length ws)%nat) by (apply lookup_lt_is_Some; eexists; exact Hw).
  rewrite word_at_unfold. unfold rewound, emitted. cbn [cpu_of ram_of with_pc pc].
  rewrite wrap32_small by (unfold is_uint32, UINT32_MODULUS, RAM_SIZE in *; lia).
  destruct (RAM_SIZE <=? pc (cpu_of m) + k) eqn:E; [apply Z.leb_le in E; lia | ].
  replace (pc (cpu_of m) + k) with (pc (cpu_of m) + Z.of_nat (Z.to_nat k)) by lia.
  apply cell_store_words_in; assumption.
Qed.

Ltac emitted_words He Hwf :=
  repeat match goal with
         | |- context [word_at (rewound ?m ?m') ?k] =>
             rewrite (emitted_word _ m m' k _ Hwf He ltac:(lia) eq_refl)
         end.

(** The operands of an accepted instruction, read back at the program
    counter where its emission began. *)
Lemma accepted_words_are_valid :
  forall (opcode : Z) (op1 op2 : option string) (labels : list Label) (m m' : machine),
    ram_wf (ram_of m) -> is_opcode opcode = true ->
    pass2_emit opcode op1 op2 labels m = Some (true, m') ->
    word_at (rewound m m') 0 = opcode /\
    Forall (fun r => r < MAX_REGISTERS) (register_operands (rewound m m')) /\
    (opcode = ISA_LOADA ->
     word_at (rewound m m') 1 < MAX_ADDRESS_REGISTERS /\ word_at (rewound m m') 2 < RAM_SIZE) /\
    (opcode = ISA_LOADM ->
     memory_operand_valid (word_at (rewound m m') 2) (word_at (rewound m m') 3)) /\
    (opcode = ISA_STOREM ->
     memory_operand_valid (word_at (rewound m m') 2) (word_at (rewound m m') 1)) /\
    (is_arith_opcode opcode = true ->
     word_at (rewound m m') 2 = OPERAND_REGISTER \/ word_at (rewound m m') 2 = OPERAND_NUMERIC).
Proof.
  intros opcode op1 op2 labels m m' Hwf Hop Hemit.
  apply is_opcode_cases in Hop.
  destruct Hop as [-> | [-> | [-> | [-> | [Ha | [-> | [-> | [-> | [-> | ->]]]]]]]]].
  - change (pass2_emit ISA_LOADI op1 op2 labels) with (handle_loadi_instruction op1 op2) in Hemit.
    apply handle_loadi_instruction_words in Hemit. destruct Hemit as (s2 & _ & Hr & He).
    unfold register_operands. emitted_words He Hwf.
    repeat split; try discriminate. cbn. apply Forall_cons. split; [lia | apply Forall_nil_2].
  - change (pass2_emit ISA_LOADA op1 op2 labels) with (handle_loada_instruction op1 op2) in Hemit.
    apply handle_loada_instruction_words in Hemit. destruct Hemit as (r & a & Hr & Hlit & He).
    unfold register_operands. emitted_words He Hwf.
    repeat split; try discriminate; try lia. cbn. apply Forall_nil_2.
  - change (pass2_emit ISA_LOADM op1 op2 labels) with (handle_loadm_instruction op1 op2) in Hemit.
    apply handle_loadm_instruction_words in Hemit.
    destruct Hemit as (r & mode & a & Hr & Hmem & He).
    unfold register_operands. emitted_words He Hwf.
    repeat split; try discriminate; try (intros _; exact Hmem).
    cbn. apply Forall_cons. split; [lia | apply Forall_nil_2].
  - change (pass2_emit ISA_STOREM op1 op2 labels) with (handle_storem_instruction op1 op2)
      in Hemit.
    apply handle_storem_instruction_words in Hemit.
    destruct Hemit as (r & mode & a & Hr & Hmem & He).
    unfold register_operands. emitted_words He Hwf.
    repeat split; try discriminate; try (intros _; exact Hmem).
    cbn. apply Forall_cons. split; [lia | apply Forall_nil_2].
  - assert (Hemit' : handle_arithmetic_instruction opcode op1 op2 m = Some (true, m')).
    { apply is_arith_opcode_cases in Ha.
      destruct Ha as [-> | [-> | [-> | [-> | [-> | [-> | ->]]]]]]; exact Hemit. }
    apply handle_arithmetic_instruction_words in Hemit'.
    destruct Hemit' as (dst & mode & src & Hd & Hmode & He).
    unfold register_operands. emitted_words He Hwf.
    assert (Hregs : Forall (fun r => r < MAX_REGISTERS)
                      (if mode =? OPERAND_REGISTER then [dst; src] else [dst])).
    { destruct Hmode as [[-> Hs] | ->]; cbn;
        repeat (apply Forall_cons; split; [lia | ]); apply Forall_nil_2. }
    assert (Htag : mode = OPERAND_REGISTER \/ mode = OPERAND_NUMERIC)
      by (destruct Hmode as [[-> _] | ->]; [left | right]; reflexivity).
    apply is_arith_opcode_cases in Ha.
    destruct Ha as [-> | [-> | [-> | [-> | [-> | [-> | ->]]]]]];
      (repeat split; try discriminate; [exact Hregs | intros _; exact Htag]).
  - change (pass2_emit ISA_JMP op1 op2 labels) with (handle_jmp_instructions ISA_JMP op1 labels)
      in Hemit.
    apply handle_jmp_instructions_words in Hemit. destruct Hemit as (t & He).
    unfold register_operands. emitted_words He Hwf.
    repeat split; try discriminate. cbn. apply Forall_nil_2.
  - change (pass2_emit ISA_JZ op1 op2 labels) with (handle_jmp_instructions ISA_JZ op1 labels)
      in Hemit.
    apply handle_jmp_instructions_words in Hemit. destruct Hemit as (t & He).
    unfold register_operands. emitted_words He Hwf.
    repeat split; try discriminate. cbn. apply Forall_nil_2.
  - change (pass2_emit ISA_JNZ op1 op2 labels) with (handle_jmp_instructions ISA_JNZ op1 labels)
      in Hemit.
    apply handle_jmp_instructions_words in Hemit. destruct Hemit as (t & He).
    unfold register_operands. emitted_words He Hwf.
    repeat split; try discriminate. cbn. apply Forall_nil_2.
  - change (pass2_emit ISA_CMP op1 op2 labels) with (handle_cmp_instruction op1 op2) in Hemit.
    apply handle_cmp_instruction_words in Hemit. destruct Hemit as (a & b & Ha & Hb & He).
    unfold register_operands. emitted_words He Hwf.
    repeat split; try discriminate. cbn.
    repeat (apply Forall_cons; split; [lia | ]). apply Forall_nil_2.
  - change (pass2_emit ISA_HALT op1 op2 labels) with (let+ _ := emit ISA_HALT in aret true)
      in Hemit.
    assert (He : emit_all [ISA_HALT] m = Some (tt, m')).
    { unfold abind in Hemit. cbn [emit_all]. unfold abind.
      destruct (emit ISA_HALT m) as [[[] m1] | ]; [ | discriminate].
      unfold aret in *. injection Hemit as <-. reflexivity. }
    unfold register_operands. emitted_words He Hwf.
    repeat split; try discriminate. cbn. apply Forall_nil_2.
Qed.


Lemma accepted_eq (d : machine) (r : option (bool * machine)) :
  verdict_of r = true -> r = Some (true, state_after d r).
Proof. destruct r as [[[ | ] m] | ]; cbn; intros H; first [reflexivity | discriminate H]. Qed.

Ltac uint32_constant := unfold is_uint32, UINT32_MODULUS; split; [discriminate | reflexivity].

Lemma is_opcode_uint32 (opcode : Z) : is_opcode opcode = true -> is_uint32 opcode.
Proof.
  intros H. apply is_opcode_cases in H.
  destruct H as [-> | [-> | [-> | [-> | [Ha | [-> | [-> | [-> | [-> | ->]]]]]]]]];
    try uint32_constant.
  apply is_arith_opcode_cases in Ha.
  destruct Ha as [-> | [-> | [-> | [-> | [-> | [-> | ->]]]]]]; uint32_constant.
Qed.

Ltac uint32_words :=
  repeat (apply Forall_cons; split;
          [first [apply wrap32_range | assumption | uint32_constant] | ]);
  apply Forall_nil_2.

(** Each handler decides on the operands alone whether it emits, and what. *)

Lemma rejects_always (opcode : Z) : emits_or_rejects opcode (aret false).
Proof. left. intros m. reflexivity. Qed.

Lemma emits_always (opcode : Z) (ws : list Z) :
  ws <> [] -> (length ws <= 4)%nat -> (is_uint32 opcode -> Forall is_uint32 ws) ->
  emits_or_rejects opcode (let+ _ := emit_all ws in aret true).
Proof.
  intros Hne Hlen Hall. right. exists ws.
  split; [exact Hne | split; [exact Hlen | split; [exact Hall | reflexivity]]].
Qed.

Ltac handler_factors :=
  cbv zeta;
  repeat match goal with
         | |- emits_or_rejects _ (aret false) => apply rejects_always
         | |- emits_or_rejects _ (abind (emit_all _) _) =>
             apply emits_always; [discriminate | cbn [length]; lia | intros ?; uint32_words]
         | |- emits_or_rejects _ (if ?c then _ else _) => destruct c
         end.

Lemma handle_loadi_instruction_factors (op1 op2 : option string) :
  emits_or_rejects ISA_LOADI (handle_loadi_instruction op1 op2).
Proof.
  unfold handle_loadi_instruction.
  destruct op1 as [s1 | ]; [ | apply rejects_always].
  destruct op2 as [s2 | ]; [ | apply rejects_always].
  handler_factors.
Qed.

Lemma handle_loada_instruction_factors (op1 op2 : option string) :
  emits_or_rejects ISA_LOADA (handle_loada_instruction op1 op2).
Proof. unfold handle_loada_instruction. handler_factors. Qed.

Lemma handle_loadm_instruction_factors (op1 op2 : option string) :
  emits_or_rejects ISA_LOADM (handle_loadm_instruction op1 op2).
Proof.
  unfold handle_loadm_instruction.
  destruct (negb (require_two_operands op1 op2)); [apply rejects_always | ].
  destruct (parse_address_parenthesis op2 false) as [addr [ | ]]; handler_factors.
Qed.

Lemma handle_storem_instruction_factors (op1 op2 : option string) :
  emits_or_rejects ISA_STOREM (handle_storem_instruction op1 op2).
Proof.
  unfold handle_storem_instruction.
  destruct (negb (require_two_operands op1 op2)); [apply rejects_always | ].
  destruct (parse_address_parenthesis op1 false) as [addr [ | ]]; handler_factors.
Qed.

Lemma handle_arithmetic_instruction_factors (opcode : Z) (op1 op2 : option string) :
  emits_or_rejects opcode (handle_arithmetic_instruction opcode op1 op2).
Proof.
  unfold handle_arithmetic_instruction. cbv zeta.
  destruct (negb (require_two_operands op1 op2)); [apply rejects_always | ].
  destruct (negb (require_all_not_failure _)); [apply rejects_always | ].
  destruct (negb (is_reg_index_valid_asm (parse_register op1))); [apply rejects_always | ].
  destruct (negb (parse_register op2 =? FAILURE)).
  - handler_factors.
  - destruct op2 as [s2 | ]; [ | apply rejects_always]. handler_factors.
Qed.

Lemma handle_cmp_instruction_factors (op1 op2 : option string) :
  emits_or_rejects ISA_CMP (handle_cmp_instruction op1 op2).
Proof. unfold handle_cmp_instruction. handler_factors. Qed.

Lemma handle_jmp_instructions_factors (opcode : Z) (op1 : option string)
      (labels : list Label) :
  emits_or_rejects opcode (handle_jmp_instructions opcode op1 labels).
Proof.
  unfold handle_jmp_instructions.
  destruct op1 as [s1 | ]; [ | apply rejects_always].
  handler_factors.
Qed.

Lemma halt_factors : emits_or_rejects ISA_HALT (let+ _ := emit ISA_HALT in aret true).
Proof.
  right. exists [ISA_HALT].
  split; [discriminate | split; [cbn [length]; lia | split; [intros ?; uint32_words | ]]].
  intros m. unfold abind. cbn [emit_all]. unfold abind.
  destruct (emit ISA_HALT m) as [[[] m1] | ]; reflexivity.
Qed.

Lemma pass2_emit_factors (opcode : Z) (op1 op2 : option string) (labels : list Label) :
  emits_or_rejects opcode (pass2_emit opcode op1 op2 labels).
Proof.
  unfold pass2_emit.
  destruct (opcode =? ISA_LOADI) eqn:E1;
    [apply Z.eqb_eq in E1; subst; apply handle_loadi_instruction_factors | ].
  destruct (opcode =? ISA_LOADA) eqn:E2;
    [apply Z.eqb_eq in E2; subst; apply handle_loada_instruction_factors | ].
  destruct (opcode =? ISA_LOADM) eqn:E3;
    [apply Z.eqb_eq in E3; subst; apply handle_loadm_instruction_factors | ].
  destruct (opcode =? ISA_STOREM) eqn:E4;
    [apply Z.eqb_eq in E4; subst; apply handle_storem_instruction_factors | ].
  match goal with
  | |- emits_or_rejects _ (if ?c then _ else _) =>
      destruct c; [apply handle_arithmetic_instruction_factors | ]
  end.
  destruct (opcode =? ISA_CMP) eqn:E5;
    [apply Z.eqb_eq in E5; subst; apply handle_cmp_instruction_factors | ].
  match goal with
  | |- emits_or_rejects _ (if ?c then _ else _) =>
      destruct c; [apply handle_jmp_instructions_factors | ]
  end.
  destruct (opcode =? ISA_HALT) eqn:E6;
    [apply Z.eqb_eq in E6; subst; apply halt_factors | ].
  apply rejects_always.
Qed.

(** With four cells left in the memory, a handler returns: it has written
    nothing, or all its words. *)
Lemma factors_total (opcode : Z) (h : Asm bool) (m : machine) :
  emits_or_rejects opcode h ->
  0 <= pc (cpu_of m) -> pc (cpu_of m) + 4 <= RAM_SIZE ->
  exists (b : bool) (m' : machine),
    h m = Some (b, m') /\
    (b = false -> m' = m) /\
    (b = true ->
     exists ws : list Z, ws <> [] /\ (length ws <= 4)%nat /\ m' = emitted ws m).
Proof.
  intros [Hr | (ws & Hne & Hlen & _ & He)] H0 H4.
  - exists false, m. split; [apply Hr | split; [reflexivity | discriminate]].
  - exists true, (emitted ws m). split.
    + rewrite He. unfold abind. rewrite emit_all_eq by (try assumption; lia). reflexivity.
    + split; [discriminate | ]. intros _. exists ws.
      split; [exact Hne | split; [exact Hlen | reflexivity]].
Qed.

(** X24.  Register and memory operands of an instruction that pass 2
    accepts pass the interpreter's checks.  With at least four cells left in
    the memory at the program counter ([emit] does not check), the handler
    for any of the sixteen opcodes returns a verdict; when it accepts, the
    words it has written at the program counter start with the opcode; every
    word the interpreter will decode as a general-register index is below 8;
    a load-address carries an address-register index below 8 and an address
    below 65536; a load-from-memory or store-to-memory carries a mode tag and
    an address operand that fit together; an arithmetic instruction carries
    one of the two operand-mode tags.  Jump targets and numeric operands are
    not covered: they are emitted as they are. *)
Theorem accepted_indices_are_valid :
  forall (opcode : Z) (op1 op2 : option string) (labels : list Label) (m : machine),
    ram_wf (ram_of m) -> is_opcode opcode = true ->
    0 <= pc (cpu_of m) -> pc (cpu_of m) + 4 <= RAM_SIZE ->
    exists (b : bool) (m' : machine),
      pass2_emit opcode op1 op2 labels m = Some (b, m') /\
      (b = true ->
       word_at (rewound m m') 0 = opcode /\
       Forall (fun r => r < MAX_REGISTERS) (register_operands (rewound m m')) /\
       (opcode = ISA_LOADA ->
        word_at (rewound m m') 1 < MAX_ADDRESS_REGISTERS /\
        word_at (rewound m m') 2 < RAM_SIZE) /\
       (opcode = ISA_LOADM ->
        memory_operand_valid (word_at (rewound m m') 2) (word_at (rewound m m') 3)) /\
       (opcode = ISA_STOREM ->
        memory_operand_valid (word_at (rewound m m') 2) (word_at (rewound m m') 1)) /\
       (is_arith_opcode opcode = true ->
        word_at (rewound m m') 2 = OPERAND_REGISTER \/
        word_at (rewound m m') 2 = OPERAND_NUMERIC)).
Proof.
  intros opcode op1 op2 labels m Hwf Hop H0 H4.
  destruct (factors_total opcode _ m (pass2_emit_factors opcode op1 op2 labels) H0 H4)
    as (b & m' & Hemit & _ & _).
  exists b, m'. split; [exact Hemit | ]. intros ->.
  apply (accepted_words_are_valid opcode op1 op2 labels m m' Hwf Hop Hemit).
Qed.

Lemma accepted_indices_are_valid_witness :
  verdict_of (pass2_emit ISA_STOREM (Some "(A3)"%string) (Some "R2"%string) [] fresh_machine)
  = true /\
  exists (b : bool) (m' : machine),
    pass2_emit ISA_STOREM (Some "(A3)"%string) (Some "R2"%string) [] fresh_machine
    = Some (b, m') /\
    (b = true ->
     word_at (rewound fresh_machine m') 0 = ISA_STOREM /\
     Forall (fun r => r < MAX_REGISTERS) (register_operands (rewound fresh_machine m')) /\
     (ISA_STOREM = ISA_LOADA ->
      word_at (rewound fresh_machine m') 1 < MAX_ADDRESS_REGISTERS /\
      word_at (rewound fresh_machine m') 2 < RAM_SIZE) /\
     (ISA_STOREM = ISA_LOADM ->
      memory_operand_valid (word_at (rewound fresh_machine m') 2)
                           (word_at (rewound fresh_machine m') 3)) /\
     (ISA_STOREM = ISA_STOREM ->
      memory_operand_valid (word_at (rewound fresh_machine m') 2)
                           (word_at (rewound fresh_machine m') 1)) /\
     (is_arith_opcode ISA_STOREM = true ->
      word_at (rewound fresh_machine m') 2 = OPERAND_REGISTER \/
      word_at (rewound fresh_machine m') 2 = OPERAND_NUMERIC)).
Proof.
  split; [vm_compute; reflexivity | ].
  apply (accepted_indices_are_valid ISA_STOREM (Some "(A3)"%string) (Some "R2"%string) []
           fresh_machine).
  - apply ram_init_wf.
  - reflexivity.
  - vm_compute. discriminate.
  - vm_compute. discriminate.
Defined.

(** What is not covered: the target of a jump to a label is emitted as pass 1
    bound it.  A label bound beyond the memory assembles, and the run stops
    at the jump with a failure. *)
Example far_jump_is_emitted :
  observe (assemble_and_run 10 program_far_jump fresh_machine)
  = Some (Some false,
          {| pc := 0;
             address_registers := [0; 0; 0; 0; 0; 0; 0; 0];
             registers := [0; 0; 0; 0; 0; 0; 0; 0];
             zero_flag := false; negative_flag := false;
             running := false |}).
Proof. vm_compute. reflexivity. Qed.

(** ** Assembler: accepting and rejecting an instruction *)

Lemma rejected_shape (opcode : Z) (m m' : machine) (b : bool) :
  aret false m = Some (b, m') -> all_or_nothing opcode m b m'.
Proof. intros H. apply aret_inv in H. destruct H as [-> ->]. reflexivity. Qed.

Lemma accepted_shape (opcode : Z) (ws : list Z) (m m' : machine) (b : bool) :
  ws <> [] -> (is_uint32 opcode -> Forall is_uint32 ws) ->
  (let+ _ := emit_all ws in aret true) m = Some (b, m') -> all_or_nothing opcode m b m'.
Proof.
  intros Hne Hall H. apply emit_all_then_inv in H. destruct H as [-> H].
  exists ws. split; [exact Hne | split; [exact Hall | exact H]].
Qed.

Lemma pass2_emit_shape (opcode : Z) (op1 op2 : option string) (labels : list Label)
      (m m' : machine) (b : bool) :
  pass2_emit opcode op1 op2 labels m = Some (b, m') -> all_or_nothing opcode m b m'.
Proof.
  destruct (pass2_emit_factors opcode op1 op2 labels) as [Hr | (ws & Hne & _ & Hall & He)];
    intros H.
  - rewrite Hr in H. apply (rejected_shape opcode m). exact H.
  - rewrite He in H. apply (accepted_shape opcode ws); assumption.
Qed.

(** X25.  Pass 2 emits an instruction whole or not at all.  With at least
    four cells left in the memory at the program counter (the longest
    instruction has four words; [emit] itself does not check), the handler
    of an instruction returns, and: when it rejects the operands, it has
    written nothing, memory and program counter are what they were; when it
    accepts them, all its words, at most four, are in memory in the cells
    from the old program counter on, the program counter is just behind them
    and nothing else has changed. *)
Theorem pass2_emit_all_or_nothing :
  forall (opcode : Z) (op1 op2 : option string) (labels : list Label) (m : machine),
    0 <= pc (cpu_of m) -> pc (cpu_of m) + 4 <= RAM_SIZE ->
    exists (b : bool) (m' : machine),
      pass2_emit opcode op1 op2 labels m = Some (b, m') /\
      (b = false -> m' = m) /\
      (b = true ->
       exists ws : list Z, ws <> [] /\ (length ws <= 4)%nat /\ m' = emitted ws m).
Proof.
  intros opcode op1 op2 labels m H0 H4.
  apply (factors_total opcode); [apply pass2_emit_factors | exact H0 | exact H4].
Qed.

Lemma pass2_emit_all_or_nothing_witness :
  (verdict_of (pass2_emit ISA_CMP (Some "R1"%string) (Some "R9"%string) [] fresh_machine)
   = false /\
   exists (b : bool) (m' : machine),
     pass2_emit ISA_CMP (Some "R1"%string) (Some "R9"%string) [] fresh_machine
     = Some (b, m') /\
     (b = false -> m' = fresh_machine) /\
     (b = true ->
      exists ws : list Z,
        ws <> [] /\ (length ws <= 4)%nat /\ m' = emitted ws fresh_machine)) /\
  (verdict_of (pass2_emit ISA_CMP (Some "R1"%string) (Some "R2"%string) [] fresh_machine)
   = true /\
   exists (b : bool) (m' : machine),
     pass2_emit ISA_CMP (Some "R1"%string) (Some "R2"%string) [] fresh_machine
     = Some (b, m') /\
     (b = false -> m' = fresh_machine) /\
     (b = true ->
      exists ws : list Z,
        ws <> [] /\ (length ws <= 4)%nat /\ m' = emitted ws fresh_machine)).
Proof.
  split; (split; [vm_compute; reflexivity | ]).
  - apply (pass2_emit_all_or_nothing ISA_CMP (Some "R1"%string) (Some "R9"%string) []
             fresh_machine); vm_compute; discriminate.
  - apply (pass2_emit_all_or_nothing ISA_CMP (Some "R1"%string) (Some "R2"%string) []
             fresh_machine); vm_compute; discriminate.
Defined.

(** X26.  A load-immediate, assembled and then executed.  When the
    assembler accepts [LOADI op1, op2], the interpreter, arriving at the
    emitted words, carries the instruction out: the register that [op1]
    names holds the value of [op2] (read by [strtol] after an optional [#],
    reduced modulo 2^32), the zero flag says whether that value is 0, and
    the program counter is three words further. *)
Theorem assembled_load_immediate_runs :
  forall (op1 op2 : option string) (m m' : machine),
    machine_wf m ->
    handle_loadi_instruction op1 op2 m = Some (true, m') ->
    exists s2 : string,
      op2 = Some s2 /\
      cpu_step (rewound m m')
      = (true, loaded (parse_register op1)
                      (wrap32 (st_value (strtol (skip_hash s2) 0))) 3 (rewound m m')).
Proof.
  intros op1 op2 m m' [Hc Hr] H.
  apply handle_loadi_instruction_words in H. destruct H as (s2 & -> & Hreg & He).
  exists s2. split; [reflexivity | ].
  pose proof (emitted_word _ m m' 0 _ Hr He ltac:(lia) eq_refl) as W0.
  pose proof (emitted_word _ m m' 1 _ Hr He ltac:(lia) eq_refl) as W1.
  pose proof (emitted_word _ m m' 2 _ Hr He ltac:(lia) eq_refl) as W2.
  rewrite (loadi_step (rewound m m')).
  - rewrite W1, W2. reflexivity.
  - apply Hc.
  - exact W0.
  - rewrite W1. lia.
Qed.

Lemma assembled_load_immediate_runs_witness :
  exists s2 : string,
    Some "#42"%string = Some s2 /\
    cpu_step (rewound fresh_machine
                (state_after fresh_machine
                   (handle_loadi_instruction (Some "R3"%string) (Some "#42"%string)
                      fresh_machine)))
    = (true, loaded (parse_register (Some "R3"%string))
                    (wrap32 (st_value (strtol (skip_hash s2) 0))) 3
                    (rewound fresh_machine
                       (state_after fresh_machine
                          (handle_loadi_instruction (Some "R3"%string) (Some "#42"%string)
                             fresh_machine)))).
Proof.
  apply (assembled_load_immediate_runs (Some "R3"%string) (Some "#42"%string) fresh_machine).
  - apply fresh_machine_wf.
  - apply accepted_eq. vm_compute. reflexivity.
Defined.

(** ** Assembler: the two passes *)

Lemma pass1_extends_refl (st : pass1_state) : pass1_extends st st.
Proof.
  split; [exists []; rewrite app_nil_r; reflexivity | ].
  split; [tauto | split; [tauto | split; tauto]].
Qed.

Lemma pass1_extends_trans (st1 st2 st3 : pass1_state) :
  pass1_extends st1 st2 -> pass1_extends st2 st3 -> pass1_extends st1 st3.
Proof.
  intros ([a1 L1] & C1 & S1 & U1 & R1) ([a2 L2] & C2 & S2 & U2 & R2).
  split; [exists (a1 ++ a2); rewrite L2, L1, app_assoc; reflexivity | ].
  split; [tauto | ]. split; [ | split; [tauto | tauto]].
  intros H. destruct (S1 H) as [H1 H2]. destruct (S2 H1) as [H3 H4].
  split; [exact H3 | congruence].
Qed.

Lemma pass1_mnemonic_extends (mn : string) (st st' : pass1_state) :
  pass1_mnemonic mn st = Some st' -> pass1_extends st st'.
Proof.
  unfold pass1_mnemonic.
  destruct (get_opcode mn (length opcode_table) =? FAILURE); [discriminate | ].
  intros [= <-]. unfold pass1_extends. cbn [labels_of start_set range_start pc_cursor].
  split; [exists []; rewrite app_nil_r; reflexivity | ].
  split; [tauto | split; [tauto | split; [intros _; apply wrap32_range | tauto]]].
Qed.

Lemma add_label_extends (label_name : string) (st : pass1_state) (labels' : list Label) :
  add_label label_name (pc_cursor st) (labels_of st) = Some labels' ->
  pass1_extends st (mkPass1 (pc_cursor st) (start_set st) (range_start st) labels').
Proof.
  unfold add_label.
  destruct (MAX_LABELS <=? Z.of_nat (length (labels_of st))) eqn:E; [discriminate | ].
  apply Z.leb_gt in E. intros [= <-]. unfold pass1_extends. cbn [labels_of start_set range_start pc_cursor].
  split; [eexists; reflexivity | ].
  split; [intros _; rewrite length_app; cbn [length]; lia | ].
  split; [tauto | split; tauto].
Qed.

Lemma pass1_line_extends (line : string) (st st' : pass1_state) :
  pass1_line line st = Some st' -> pass1_extends st st'.
Proof.
  unfold pass1_line.
  destruct (is_empty_line line); [intros [= <-]; apply pass1_extends_refl | ].
  destruct (negb (directive_value line =? FAILURE)).
  - intros [= <-]. unfold pass1_extends. cbn [labels_of start_set range_start pc_cursor].
    split; [exists []; rewrite app_nil_r; reflexivity | ].
    split; [tauto | ]. split; [intros ->; split; reflexivity | ].
    split; [intros _; apply wrap32_range | ].
    intros H _. destruct (start_set st); [apply H; reflexivity | apply wrap32_range].
  - destruct (strtok_all is_token_delim line) as [ | first_tok rest];
      [intros [= <-]; apply pass1_extends_refl | ].
    destruct (is_label first_tok); [ | apply pass1_mnemonic_extends].
    destruct (add_label (label_of_token first_tok) (pc_cursor st) (labels_of st))
      as [labels' | ] eqn:Ea; [ | discriminate].
    apply add_label_extends in Ea.
    destruct rest as [ | mn rest'].
    + intros [= <-]. exact Ea.
    + intros H. apply pass1_mnemonic_extends in H.
      apply (pass1_extends_trans _ _ _ Ea H).
Qed.

Lemma pass1_all_extends (lines : list string) :
  forall st st' : pass1_state, pass1 lines st = Some st' -> pass1_extends st st'.
Proof.
  induction lines as [ | line lines IH]; intros st st'; cbn [pass1].
  - intros [= <-]. apply pass1_extends_refl.
  - destruct (pass1_line (clean_line line) st) as [st1 | ] eqn:E; [ | discriminate].
    intros H. apply pass1_line_extends in E. apply IH in H.
    apply (pass1_extends_trans _ _ _ E H).
Qed.

(** X27.  Pass 1 only ever appends to the label table and never changes
    what is in it.  Whatever lines it has read: the labels it started with
    are still there, in front; the table holds at most [MAX_LABELS] entries;
    a name that resolved before resolves to the same address after; a start
    address, once set by a first [.org], is kept; cursor and start address
    are 32-bit values. *)
Theorem pass1_only_appends_labels :
  forall (lines : list string) (st st' : pass1_state),
    pass1 lines st = Some st' ->
    pass1_extends st st' /\
    (forall q : string,
       bound q (labels_of st) = true ->
       find_label_addr q (labels_of st') = find_label_addr q (labels_of st)).
Proof.
  intros lines st st' H. apply pass1_all_extends in H. split; [exact H | ].
  destruct H as ([added L] & _). intros q Hq. rewrite L.
  apply find_label_addr_app_bound. exact Hq.
Qed.

Lemma pass1_only_appends_labels_witness :
  pass1_extends (mkPass1 4 true 4 [mkLabel "start" 4])
                (mkPass1 9 true 4 [mkLabel "start" 4; mkLabel "loop" 8]).
Proof.
  refine (proj1 (pass1_only_appends_labels ["ADD R0, R1"; "loop: HALT"]%string
                   (mkPass1 4 true 4 [mkLabel "start" 4])
                   (mkPass1 9 true 4 [mkLabel "start" 4; mkLabel "loop" 8]) _)).
  vm_compute. reflexivity.
Defined.

Lemma result_eq {A : Type} (d : machine) (r : option (A * machine)) (a : A) :
  option_map fst r = Some a -> r = Some (a, state_after d r).
Proof. destruct r as [[a' m] | ]; cbn; intros H; [injection H as <-; reflexivity | discriminate H]. Qed.

Lemma same_but_pc_refl (c : CPU) : same_but_pc c c.
Proof. repeat split. Qed.

Lemma same_but_pc_trans (c1 c2 c3 : CPU) :
  same_but_pc c1 c2 -> same_but_pc c2 c3 -> same_but_pc c1 c3.
Proof.
  intros (A1 & B1 & C1 & D1 & E1) (A2 & B2 & C2 & D2 & E2).
  repeat split; congruence.
Qed.

Lemma emitted_wf (ws : list Z) (m : machine) :
  machine_wf m -> Forall is_uint32 ws ->
  0 <= pc (cpu_of m) -> pc (cpu_of m) + Z.of_nat (length ws) <= RAM_SIZE ->
  machine_wf (emitted ws m).
Proof.
  intros [Hc Hr] Hall H0 H1. split; unfold emitted; cbn [cpu_of ram_of].
  - apply cpu_wf_with_pc; [ | exact Hc].
    unfold is_uint32, UINT32_MODULUS, RAM_SIZE in *. lia.
  - apply store_words_wf; assumption.
Qed.

Lemma all_or_nothing_wf (opcode : Z) (m m' : machine) (b : bool) :
  is_uint32 opcode -> machine_wf m -> all_or_nothing opcode m b m' ->
  machine_wf m' /\ same_but_pc (cpu_of m) (cpu_of m').
Proof.
  intros Hop Hwf H. destruct b; unfold all_or_nothing in H.
  - destruct H as (ws & Hne & Hall & He).
    destruct (emit_all_inv _ _ _ He Hne) as (H0 & H1 & ->).
    split; [apply emitted_wf; auto | ].
    unfold emitted. cbn [cpu_of]. repeat split.
  - subst m'. split; [exact Hwf | apply same_but_pc_refl].
Qed.

Lemma get_opcode_is_opcode (mn : string) :
  (get_opcode mn (length opcode_table) =? FAILURE) = false ->
  is_opcode (get_opcode mn (length opcode_table)) = true.
Proof.
  intros H. apply Z.eqb_neq in H. rewrite get_opcode_full in *.
  destruct (get_opcode_in_found opcode_table mn) as [E | E]; [contradiction | ].
  apply (in_table_is_opcode mn). exact E.
Qed.

Lemma pass2_line_wf (line : string) (labels : list Label) (m m' : machine) (b : bool) :
  machine_wf m -> pass2_line line labels m = Some (b, m') ->
  machine_wf m' /\ same_but_pc (cpu_of m) (cpu_of m').
Proof.
  intros Hwf. unfold pass2_line.
  assert (Hsame : forall v : bool, aret v m = Some (b, m') ->
                    machine_wf m' /\ same_but_pc (cpu_of m) (cpu_of m')).
  { intros v H. apply aret_inv in H. destruct H as [_ ->].
    split; [exact Hwf | apply same_but_pc_refl]. }
  destruct (is_empty_line line); [apply Hsame | ].
  match goal with
  | |- (if is_empty_line ?t then _ else _) _ = _ -> _ =>
      generalize t; intros text
  end.
  destruct (is_empty_line text); [apply Hsame | ].
  destruct (negb (directive_value text =? FAILURE)).
  - intros [= <- <-]. destruct Hwf as [Hc Hr]. split; [split | ]; cbn [cpu_of ram_of].
    + apply cpu_wf_with_pc; [apply wrap32_range | exact Hc].
    + exact Hr.
    + repeat split.
  - destruct (strtok_all is_token_delim text) as [ | mnemonic operands]; [apply Hsame | ].
    destruct (get_opcode mnemonic (length opcode_table) =? FAILURE) eqn:E; [apply Hsame | ].
    apply get_opcode_is_opcode, is_opcode_uint32 in E.
    intros H. apply pass2_emit_shape in H.
    apply (all_or_nothing_wf _ _ _ _ E Hwf H).
Qed.

Lemma pass2_wf (lines : list string) (labels : list Label) :
  forall (m m' : machine) (b : bool),
    machine_wf m -> pass2 lines labels m = Some (b, m') ->
    machine_wf m' /\ same_but_pc (cpu_of m) (cpu_of m').
Proof.
  induction lines as [ | line lines IH]; intros m m' b Hwf; cbn [pass2].
  - intros H. apply aret_inv in H. destruct H as [_ ->].
    split; [exact Hwf | apply same_but_pc_refl].
  - unfold abind.
    destruct (pass2_line (clean_line (clean_line line)) labels m) as [[ok m1] | ] eqn:E;
      [ | discriminate].
    destruct (pass2_line_wf _ _ _ _ _ Hwf E) as [Hwf1 Hs1].
    destruct ok.
    + intros H. destruct (IH _ _ _ Hwf1 H) as [Hwf2 Hs2].
      split; [exact Hwf2 | apply (same_but_pc_trans _ _ _ Hs1 Hs2)].
    + intros H. apply aret_inv in H. destruct H as [_ ->]. split; assumption.
Qed.

Lemma assemble_wf (source : string) (m m' : machine) (range : AssemblyRange) :
  machine_wf m -> assemble source m = Some (range, m') ->
  machine_wf m' /\ same_but_pc (cpu_of m) (cpu_of m') /\
  is_uint32 (start_address range) /\
  (error range = true -> start_address range = 0 /\ end_address range = 0) /\
  (error range = false -> end_address range = pc (cpu_of m')).
Proof.
  intros Hwf. unfold assemble.
  assert (Herr : Some (assemble_error, m) = Some (range, m') ->
            machine_wf m' /\ same_but_pc (cpu_of m) (cpu_of m') /\
            is_uint32 (start_address range) /\
            (error range = true -> start_address range = 0 /\ end_address range = 0) /\
            (error range = false -> end_address range = pc (cpu_of m'))).
  { intros [= <- <-]. split; [exact Hwf | ]. split; [apply same_but_pc_refl | ].
    cbn. split; [unfold is_uint32, UINT32_MODULUS; lia | ].
    split; [intros _; split; reflexivity | discriminate]. }
  destruct (read_lines (String.length source) source) as [ | line lines]; [exact Herr | ].
  destruct (pass1 (line :: lines) (mkPass1 0 false (start_address initialize_assembly) []))
    as [st | ] eqn:E1; [ | exact Herr].
  apply pass1_all_extends in E1. destruct E1 as (_ & _ & _ & _ & Hstart).
  cbn [start_set range_start] in Hstart.
  assert (Hs : is_uint32 (if start_set st then range_start st else 0)).
  { destruct (start_set st); [apply Hstart; [discriminate | reflexivity] | ].
    unfold is_uint32, UINT32_MODULUS. lia. }
  set (start := if start_set st then range_start st else 0) in *.
  assert (Hwf1 : machine_wf (mkMachine (with_pc start (cpu_of m)) (ram_of m))).
  { destruct Hwf as [Hc Hr]. split; cbn [cpu_of ram_of];
      [apply cpu_wf_with_pc; assumption | exact Hr]. }
  destruct (pass2 (line :: lines) (labels_of st)
                  (mkMachine (with_pc start (cpu_of m)) (ram_of m)))
    as [[ok m2] | ] eqn:E2; [ | discriminate].
  destruct (pass2_wf _ _ _ _ _ Hwf1 E2) as [Hwf2 Hs2]. cbn [cpu_of] in Hs2.
  assert (Hsame : same_but_pc (cpu_of m) (cpu_of m2)).
  { apply (same_but_pc_trans _ (with_pc start (cpu_of m))); [repeat split | exact Hs2]. }
  destruct ok; intros [= <- <-].
  - split; [exact Hwf2 | ]. split; [exact Hsame | ]. cbn.
    split; [exact Hs | split; [discriminate | reflexivity]].
  - split; [exact Hwf2 | ]. split; [exact Hsame | ]. cbn.
    split; [unfold is_uint32, UINT32_MODULUS; lia | ].
    split; [intros _; split; reflexivity | discriminate].
Qed.

(** X28.  Assembling writes memory and moves the program counter, and
    nothing else, as long as it writes inside the memory.  [emit] does not
    check where it writes, and an assembly that writes past the array has no
    result here; for every assembly that has one: registers, address
    registers, flags and [running] are what they were; a failed assembly
    returns the range [0, 0] with the error flag; a successful one returns as
    end address the program counter it leaves behind, and a start address
    within 32 bits. *)
Theorem assemble_touches_only_pc_and_memory :
  forall (source : string) (m m' : machine) (range : AssemblyRange),
    machine_wf m -> assemble source m = Some (range, m') ->
    same_but_pc (cpu_of m) (cpu_of m') /\
    is_uint32 (start_address range) /\
    (error range = true -> start_address range = 0 /\ end_address range = 0) /\
    (error range = false -> end_address range = pc (cpu_of m')).
Proof.
  intros source m m' range Hwf H. apply (assemble_wf _ _ _ _ Hwf) in H. tauto.
Qed.

Lemma assemble_touches_only_pc_and_memory_witness :
  same_but_pc (cpu_of fresh_machine) (cpu_of (state_after fresh_machine (assemble scenario_A fresh_machine))).
Proof.
  refine (proj1 (assemble_touches_only_pc_and_memory scenario_A fresh_machine
                   (state_after fresh_machine (assemble scenario_A fresh_machine))
                   (mkRange 0 11 false) fresh_machine_wf _)).
  apply result_eq. vm_compute. reflexivity.
Defined.

(** X29.  Assembler and interpreter together keep the state well-formed,
    as long as the assembly writes inside the memory.  From a well-formed
    state, for every source text whose assembly has a result (it has none
    when [emit] writes past the array), the state that [assemble] leaves is
    well-formed, and so is the state that the driver ends with when the run
    returns, whether assembly or run succeed or fail: every register, the
    program counter and every memory cell is a 32-bit value. *)
Theorem assemble_and_run_keeps_well_formed :
  forall (fuel : nat) (source : string) (m : machine),
    machine_wf m ->
    (forall (range : AssemblyRange) (m1 : machine),
       assemble source m = Some (range, m1) -> machine_wf m1) /\
    (forall (verdict : option bool) (m2 : machine),
       assemble_and_run fuel source m = Some (verdict, m2) -> machine_wf m2).
Proof.
  intros fuel source m Hwf. split.
  - intros range m1 H. apply (assemble_wf _ _ _ _ Hwf) in H. tauto.
  - intros verdict m2. unfold assemble_and_run.
    destruct (assemble source m) as [[range m1] | ] eqn:E; [ | discriminate].
    destruct (assemble_wf _ _ _ _ Hwf E) as (Hwf1 & _ & Hs & _).
    destruct (error range); [intros [= <- <-]; exact Hwf1 | ].
    destruct (cpu_run fuel range m1) as [[ok m3] | ] eqn:R; [ | discriminate].
    intros [= <- <-]. apply (cpu_run_wf _ _ _ _ _ Hwf1 Hs R).
Qed.

Lemma assemble_and_run_keeps_well_formed_witness :
  machine_wf (state_after fresh_machine (assemble_and_run 40 scenario_A fresh_machine)).
Proof.
  refine (proj2 (assemble_and_run_keeps_well_formed 40 scenario_A fresh_machine
                   fresh_machine_wf) (Some true) _ _).
  apply result_eq. vm_compute. reflexivity.
Defined.
